(** * SNN2MCU: fixed-point export of spiking-network weights

    A shallow embedding of [source/tools/SNN2MCU.py]: the quantizer
    [snn2mcu_value_cuantization], the parameter extractor
    [snn2mcu_param_dict_extractor] and the three memory encoders
    [snn2mcu_weights], [snn2mcu_thresholds] and [snn2mcu_leakages], then
    the encoders with the files they write and the driver [main], over a
    file system that maps paths to contents and may refuse to open a path.
    The parameters of the model are tensors of any number of dimensions.

    Python [int] is [Z]; Python [float] is IEEE binary64, taken from the
    Standard Library's executable specification [SpecFloat] at precision 53
    and maximal exponent 1024; Python [str] is [string]; a raised exception
    is the [Raise] branch of [result]. *)

From Stdlib Require Import ZArith QArith Qround Qabs Qminmax Lia Ascii.
From Stdlib Require Import Floats.SpecFloat.
From stdpp Require Import gmap strings pretty list.

Local Open Scope string_scope.
Local Open Scope list_scope.
Local Open Scope Z_scope.

(** ** Exceptions and the error monad *)

(** The exceptions that the modelled code can raise. *)
Inductive exn : Type :=
  | IndexError      (* [re.findall(...)[0]] on an empty match list *)
  | KeyError        (* reading a key that the dict does not hold *)
  | ValueError      (* [int(nan)]; [int(s)] or [str(n)] past 4300 digits *)
  | OverflowError   (* [int(inf)], or an [int] too large for a [float] *)
  | ZeroDivisionError
  | TypeError       (* iterating a 0-d tensor, or its [len] *)
  | RuntimeError    (* [.item()] on a tensor that has not one element *)
  | OSError.        (* [open(path, 'w')] on a path that cannot be opened *)

Inductive result (A : Type) : Type :=
  | Ok (a : A)
  | Raise (e : exn).
Arguments Ok {A} a.
Arguments Raise {A} e.

#[global] Instance result_ret : MRet result := fun A a => Ok a.
#[global] Instance result_bind : MBind result := fun A B k r =>
  match r with
  | Ok a => k a
  | Raise e => Raise e
  end.

(** A [for] loop whose body may raise: the state is threaded through the
    items in order and the first exception ends the loop. *)
Fixpoint for_each {A S} (body : S -> A -> result S) (items : list A) (s : S)
  : result S :=
  match items with
  | [] => Ok s
  | x :: rest => s' ← body s x; for_each body rest s'
  end.

(** [range(n)] for a Python [int] [n]. *)
Definition range (n : Z) : list Z := seqZ 0 n.

(** ** Python floats *)

Module PyFloat.

Definition prec : Z := 53.
Definition emax : Z := 1024.

Abbreviation float := spec_float.

Definition zero : float := S754_zero false.

(** [float(z)] for an [int]: correctly rounded, [OverflowError] past the
    largest finite double. *)
Definition of_int (z : Z) : result float :=
  match binary_normalize prec emax z 0 false with
  | S754_infinity _ => Raise OverflowError
  | f => Ok f
  end.

(** The integer [m * 2^e] truncated toward zero. *)
Definition trunc_scaled (m e : Z) : Z :=
  if 0 <=? e then m * 2 ^ e else m ÷ 2 ^ (- e).

(** [int(f)]: truncation toward zero. *)
Definition to_int (f : float) : result Z :=
  match f with
  | S754_zero _ => Ok 0
  | S754_nan => Raise ValueError
  | S754_infinity _ => Raise OverflowError
  | S754_finite s m e => Ok (trunc_scaled (cond_Zopp s (Zpos m)) e)
  end.

Definition mul : float -> float -> float := SFmul prec emax.
Definition sub : float -> float -> float := SFsub prec emax.
Definition div : float -> float -> float := SFdiv prec emax.
Definition ltb : float -> float -> bool := SFltb.

(** [a / b] for two [int]s: the correctly rounded quotient. *)
Definition int_true_div (a b : Z) : result float :=
  let fin (z : Z) (p : positive) := S754_finite (z <? 0) p 0 in
  match a, b with
  | _, Z0 => Raise ZeroDivisionError
  | Z0, _ => Ok (S754_zero (b <? 0))
  | (Zpos p | Zneg p), (Zpos q | Zneg q) =>
      match SFdiv prec emax (fin a p) (fin b q) with
      | S754_infinity _ => Raise OverflowError
      | f => Ok f
      end
  end.

(** [2.0 ** k] for [k < 0]; a result below the smallest subnormal rounds
    to zero. *)
Definition pow2_neg (k : Z) : float := binary_round prec emax false 1 k.

(** The literal [0.9]. *)
Definition zero_point_nine : float :=
  S754_finite false 8106479329266893 (-53).

Definition is_finite (f : float) : bool :=
  match f with
  | S754_zero _ | S754_finite _ _ _ => true
  | _ => false
  end.

Definition valid (f : float) : bool := valid_binary prec emax f.

(** The rational number a finite float stands for. *)
Definition pow2Q (k : Z) : Q :=
  if 0 <=? k then inject_Z (2 ^ k) else 1 # Z.to_pos (2 ^ (- k)).

Definition to_Q (f : float) : Q :=
  match f with
  | S754_finite s m e => inject_Z (cond_Zopp s (Zpos m)) * pow2Q e
  | _ => 0
  end%Q.

(** Truncation of a rational toward zero ([Qfloor] rounds down). *)
Definition Qtrunc (q : Q) : Z := Qnum q ÷ Zpos (Qden q).

End PyFloat.

Import PyFloat.

(** A number that the expression [2 ** bits] evaluates to: an [int] for a
    non-negative exponent, a [float] for a negative one. *)
Inductive pynum : Type :=
  | PInt (z : Z)
  | PFloat (f : float).

(** [2 ** bits]. With a negative exponent Python converts both operands to
    [float] and takes the power there: an exponent too large for a [float]
    raises [OverflowError]. The power itself is [2.0 ** float(bits)]; where
    [float(bits)] differs from [bits], far below [-1074], it is [0.0] for
    both. *)
Definition pow2 (bits : Z) : result pynum :=
  if 0 <=? bits then Ok (PInt (2 ^ bits))
  else _ ← of_int bits; Ok (PFloat (pow2_neg bits)).

(** [n * f] for a number [n] and a float [f]: an [int] operand is converted
    to [float] first. *)
Definition num_mul_float (n : pynum) (f : float) : result float :=
  match n with
  | PInt z => x ← of_int z; Ok (mul x f)
  | PFloat x => Ok (mul x f)
  end.

(** ** The quantizer *)

(** [snn2mcu_value_cuantization(number_of_bits, float_value,
    negatives_allowed)]. *)
Definition snn2mcu_value_cuantization
    (number_of_bits : Z) (float_value : float) (negatives_allowed : bool)
  : result Z :=
  let bits := number_of_bits in
  let '(bits, float_value) :=
    if negb negatives_allowed then
      (bits, if ltb float_value zero then zero else float_value)
    else (bits - 1, float_value) in
  n ← pow2 bits;
  p ← num_mul_float n float_value;
  to_int p.

(** ** Integers and text *)

(** The limit of CPython on the decimal digits of an [int] that is
    converted to or from a [str]. *)
Definition max_str_digits : Z := 4300.

(** The least number with more than 4300 digits, [10^4300], evaluated
    once. *)
Definition str_limit : Z := Eval vm_compute in 10 ^ 4300.

(** [str(n)] for an [int]: the decimal digits, with a minus sign for a
    negative number; [ValueError] when there are more than 4300 digits. *)
Definition str (n : Z) : result string :=
  if str_limit <=? Z.abs n then Raise ValueError else Ok (pretty n).

(** ** Parameter names *)

Definition is_digit (c : ascii) : bool :=
  let n := N_of_ascii c in ((48 <=? n) && (n <=? 57))%N.

Definition digit_value (c : ascii) : Z := Z.of_N (N_of_ascii c) - 48.

(** The longest prefix of [s] made of digits. *)
Fixpoint take_digits (s : string) : string :=
  match s with
  | String c s' => if is_digit c then String c (take_digits s') else ""
  | "" => ""
  end.

(** [re.findall(r'\d+', name)], only as far as its first element: the first
    maximal run of decimal digits, if there is one. Names are strings of
    8-bit characters, so the digits are the ten ASCII digits. *)
Fixpoint first_digit_run (name : string) : option string :=
  match name with
  | "" => None
  | String c s' =>
      if is_digit c then Some (String c (take_digits s'))
      else first_digit_run s'
  end.

(** [int(s)] for a string of decimal digits. *)
Fixpoint int_of_digits_from (acc : Z) (s : string) : Z :=
  match s with
  | "" => acc
  | String c s' => int_of_digits_from (10 * acc + digit_value c) s'
  end.

Definition int_of_digits : string -> Z := int_of_digits_from 0.

(** [int(re.findall(r'\d+', name)[0])]: [IndexError] when the list of
    matches is empty, [ValueError] when the run has more than 4300 digits,
    leading zeros included. *)
Definition layer_of_name (name : string) : result Z :=
  match first_digit_run name with
  | Some run =>
      if max_str_digits <? Z.of_nat (String.length run) then Raise ValueError
      else Ok (int_of_digits run)
  | None => Raise IndexError
  end.

(** [needle in s] for strings. *)
Fixpoint contains (needle s : string) : bool :=
  String.prefix needle s ||
  match s with
  | "" => false
  | String _ s' => contains needle s'
  end.

(** ** Tensors *)

(** A [torch] tensor of floats, by its dimensions: a tensor of no dimension
    holds one number, and a tensor of [n + 1] dimensions is the sequence of
    the tensors of [n] dimensions that iterating it yields. The tensors of
    [torch] are rectangular; the type has them among others. *)
#[warnings="-register-all"] Inductive torch_tensor : Type :=
  | Scalar (x : float)
  | Stack (items : list torch_tensor).

(** What [for x in t] iterates over, and what [len(t)] counts: [TypeError]
    on a tensor of no dimension. *)
Definition unbind (t : torch_tensor) : result (list torch_tensor) :=
  match t with
  | Scalar _ => Raise TypeError
  | Stack items => Ok items
  end.

(** [t.item()]: the number of a tensor that has exactly one element,
    whatever its dimensions, as a Python float; [RuntimeError] on any other
    tensor. *)
Fixpoint item (t : torch_tensor) : result float :=
  match t with
  | Scalar x => Ok x
  | Stack [t'] => item t'
  | Stack _ => Raise RuntimeError
  end.

(** ** The parameter dictionary *)

(** The rows of floats that the two nested [for] loops of the extractor
    read from a parameter of two dimensions: the rows are the neurons, a
    row holds the weights of the synapses that enter the neuron. *)
Abbreviation tensor := (list (list float)).

(** [param_dict]. The Python dict holds three kinds of entries under keys
    that cannot collide (a weight key starts with the letter l): the list
    under ['model_architecture'], the number under ['number_of_layers'] and
    one list of floats under each ['l<layer>_n<neuron>_w']. A key that was
    never written is [None], and reading it raises [KeyError]. *)
Record param_dict : Type := ParamDict {
  model_architecture : option (list Z);
  number_of_layers : option Z;
  weights : gmap string (list float)
}.

Definition empty_dict : param_dict := ParamDict None None ∅.

Definition set_architecture (a : list Z) (d : param_dict) : param_dict :=
  ParamDict (Some a) (number_of_layers d) (weights d).

Definition set_number_of_layers (n : Z) (d : param_dict) : param_dict :=
  ParamDict (model_architecture d) (Some n) (weights d).

Definition set_weights (w : gmap string (list float)) (d : param_dict)
  : param_dict :=
  ParamDict (model_architecture d) (number_of_layers d) w.

(** ['l' + str(layer) + '_n' + str(neuron_id) + '_w']. Here [str] does not
    raise: [layer] is what [int] returned for at most 4300 digits or a
    number that a [range] has counted up to, and so is [neuron_id]. *)
Definition weight_key (layer neuron_id : Z) : string :=
  "l" +:+ pretty layer +:+ "_n" +:+ pretty neuron_id +:+ "_w".

(** [try: param_dict[key].append(x) except: param_dict[key] = [x]]. *)
Definition append_or_init (key : string) (d : param_dict) (x : float)
  : param_dict :=
  match weights d !! key with
  | Some l => set_weights (<[key := l ++ [x]]> (weights d)) d
  | None => set_weights (<[key := [x]]> (weights d)) d
  end.

(** [len(x)] as a Python [int]. *)
Definition len {A} (l : list A) : Z := Z.of_nat (length l).

(** ** The parameter extractor *)

(** One turn of [for weight in neuron]: the [try] appends the number to the
    list under the key, the [except] starts the list when the key is
    missing. An exception of [weight.item()] is raised again by the
    [except] branch, which evaluates it once more. *)
Definition weight_step (key : string) (d : param_dict) (weight : torch_tensor)
  : result param_dict :=
  x ← item weight;
  Ok (append_or_init key d x).

(** One turn of [for neuron in param], on the dict and [neuron_id]. *)
Definition neuron_step (layer : Z) (st : param_dict * Z) (neuron : torch_tensor)
  : result (param_dict * Z) :=
  let '(d, neuron_id) := st in
  let key := weight_key layer neuron_id in
  d ← (if (1 =? layer) && (0 =? neuron_id)
       then weights ← unbind neuron; Ok (set_architecture [len weights] d)
       else Ok d);
  weights ← unbind neuron;
  d ← for_each (weight_step key) weights d;
  Ok (d, neuron_id + 1).

(** One turn of [for name, param in model.named_parameters()]. *)
Definition param_step (d : param_dict) (entry : string * torch_tensor)
  : result param_dict :=
  let '(name, param) := entry in
  layer ← layer_of_name name;
  if contains "weight" name then
    neurons ← unbind param;
    st ← for_each (neuron_step layer) neurons (d, 0);
    let d := fst st in
    match model_architecture d with
    | Some a => Ok (set_architecture (a ++ [len neurons]) d)
    | None => Raise KeyError
    end
  else Ok d.

(** The walk over all parameters (lines 51 to 72). *)
Definition tensor_walk (params : list (string * torch_tensor))
  : result param_dict :=
  for_each param_step params empty_dict.

(** One turn of the loop that adds the input neurons. *)
Definition input_step (layer : Z) (st : param_dict * Z) (n : Z)
  : param_dict * Z :=
  let '(d, neuron_id) := st in
  let key := weight_key layer neuron_id in
  (append_or_init key d zero_point_nine, neuron_id + 1).

(** The part after the walk (lines 74 to 89). *)
Definition add_input_layer (d : param_dict) : result param_dict :=
  match model_architecture d with
  | None => Raise KeyError
  | Some a =>
      let d := set_number_of_layers (len a) d in
      match a !! 0%nat with
      | None => Raise IndexError
      | Some a0 => Ok (fst (foldl (input_step 0) (d, 0) (range a0)))
      end
  end.

(** [snn2mcu_param_dict_extractor(model)], on the sequence that
    [model.named_parameters()] yields. *)
Definition snn2mcu_param_dict_extractor (params : list (string * torch_tensor))
  : result param_dict :=
  d ← tensor_walk params;
  add_input_layer d.

(** ** The extractor on parameters that have been read *)

(** The numbers that the loops read from a neuron and from a parameter,
    in the order in which they read them, or the first exception. *)
Definition floats_of (neuron : torch_tensor) : result (list float) :=
  weights ← unbind neuron;
  mapM item weights.

Definition rows_of (param : torch_tensor) : result tensor :=
  neurons ← unbind param;
  mapM floats_of neurons.

(** The loops of the extractor on the rows read from a parameter: no read
    is left that could raise, and the loops over neurons and weights are
    folds. The lemmas [param_step_reads] and [extractor_on_matrices] show
    that the extractor is the reading followed by these. *)

Definition pure_neuron_step (layer : Z) (st : param_dict * Z) (neuron : list float)
  : param_dict * Z :=
  let '(d, neuron_id) := st in
  let key := weight_key layer neuron_id in
  let d :=
    if (1 =? layer) && (0 =? neuron_id)
    then set_architecture [len neuron] d else d in
  let d := foldl (append_or_init key) d neuron in
  (d, neuron_id + 1).

Definition pure_neuron_loop (layer : Z) (d : param_dict) (i : Z) (param : tensor)
  : param_dict * Z :=
  foldl (pure_neuron_step layer) (d, i) param.

Definition pure_param_step (d : param_dict) (entry : string * tensor)
  : result param_dict :=
  let '(name, param) := entry in
  layer ← layer_of_name name;
  if contains "weight" name then
    let d := fst (pure_neuron_loop layer d 0 param) in
    match model_architecture d with
    | Some a => Ok (set_architecture (a ++ [len param]) d)
    | None => Raise KeyError
    end
  else Ok d.

Definition pure_walk (params : list (string * tensor)) : result param_dict :=
  for_each pure_param_step params empty_dict.

Definition pure_extractor (params : list (string * tensor))
  : result param_dict :=
  d ← pure_walk params;
  add_input_layer d.

(** A matrix as a tensor of two dimensions, and a sequence of named
    matrices as a sequence of parameters. *)
Definition matrix (rows : tensor) : torch_tensor :=
  Stack ((fun row => Stack (Scalar <$> row)) <$> rows).

Definition matrices (params : list (string * tensor))
  : list (string * torch_tensor) :=
  (fun entry => (entry.1, matrix entry.2)) <$> params.

(** ** The memory encoders *)

(** [param_dict[key]] for the three kinds of keys. *)
Definition get_number_of_layers (d : param_dict) : result Z :=
  match number_of_layers d with Some n => Ok n | None => Raise KeyError end.

(** [param_dict['model_architecture'][l]], for [l] from a [range]. *)
Definition get_layer_size (d : param_dict) (l : Z) : result Z :=
  match model_architecture d with
  | None => Raise KeyError
  | Some a =>
      match a !! Z.to_nat l with
      | Some n => Ok n
      | None => Raise IndexError
      end
  end.

Definition get_weights (d : param_dict) (key : string) : result (list float) :=
  match weights d !! key with Some l => Ok l | None => Raise KeyError end.

(** [s[:-1]]. *)
Fixpoint drop_last (s : string) : string :=
  match s with
  | "" => ""
  | String c "" => ""
  | String c s' => String c (drop_last s')
  end.

(** The two nested loops over layers and neurons that the three encoders
    share; [emit] is the body run for each neuron. *)
Definition for_each_neuron (d : param_dict)
    (emit : string -> Z -> Z -> result string) (start : string)
  : result string :=
  nl ← get_number_of_layers d;
  for_each (fun s l =>
    size ← get_layer_size d l;
    for_each (fun s n => emit s l n) (range size) s) (range nl) start.

(** [snn2mcu_weights(file_path, param_dict, precision, negatives_allowed)]:
    the text written to the file. *)
Definition snn2mcu_weights (d : param_dict) (precision : Z)
    (negatives_allowed : bool) : result string :=
  string_memory ← for_each_neuron d (fun s l n =>
    let key := weight_key l n in
    ws ← get_weights d key;
    for_each (fun s w =>
      q ← snn2mcu_value_cuantization precision w negatives_allowed;
      text ← str q;
      Ok (s +:+ text +:+ ",")) ws s) "{";
  Ok (drop_last string_memory +:+ "}").

Definition newline : string := String "010"%char "".

Definition coe_header : string :=
  "memory_initialization_radix=10;" +:+ newline +:+
  "memory_initialization_vector=".

(** [int((2**precision) - 1)]. *)
Definition threshold_value (precision : Z) : result Z :=
  n ← pow2 precision;
  match n with
  | PInt z => Ok (z - 1)
  | PFloat f => one ← of_int 1; to_int (sub f one)
  end.

(** [int(2**precision / 100)]. *)
Definition leakage_value (precision : Z) : result Z :=
  n ← pow2 precision;
  match n with
  | PInt z => q ← int_true_div z 100; to_int q
  | PFloat f => hundred ← of_int 100; to_int (div f hundred)
  end.

(** What [snn2mcu_thresholds] and [snn2mcu_leakages] write after the
    header: one constant per neuron, computed and printed anew at every
    turn and followed by a space, then the last space is cut and a
    semicolon added. *)
Definition constant_body (d : param_dict) (value : result Z)
  : result string :=
  string_memory ← for_each_neuron d (fun s _ _ =>
    v ← value; text ← str v; Ok (s +:+ text +:+ " ")) "";
  Ok (drop_last string_memory +:+ ";").

(** The text of the file: the two header lines, then the body. *)
Definition constant_per_neuron (d : param_dict) (value : result Z)
  : result string :=
  body ← constant_body d value;
  Ok (coe_header +:+ body).

(** [snn2mcu_thresholds(file_path, param_dict, precision)]: the text
    written to the file. *)
Definition snn2mcu_thresholds (d : param_dict) (precision : Z)
  : result string :=
  constant_per_neuron d (threshold_value precision).

(** [snn2mcu_leakages(file_path, param_dict, precision)]: the text written
    to the file. *)
Definition snn2mcu_leakages (d : param_dict) (precision : Z)
  : result string :=
  constant_per_neuron d (leakage_value precision).

(** ** The files and the driver *)

(** The file system is the map from the paths of its regular files to their
    contents, with the set of the paths that can be opened for writing:
    [open] fails on the others, for a directory that is missing or
    protected, or a path that is a directory. *)

(** [open(path, 'w')]: the file is created, or emptied when it exists;
    [OSError] when the path cannot be opened. *)
Definition open_for_writing (writable : string -> bool) (path : string)
    (files : gmap string string) : result (gmap string string) :=
  if writable path then Ok (<[path := ""]> files) else Raise OSError.

(** [file.write(text)] on the open file under [path]. *)
Definition file_write (path text : string) (files : gmap string string)
  : gmap string string :=
  alter (fun content => content +:+ text) path files.

(** [snn2mcu_weights(file_path, param_dict, precision, negatives_allowed)]
    with its file: the file is opened before the loops run, so it is left
    empty when they raise. The result is the file system after the call
    and the outcome of the call. *)
Definition snn2mcu_weights_file (writable : string -> bool)
    (file_path : string) (d : param_dict) (precision : Z)
    (negatives_allowed : bool) (files : gmap string string)
  : gmap string string * result unit :=
  match open_for_writing writable file_path files with
  | Raise e => (files, Raise e)
  | Ok files =>
      match snn2mcu_weights d precision negatives_allowed with
      | Ok string_memory => (file_write file_path string_memory files, Ok ())
      | Raise e => (files, Raise e)
      end
  end.




Definition weights_file_path (out_dir : string) : string :=
  (out_dir +:+ "/") +:+ "init_weigthts.coe".

Definition weights_negatives_file_path (out_dir : string) : string :=
  (out_dir +:+ "/") +:+ "init_weigthts_negatives.coe".

Definition leakages_file_path (out_dir : string) : string :=
  (out_dir +:+ "/") +:+ "init_leakages.coe".


(** [main()], from the extraction on: [params] is what
    [named_parameters()] yields on the model that [torch.load] returned,
    [out_dir] and [precision] are the parsed arguments. The calls for
    thresholds and leakages are commented out in the source. *)
Definition main (writable : string -> bool)
    (params : list (string * torch_tensor)) (out_dir : string)
    (precision : Z) (files : gmap string string)
  : gmap string string * result unit :=
  match snn2mcu_param_dict_extractor params with
  | Raise e => (files, Raise e)
  | Ok param_dict =>
      match snn2mcu_weights_file writable (weights_file_path out_dir)
              param_dict precision false files with
      | (files, Raise e) => (files, Raise e)
      | (files, Ok _) =>
          snn2mcu_weights_file writable (weights_negatives_file_path out_dir)
            param_dict precision true files
      end
  end.

(** ** Vocabulary of the statements *)

(** *** Inputs of the extractor *)

(** The entry is one that the filter ["weight" in name] lets through. *)
Definition is_weight {A} (entry : string * A) : bool :=
  contains "weight" entry.1.

(** The layer indices of the weight entries, in the order of the input. *)
Definition weight_layers (params : list (string * tensor)) : list Z :=
  flat_map (fun entry =>
    if is_weight entry then
      match layer_of_name entry.1 with
      | Ok layer => [layer]
      | Raise _ => []
      end
    else []) params.

(** The tensors of the weight entries, in the order of the input. *)
Definition weight_tensors (params : list (string * tensor)) : list tensor :=
  flat_map (fun entry => if is_weight entry then [entry.2] else []) params.

(** The first weight entry of the input belongs to layer 1. *)
Definition first_weight_has_layer_1 (params : list (string * tensor)) : Prop :=
  exists pre name rows post,
    params = pre ++ (name, rows) :: post /\
    Forall (fun entry => is_weight entry = false) pre /\
    is_weight (name, rows) = true /\
    layer_of_name name = Ok 1.

(** The weight tensors come in the layer order 1, 2, ..., L. *)
Definition layers_in_order (params : list (string * tensor)) : Prop :=
  weight_layers params = seqZ 1 (len (weight_layers params)).

(** Every row of the matrix has [c] entries. *)
Definition columns (c : Z) (rows : tensor) : Prop :=
  Forall (fun row => len row = c) rows.

(** Each matrix has as many columns as the one before it has rows;
    [fan_in] is the column count of the first. *)
Fixpoint chained (fan_in : Z) (tensors : list tensor) : Prop :=
  match tensors with
  | [] => True
  | rows :: rest => columns fan_in rows /\ chained (len rows) rest
  end.

(** The matrix has at least one column. *)
Definition no_empty_row (rows : tensor) : Prop :=
  Forall (fun row => row <> []) rows.

(** The rows that the last loop of the extractor stores for layer 0. *)
Definition input_rows (a0 : Z) : tensor :=
  (fun _ => [zero_point_nine]) <$> range a0.

(** *** Parameter tables *)

(** Layer [l] of the table: the neurons that have a weight vector are
    [0 .. a[l] - 1], and every vector has [a[l-1]] weights. *)
Definition layer_shape (a : list Z) (w : gmap string (list float)) (l : Z)
  : Prop :=
  exists al al',
    a !! Z.to_nat l = Some al /\ a !! Z.to_nat (l - 1) = Some al' /\
    (forall n, is_Some (w !! weight_key l n) <-> 0 <= n < al) /\
    (forall n v, w !! weight_key l n = Some v -> len v = al').

(** The structural invariant of the specification (section 3). *)
Definition structural_invariant (t : param_dict) : Prop :=
  exists a,
    model_architecture t = Some a /\
    number_of_layers t = Some (len a) /\
    forall l, 1 <= l < len a -> layer_shape a (weights t) l.

(** The dict during the walk, after the tensors of layers [1 .. k]; [last]
    is the number of rows of the tensor of layer [k]. *)
Definition walk_state (k : Z) (d : param_dict) (last : Z) : Prop :=
  exists a,
    model_architecture d = Some a /\ len a = k + 1 /\
    a !! Z.to_nat k = Some last /\
    (forall l, 1 <= l <= k -> layer_shape a (weights d) l) /\
    (forall l n, k < l -> weights d !! weight_key l n = None).

(** The table carries its architecture and the redundant layer count. *)
Definition has_architecture (d : param_dict) (a : list Z) : Prop :=
  model_architecture d = Some a /\ number_of_layers d = Some (len a).

(** [model_architecture[l]], zero outside the list. *)
Definition layer_size (a : list Z) (l : Z) : Z := default 0 (a !! Z.to_nat l).

(** The pairs (layer, neuron) in the order of the two nested loops:
    layers [0 .. len a - 1], in each layer neurons [0 .. a[l] - 1]. *)
Definition neuron_ids (a : list Z) : list (Z * Z) :=
  flat_map (fun l => (fun n => (l, n)) <$> range (layer_size a l)) (range (len a)).

(** Every neuron of every layer has its weight vector. *)
Definition has_all_weights (d : param_dict) (a : list Z) : Prop :=
  Forall (fun id => is_Some (weights d !! weight_key id.1 id.2)) (neuron_ids a).

(** The number of neurons of the table. *)
Definition neuron_count (a : list Z) : nat := sum_list_with Z.to_nat a.

(** *** The artifacts in the words of the specification *)

(** The weights of the table: layers, then neurons, then stored order. *)
Definition table_weights (d : param_dict) (a : list Z) : list float :=
  flat_map (fun id => default [] (weights d !! weight_key id.1 id.2))
           (neuron_ids a).

(** The quantized value of the specification (section 4.1): without
    negatives the value is clamped at zero and scaled by [2^bits], with
    negatives it is scaled by [2^(bits-1)]; the scaled value is truncated
    toward zero. *)
Definition quantize (bits : Z) (value : float) (allow_negative : bool) : Z :=
  if allow_negative then Qtrunc (to_Q value * pow2Q (bits - 1))
  else Qfloor (Qmax (to_Q value) 0 * pow2Q bits).

(** The bit width and the value are in the range of the doubles: the
    value is a finite double and its scaled magnitude is below [2^1024]. *)
Definition in_double_range (bits : Z) (allow_negative : bool) (value : float)
  : Prop :=
  valid value = true /\ is_finite value = true /\
  if allow_negative
  then 2 <= bits <= 1024 /\ (Qabs (to_Q value) * pow2Q (bits - 1) < pow2Q 1024)%Q
  else 1 <= bits <= 1023 /\ (Qmax (to_Q value) 0 * pow2Q bits < pow2Q 1024)%Q.

(** The weights artifact: the quantized weights as decimal strings, joined
    by commas, in braces. *)
Definition encode_weights (d : param_dict) (a : list Z) (bits : Z)
    (allow_negative : bool) : string :=
  "{" +:+
  String.concat ","
    ((fun w => pretty (quantize bits w allow_negative)) <$> table_weights d a)
  +:+ "}".

(** The thresholds and leakages artifacts: the two header lines, one
    constant per neuron joined by spaces, and a semicolon. *)
Definition encode_constant (a : list Z) (v : Z) : string :=
  "memory_initialization_radix=10;" +:+
  String "010"%char "memory_initialization_vector=" +:+
  String.concat " " (replicate (neuron_count a) (pretty v)) +:+ ";".

(** *** Strings *)

Fixpoint all_chars (p : ascii -> bool) (s : string) : bool :=
  match s with
  | "" => true
  | String c s' => p c && all_chars p s'
  end.

Definition not_underscore (c : ascii) : bool := negb (Ascii.eqb c "_").

(** The items of a list, each followed by the separator. *)
Fixpoint trailed (sep : ascii) (xs : list string) : string :=
  match xs with
  | [] => ""
  | x :: xs => x +:+ String sep (trailed sep xs)
  end.

(** *** Edges *)

(** The float is not a negative number: a zero of either sign, a positive
    number, an infinity or a NaN. *)
Definition not_negative (f : float) : bool :=
  match f with
  | S754_finite s _ _ => negb s
  | _ => true
  end.

(** The character is no decimal digit. *)
Definition not_digit (c : ascii) : bool := negb (is_digit c).

(** The string does not begin with a digit. *)
Definition no_leading_digit (s : string) : bool :=
  match s with
  | "" => true
  | String c _ => not_digit c
  end.

(** Every name of the input gives a layer index: it has a run of decimal
    digits, of at most 4300 digits. *)
Definition names_parse {A} (params : list (string * A)) : Prop :=
  Forall (fun entry => exists layer, layer_of_name entry.1 = Ok layer) params.

(** The loops can read every weight parameter of the input: it has two
    dimensions at least, and each item of each of its rows has one
    element. *)
Definition weights_readable (params : list (string * torch_tensor)) : Prop :=
  Forall (fun entry =>
    is_weight entry = true -> exists rows, rows_of entry.2 = Ok rows) params.

(** The input as the loops read it: each parameter by its rows of floats,
    without rows where the reading raises. *)
Definition read_params (params : list (string * torch_tensor))
  : list (string * tensor) :=
  (fun entry =>
     (entry.1, match rows_of entry.2 with Ok rows => rows | Raise _ => [] end))
  <$> params.

(** The first weight entry of the input belongs to layer 1 and its tensor
    has a row. *)
Definition first_weight_seeds (params : list (string * tensor)) : Prop :=
  exists pre name rows post,
    params = pre ++ (name, rows) :: post /\
    Forall (fun entry => is_weight entry = false) pre /\
    is_weight (name, rows) = true /\
    layer_of_name name = Ok 1 /\
    rows <> [].

(** ** Sample inputs *)

(** 0.5, -0.5 and -0.25. *)
Definition half : float := S754_finite false 4503599627370496 (-53).
Definition minus_half : float := S754_finite true 4503599627370496 (-53).
Definition minus_quarter : float := S754_finite true 4503599627370496 (-54).

(** The largest finite double. *)
Definition max_float : float := S754_finite false 9007199254740991 971.

(** A network with 3 inputs, 2 hidden neurons and 1 output. *)
Definition sample_params : list (string * tensor) :=
  [("fc1.weight", [[half; half; half]; [half; minus_half; half]]);
   ("fc1.bias", [[half; half]]);
   ("fc2.weight", [[minus_quarter; half]]);
   ("fc2.bias", [[half]])].

Definition sample_table : param_dict :=
  Eval vm_compute in
    match snn2mcu_param_dict_extractor (matrices sample_params) with
    | Ok t => t
    | Raise _ => empty_dict
    end.

(** A first layer with two neurons and no input. *)
Definition zero_column_params : list (string * tensor) :=
  [("fc1.weight", [[]; []])].

(** A weight tensor whose name carries the layer index 0. *)
Definition layer_0_params : list (string * tensor) :=
  [("fc1.weight", [[half]]); ("fc0.weight", [[half]])].

(** Two weight tensors of layer 1, of 2 x 2 and 1 x 2 weights. *)
Definition ragged_params : list (string * tensor) :=
  [("fc1.weight", [[half; half]; [half; half]]);
   ("fc1.weight_v", [[half; half]])].

(** A bias of one dimension whose name has no digit, behind a well-formed
    weight tensor; and the same behind a weight tensor of layer 2, which
    raises first. *)
Definition unnamed_model : list (string * torch_tensor) :=
  [("fc1.weight", matrix [[half]]); ("bias", Stack [Scalar half])].

Definition unseeded_model : list (string * torch_tensor) :=
  [("fc2.weight", matrix [[half]]); ("bias", Stack [Scalar half])].

(** A table of one input neuron and nothing else. *)
Definition one_neuron_table : param_dict :=
  ParamDict (Some [1]) (Some 1) {[ weight_key 0 0 := [zero_point_nine] ]}.

(** A table without layers, and one whose layer 1 has two neurons and no
    weight vector. *)
Definition empty_table : param_dict := ParamDict (Some []) (Some 0) ∅.

Definition incomplete_table : param_dict := ParamDict (Some [0; 2]) (Some 2) ∅.

(** The files of a run on the sample network into the directory [out], at
    8 bits, and of a run at 1024 bits, where every path can be opened. *)
Definition sample_files : gmap string string :=
  Eval vm_compute in
    (main (fun _ => true) (matrices sample_params) "out" 8 ∅).1.


(** * Properties *)

(** ** Loops in the error monad *)

Lemma for_each_cons {A S} (body : S -> A -> result S) x items s :
  for_each body (x :: items) s = body s x ≫= for_each body items.
Proof. reflexivity. Qed.

Lemma bind_Ok {A B} (r : result A) (k : A -> result B) b :
  r ≫= k = Ok b -> exists a, r = Ok a /\ k a = Ok b.
Proof. destruct r as [a|]; [eauto|discriminate]. Qed.

(** One turn of a loop that ended well: the body gave [s1], and the rest
    of the loop ran from there. *)
Ltac walk_step Hrun s1 Hstep :=
  rewrite for_each_cons in Hrun;
  apply bind_Ok in Hrun as (s1 & Hstep & Hrun).

Lemma for_each_ext {A S} (f g : S -> A -> result S) (items : list A) :
  (forall s x, In x items -> f s x = g s x) ->
  forall s, for_each f items s = for_each g items s.
Proof.
  induction items as [|x items IH]; intros Hfg s; [reflexivity|].
  rewrite !for_each_cons, (Hfg s x) by (left; reflexivity).
  destruct (g s x) as [s'|e]; [|reflexivity].
  apply IH. intros s'' y Hy. apply Hfg. right. exact Hy.
Qed.

Lemma mapM_Ok_length {X Y} (f : X -> result Y) (xs : list X) : forall ys,
  mapM f xs = Ok ys -> length ys = length xs.
Proof.
  induction xs as [|x xs IH]; intros ys Hys.
  - injection Hys as <-. reflexivity.
  - cbn [mapM] in Hys. apply bind_Ok in Hys as (y & _ & Hys).
    apply bind_Ok in Hys as (ys' & Hys' & Hys). injection Hys as <-.
    cbn [length]. f_equal. apply IH. exact Hys'.
Qed.

(** ** The quantizer: scaling a double by a power of two *)

Section FloatFacts.

Lemma digits2_pos_log2 (p : positive) :
  Zpos (digits2_pos p) = Z.log2 (Zpos p) + 1.
Proof.
  induction p as [p IH|p IH|]; simpl; try reflexivity.
  - rewrite Pos2Z.inj_succ, IH. destruct p; simpl; lia.
  - rewrite Pos2Z.inj_succ, IH. destruct p; simpl; lia.
Qed.

Lemma Zdigits2_mul_pow2 (p : positive) (k : Z) :
  0 <= k -> Zdigits2 (Zpos p * 2 ^ k) = Zdigits2 (Zpos p) + k.
Proof.
  intros Hk.
  assert (Hpos : 0 < Zpos p * 2 ^ k) by (apply Z.mul_pos_pos; [lia | apply Z.pow_pos_nonneg; lia]).
  destruct (Zpos p * 2 ^ k) as [|q|q] eqn:E; try lia.
  simpl. rewrite !digits2_pos_log2, <- E.
  rewrite Z.log2_mul_pow2 by lia. lia.
Qed.

Lemma shr_1_double (m : Z) :
  0 <= m -> shr_1 (Build_shr_record (m * 2) false false) = Build_shr_record m false false.
Proof.
  intros Hm. rewrite Z.mul_comm. destruct m as [|p|p]; try lia; reflexivity.
Qed.

Lemma iter_shr_1_exact (n : positive) : forall m : Z,
  0 <= m ->
  SpecFloat.iter_pos shr_1 n (Build_shr_record (m * 2 ^ Zpos n) false false)
  = Build_shr_record m false false.
Proof.
  induction n as [n IH|n IH|]; intros m Hm; cbn [SpecFloat.iter_pos].
  - replace (m * 2 ^ Zpos n~1) with (((m * 2 ^ Zpos n) * 2 ^ Zpos n) * 2).
    + rewrite shr_1_double by (apply Z.mul_nonneg_nonneg; [apply Z.mul_nonneg_nonneg|]; lia).
      rewrite IH by (apply Z.mul_nonneg_nonneg; lia). apply IH, Hm.
    + replace (Zpos n~1) with (Zpos n + Zpos n + 1) by lia.
      rewrite !Z.pow_add_r, Z.pow_1_r by lia. ring.
  - replace (m * 2 ^ Zpos n~0) with ((m * 2 ^ Zpos n) * 2 ^ Zpos n).
    + rewrite IH by (apply Z.mul_nonneg_nonneg; lia). apply IH, Hm.
    + replace (Zpos n~0) with (Zpos n + Zpos n) by lia.
      rewrite !Z.pow_add_r by lia. ring.
  - rewrite Z.pow_1_r. apply shr_1_double, Hm.
Qed.


Lemma shr_exact (m : Z) (e n : Z) :
  0 <= m -> 0 <= n ->
  shr (Build_shr_record (m * 2 ^ n) false false) e n
  = (Build_shr_record m false false, e + n).
Proof.
  intros Hm Hn. destruct n as [|p|p]; try lia; simpl shr.
  - rewrite Z.mul_1_r, Z.add_0_r. reflexivity.
  - rewrite iter_shr_1_exact by assumption. reflexivity.
Qed.

Lemma shr_nonpos (mrs : shr_record) (e n : Z) : n <= 0 -> shr mrs e n = (mrs, e).
Proof. intros Hn. destruct n; try lia; reflexivity. Qed.

(** Rounding a mantissa whose low bits, down to the target exponent, are
    all zero is exact. *)
Lemma binary_round_aux_exact (s : bool) (m : positive) (e n : Z) :
  0 <= n ->
  fexp prec emax (Zdigits2 (Zpos m * 2 ^ n) + e) = e + n ->
  binary_round_aux prec emax s (Zpos m * 2 ^ n) e loc_Exact
  = if e + n <=? emax - prec then S754_finite s m (e + n) else S754_infinity s.
Proof.
  intros Hn Hf. unfold binary_round_aux, shr_fexp.
  rewrite Hf. replace (e + n - e) with n by lia.
  cbn [shr_record_of_loc]. rewrite shr_exact by lia.
  cbn [shr_m loc_of_shr_record round_nearest_even shr_record_of_loc].
  rewrite Zdigits2_mul_pow2 in Hf by assumption.
  replace (Zdigits2 (Zpos m) + (e + n)) with (Zdigits2 (Zpos m) + n + e) by lia.
  rewrite Hf, shr_nonpos by lia. reflexivity.
Qed.

Lemma of_int_pow2 (k : Z) :
  0 <= k <= 1023 ->
  of_int (2 ^ k) = Ok (S754_finite false 4503599627370496 (k - 52)).
Proof.
  intros Hk.
  assert (Hall : forallb (fun k =>
      match of_int (2 ^ k) with
      | Ok (S754_finite false m e) => (m =? 4503599627370496)%positive && (e =? k - 52)
      | _ => false
      end) (seqZ 0 1024) = true) by (vm_compute; reflexivity).
  rewrite forallb_forall in Hall.
  specialize (Hall k). 
  assert (Hin : In k (seqZ 0 1024)) by (apply list_elem_of_In, elem_of_seqZ; lia).
  apply Hall in Hin.
  destruct (of_int (2 ^ k)) as [[| | |[] m e]|]; try discriminate.
  apply andb_prop in Hin as [Hm He].
  apply Pos.eqb_eq in Hm. apply Z.eqb_eq in He. subst. reflexivity.
Qed.

Lemma canonical_shift (m : positive) (e k : Z) :
  bounded prec emax m e = true -> 0 <= k ->
  let n := fexp prec emax (Zdigits2 (Zpos m) + 52 + (k - 52 + e)) - (k - 52 + e) in
  0 <= n <= 52.
Proof.
  unfold bounded, canonical_mantissa, fexp, emin, prec, emax.
  intros Hb Hk. apply andb_prop in Hb as [Hc He].
  apply Z.eqb_eq in Hc. apply Z.leb_le in He. simpl Zdigits2.
  pose proof (Pos2Z.is_pos (digits2_pos m)). lia.
Qed.

(** Scaling a float by a power of two is exact, up to overflow. *)
Lemma mul_pow2_exact (s : bool) (m : positive) (e k : Z) :
  bounded prec emax m e = true -> 0 <= k <= 1023 ->
  exists (m' : positive) (j : Z),
    0 <= j /\ Zpos m' = Zpos m * 2 ^ j /\
    mul (S754_finite false 4503599627370496 (k - 52)) (S754_finite s m e)
    = if Z.max (Zdigits2 (Zpos m) + e + k - prec) (emin prec emax) <=? emax - prec
      then S754_finite s m' (e + k - j) else S754_infinity s.
Proof.
  intros Hb Hk.
  pose proof (canonical_shift m e k Hb ltac:(lia)) as Hn. cbv zeta in Hn.
  set (n := fexp prec emax (Zdigits2 (Zpos m) + 52 + (k - 52 + e)) - (k - 52 + e)) in *.
  assert (Hpos : 0 < Zpos m * 2 ^ (52 - n))
    by (apply Z.mul_pos_pos; [lia | apply Z.pow_pos_nonneg; lia]).
  destruct (Zpos m * 2 ^ (52 - n)) as [|m'|m'] eqn:Em'; try lia.
  exists m', (52 - n). split; [lia|]. split; [symmetry; exact Em'|].
  unfold mul, SFmul. cbn [xorb].
  assert (EM : Zpos (4503599627370496 * m) = Zpos m' * 2 ^ n).
  { rewrite <- Em', <- Z.mul_assoc, <- Z.pow_add_r by lia.
    replace (52 - n + n) with 52 by lia. rewrite Pos2Z.inj_mul. lia. }
  rewrite EM.
  assert (Hd : Zdigits2 (Zpos m' * 2 ^ n) = Zdigits2 (Zpos m) + 52).
  { rewrite <- EM, Pos2Z.inj_mul, Z.mul_comm.
    change (Zpos 4503599627370496) with (2 ^ 52).
    apply Zdigits2_mul_pow2. lia. }
  rewrite binary_round_aux_exact.
  - replace (k - 52 + e + n) with (e + k - (52 - n)) by lia.
    replace (Z.max (Zdigits2 (Zpos m) + e + k - prec) (emin prec emax))
      with (e + k - (52 - n)); [reflexivity|].
    subst n. unfold fexp. 
    replace (Zdigits2 (Zpos m) + 52 + (k - 52 + e) - prec) with (Zdigits2 (Zpos m) + e + k - prec) by lia.
    lia.
  - lia.
  - rewrite Hd. subst n. lia.
Qed.


Lemma trunc_scaled_shift (m e j : Z) :
  0 <= j -> trunc_scaled (m * 2 ^ j) (e - j) = trunc_scaled m e.
Proof.
  intros Hj. unfold trunc_scaled.
  destruct (Z.leb_spec 0 (e - j)), (Z.leb_spec 0 e); try lia.
  - rewrite <- Z.mul_assoc, <- Z.pow_add_r by lia. do 2 f_equal. lia.
  - replace (2 ^ j) with (2 ^ e * 2 ^ (- (e - j)))
      by (rewrite <- Z.pow_add_r by lia; f_equal; lia).
    rewrite Z.mul_assoc. apply Z.quot_mul.
    apply Z.pow_nonzero; lia.
  - replace (2 ^ (- (e - j))) with (2 ^ (- e) * 2 ^ j)
      by (rewrite <- Z.pow_add_r by lia; f_equal; lia).
    apply Z.quot_mul_cancel_r; apply Z.pow_nonzero; lia.
Qed.

Lemma cond_Zopp_mul (s : bool) (a b : Z) :
  cond_Zopp s (a * b) = cond_Zopp s a * b.
Proof. destruct s; simpl; lia. Qed.

(** [int(2**k * f)] for a finite, non-zero [f] in range. *)
Lemma scale_to_int (s : bool) (m : positive) (e k : Z) :
  bounded prec emax m e = true -> 0 <= k <= 1023 ->
  Zdigits2 (Zpos m) + e + k <= 1024 ->
  (n ← pow2 k; p ← num_mul_float n (S754_finite s m e); to_int p)
  = Ok (trunc_scaled (cond_Zopp s (Zpos m)) (e + k)).
Proof.
  intros Hb Hk Hd. unfold pow2.
  destruct (Z.leb_spec 0 k); [|lia]. cbn [mbind result_bind].
  unfold num_mul_float. rewrite of_int_pow2 by assumption.
  cbn [mbind result_bind].
  destruct (mul_pow2_exact s m e k Hb Hk) as (m' & j & Hj & Hm' & ->).
  replace (Z.max (Zdigits2 (Zpos m) + e + k - prec) (emin prec emax) <=? emax - prec)
    with true by (symmetry; apply Z.leb_le; unfold prec, emin, emax in *; lia).
  cbn [to_int]. rewrite Hm', cond_Zopp_mul, trunc_scaled_shift by assumption.
  reflexivity.
Qed.

Lemma scale_overflow (s : bool) (m : positive) (e k : Z) :
  bounded prec emax m e = true -> 0 <= k <= 1023 ->
  1024 < Zdigits2 (Zpos m) + e + k ->
  (n ← pow2 k; p ← num_mul_float n (S754_finite s m e); to_int p)
  = Raise OverflowError.
Proof.
  intros Hb Hk Hd. unfold pow2.
  destruct (Z.leb_spec 0 k); [|lia]. cbn [mbind result_bind].
  unfold num_mul_float. rewrite of_int_pow2 by assumption.
  cbn [mbind result_bind].
  destruct (mul_pow2_exact s m e k Hb Hk) as (m' & j & Hj & Hm' & ->).
  replace (Z.max (Zdigits2 (Zpos m) + e + k - prec) (emin prec emax) <=? emax - prec)
    with false by (symmetry; apply Z.leb_gt; unfold prec, emin, emax in *; lia).
  reflexivity.
Qed.

(** *** Rational values *)

Lemma pow2_to_pos (k : Z) : 0 <= k -> Zpos (Z.to_pos (2 ^ k)) = 2 ^ k.
Proof. intros Hk. apply Z2Pos.id, Z.pow_pos_nonneg; lia. Qed.

(** The truncation of [m * 2^e * 2^k], computed on the fraction. *)
Lemma Qtrunc_scaled (m e k : Z) :
  0 <= k ->
  Qtrunc (inject_Z m * pow2Q e * pow2Q k) = trunc_scaled m (e + k).
Proof.
  intros Hk. unfold pow2Q at 2. destruct (Z.leb_spec 0 k); [|lia].
  rewrite <- (trunc_scaled_shift m (e + k) k) by assumption.
  replace (e + k - k) with e by lia.
  unfold Qtrunc, trunc_scaled, pow2Q.
  destruct (Z.leb_spec 0 e); cbn [Qnum Qden Qmult inject_Z].
  - rewrite Z.quot_1_r. lia.
  - rewrite Pos.mul_1_l, Pos.mul_1_r, Z.mul_1_r, pow2_to_pos by lia.
    reflexivity.
Qed.

Lemma Qfloor_Qtrunc (q : Q) : 0 <= Qnum q -> Qfloor q = Qtrunc q.
Proof.
  destruct q as [n d]. unfold Qtrunc. cbn. intros Hn.
  symmetry. apply Z.quot_div_nonneg; lia.
Qed.

Lemma digits_lower_bound (m : positive) : 2 ^ (Zdigits2 (Zpos m) - 1) <= Zpos m.
Proof.
  simpl Zdigits2. rewrite digits2_pos_log2.
  replace (Z.log2 (Zpos m) + 1 - 1) with (Z.log2 (Zpos m)) by lia.
  apply Z.log2_spec. lia.
Qed.

(** A scaled value below [2^1024] has a product that fits a double. *)
Lemma no_overflow_exponent (m : positive) (e k : Z) :
  0 <= k ->
  (inject_Z (Zpos m) * pow2Q e * pow2Q k < pow2Q 1024)%Q ->
  Zdigits2 (Zpos m) + e + k <= 1024.
Proof.
  intros Hk. unfold pow2Q at 2. destruct (Z.leb_spec 0 k); [|lia].
  change (pow2Q 1024) with (inject_Z (2 ^ 1024)).
  pose proof (digits_lower_bound m) as Hlow.
  set (d := Zdigits2 (Zpos m)) in *.
  assert (Hd : 1 <= d) by (subst d; simpl; lia).
  unfold pow2Q, Qlt. destruct (Z.leb_spec 0 e); cbn [Qnum Qden Qmult inject_Z].
  - rewrite !Z.mul_1_r. intros Hlt.
    destruct (Z.le_gt_cases (d + e + k) 1024) as [|Hgt]; [assumption|exfalso].
    assert (2 ^ 1024 <= 2 ^ (d - 1) * 2 ^ e * 2 ^ k).
    { rewrite <- !Z.pow_add_r by lia. apply Z.pow_le_mono_r; lia. }
    assert (2 ^ (d - 1) * 2 ^ e * 2 ^ k <= Zpos m * 2 ^ e * 2 ^ k).
    { apply Z.mul_le_mono_nonneg_r; [apply Z.pow_nonneg; lia|].
      apply Z.mul_le_mono_nonneg_r; [apply Z.pow_nonneg; lia|]. assumption. }
    lia.
  - rewrite !Z.mul_1_r, !Pos.mul_1_l, !Pos.mul_1_r, pow2_to_pos by lia. intros Hlt.
    destruct (Z.le_gt_cases (d + e + k) 1024) as [|Hgt]; [assumption|exfalso].
    assert (2 ^ 1024 * 2 ^ (- e) <= 2 ^ (d - 1) * 2 ^ k).
    { rewrite <- !Z.pow_add_r by lia. apply Z.pow_le_mono_r; lia. }
    assert (2 ^ (d - 1) * 2 ^ k <= Zpos m * 2 ^ k).
    { apply Z.mul_le_mono_nonneg_r; [apply Z.pow_nonneg; lia|]. assumption. }
    lia.
Qed.


Lemma pow2Q_num_pos (e : Z) : 0 < Qnum (pow2Q e).
Proof.
  unfold pow2Q. destruct (Z.leb_spec 0 e); cbn; [|lia].
  apply Z.pow_pos_nonneg; lia.
Qed.

Lemma Qmax_0_pos (q : Q) : 0 < Qnum q -> Qmax q 0 = q.
Proof.
  intros Hq. unfold Qmax, GenericMinMax.gmax, Qcompare. cbn [Qnum Qden].
  rewrite Z.mul_1_r, Z.mul_0_l. destruct (Z.compare_spec (Qnum q) 0); try lia; reflexivity.
Qed.

Lemma Qmax_0_neg (q : Q) : Qnum q < 0 -> Qmax q 0 = 0%Q.
Proof.
  intros Hq. unfold Qmax, GenericMinMax.gmax, Qcompare. cbn [Qnum Qden].
  rewrite Z.mul_1_r, Z.mul_0_l. destruct (Z.compare_spec (Qnum q) 0); try lia; reflexivity.
Qed.

Lemma Qabs_to_Q (s : bool) (m : positive) (e : Z) :
  Qabs (to_Q (S754_finite s m e)) = (inject_Z (Zpos m) * pow2Q e)%Q.
Proof.
  pose proof (pow2Q_num_pos e) as Hp.
  unfold to_Q, Qabs, Qmult. cbn [Qnum Qden inject_Z]. f_equal.
  destruct s; cbn [cond_Zopp]; nia.
Qed.

(** Scaling zero: [int(2**k * 0.0)]. *)
Lemma scale_zero_to_int (s : bool) (k : Z) :
  0 <= k <= 1023 ->
  (n ← pow2 k; p ← num_mul_float n (S754_zero s); to_int p) = Ok 0.
Proof.
  intros Hk. unfold pow2. destruct (Z.leb_spec 0 k); [|lia].
  cbn [mbind result_bind].
  unfold num_mul_float. rewrite of_int_pow2 by assumption. reflexivity.
Qed.

(** C1 (corrected). For a bit width [1 <= b <= 1023] and a finite double
    [v] with [max(v, 0) * 2^b < 2^1024], the quantizer without negatives
    returns [floor(max(v, 0) * 2^b)]: a negative input is clamped to zero,
    all [b] bits scale the value, and the product, which is exact, is
    truncated. *)
Theorem quantize_unsigned_in_range (b : Z) (v : float) :
  1 <= b <= 1023 ->
  valid v = true ->
  is_finite v = true ->
  (Qmax (to_Q v) 0 * pow2Q b < pow2Q 1024)%Q ->
  snn2mcu_value_cuantization b v false
  = Ok (Qfloor (Qmax (to_Q v) 0 * pow2Q b)).
Proof.
  intros Hb Hv Hfin Hrange. unfold snn2mcu_value_cuantization. cbn [negb].
  destruct v as [s| | |[] m e]; try discriminate Hfin.
  - change (ltb (S754_zero s) zero) with false. cbv iota.
    rewrite scale_zero_to_int by lia. reflexivity.
  - change (ltb (S754_finite true m e) zero) with true. cbv iota.
    unfold zero. rewrite scale_zero_to_int by lia.
    rewrite Qmax_0_neg; [reflexivity|].
    pose proof (pow2Q_num_pos e). cbn [to_Q Qnum Qmult inject_Z cond_Zopp Z.opp]. nia.
  - change (ltb (S754_finite false m e) zero) with false. cbv iota.
    assert (Hmax : Qmax (to_Q (S754_finite false m e)) 0 = to_Q (S754_finite false m e)).
    { apply Qmax_0_pos. pose proof (pow2Q_num_pos e).
      cbn [to_Q Qnum Qmult inject_Z cond_Zopp]. nia. }
    rewrite Hmax in *. cbn [to_Q cond_Zopp] in *.
    rewrite scale_to_int; [| exact Hv | lia | apply no_overflow_exponent; [lia | exact Hrange]].
    rewrite Qfloor_Qtrunc.
    + rewrite Qtrunc_scaled by lia. reflexivity.
    + pose proof (pow2Q_num_pos e). pose proof (pow2Q_num_pos b).
      cbn [Qnum Qmult inject_Z]. nia.
Qed.

(** C2 (corrected). For a bit width [2 <= b <= 1024] and a finite double
    [v] with [|v| * 2^(b-1) < 2^1024], the quantizer with negatives returns
    [v * 2^(b-1)] truncated toward zero, with the sign of [v] and without
    clamping, wraparound or saturation. *)
Theorem quantize_signed_truncates (b : Z) (v : float) :
  2 <= b <= 1024 ->
  valid v = true ->
  is_finite v = true ->
  (Qabs (to_Q v) * pow2Q (b - 1) < pow2Q 1024)%Q ->
  snn2mcu_value_cuantization b v true = Ok (Qtrunc (to_Q v * pow2Q (b - 1))).
Proof.
  intros Hb Hv Hfin Hrange. unfold snn2mcu_value_cuantization. cbn [negb].
  destruct v as [s| | |s m e]; try discriminate Hfin.
  - rewrite scale_zero_to_int by lia. reflexivity.
  - rewrite Qabs_to_Q in Hrange.
    rewrite scale_to_int; [| exact Hv | lia | apply no_overflow_exponent; [lia | exact Hrange]].
    cbn [to_Q]. rewrite Qtrunc_scaled by lia. reflexivity.
Qed.

End FloatFacts.

(** ** Rounding: what a rounded double can be *)

Section Rounding.

(** *** Rounding past the largest double *)

Lemma shr_1_m (mrs : shr_record) :
  0 <= shr_m mrs -> shr_m (shr_1 mrs) = shr_m mrs / 2.
Proof.
  destruct mrs as [m r s]. cbn [shr_m]. intros Hm.
  destruct m as [|[p|p|]|p]; cbn [shr_1 shr_m]; try reflexivity; try lia.
  - rewrite Pos2Z.inj_xI. apply (Z.div_unique _ 2 _ 1); lia.
  - rewrite Pos2Z.inj_xO. apply (Z.div_unique _ 2 _ 0); lia.
Qed.

Lemma iter_shr_1_m (p : positive) : forall mrs,
  0 <= shr_m mrs ->
  shr_m (SpecFloat.iter_pos shr_1 p mrs) = shr_m mrs / 2 ^ Zpos p.
Proof.
  assert (Hdiv : forall a b, 0 <= a -> 0 < b -> 0 <= a / b)
    by (intros; apply Z.div_pos; lia).
  induction p as [p IH|p IH|]; intros mrs Hm; cbn [SpecFloat.iter_pos].
  - assert (H1 : 0 <= shr_m (shr_1 mrs)) by (rewrite shr_1_m by lia; apply Hdiv; lia).
    assert (H2 : 0 <= shr_m (SpecFloat.iter_pos shr_1 p (shr_1 mrs)))
      by (rewrite IH by lia; apply Hdiv; [lia|apply Z.pow_pos_nonneg; lia]).
    rewrite IH, IH, shr_1_m by lia.
    rewrite !Z.div_div by (try apply Z.pow_pos_nonneg; lia).
    f_equal. replace (Zpos p~1) with (1 + Zpos p + Zpos p) by lia.
    rewrite !Z.pow_add_r by lia. change (2 ^ 1) with 2. lia.
  - assert (H2 : 0 <= shr_m (SpecFloat.iter_pos shr_1 p mrs))
      by (rewrite IH by lia; apply Hdiv; [lia|apply Z.pow_pos_nonneg; lia]).
    rewrite IH, IH by lia.
    rewrite !Z.div_div by (try apply Z.pow_pos_nonneg; lia).
    f_equal. replace (Zpos p~0) with (Zpos p + Zpos p) by lia.
    rewrite Z.pow_add_r by lia. reflexivity.
  - rewrite shr_1_m by lia. reflexivity.
Qed.

Lemma shr_m_of_loc (m : Z) (l : location) : shr_m (shr_record_of_loc m l) = m.
Proof. destruct l as [|[]]; reflexivity. Qed.

Lemma Zdigits2_log2 (m : Z) : 0 < m -> Zdigits2 m = Z.log2 m + 1.
Proof. destruct m; try lia. intros _. apply digits2_pos_log2. Qed.

(** The first step of rounding, on a number of at least [2^1024]: the
    mantissa stays positive, the number keeps its order of magnitude, and
    the exponent is past those of the doubles. *)
Lemma shr_fexp_high (m e : Z) (l : location) :
  0 < m -> 1024 < Zdigits2 m + e ->
  0 < shr_m (shr_fexp prec emax m e l).1 /\
  1024 < Zdigits2 (shr_m (shr_fexp prec emax m e l).1) + (shr_fexp prec emax m e l).2 /\
  971 < (shr_fexp prec emax m e l).2.
Proof.
  intros Hm Hd. unfold shr_fexp.
  assert (Hf : fexp prec emax (Zdigits2 m + e) = Zdigits2 m + e - 53)
    by (unfold fexp, emin, prec, emax; lia).
  rewrite Hf. replace (Zdigits2 m + e - 53 - e) with (Zdigits2 m - 53) by lia.
  pose proof (Zdigits2_log2 m Hm) as Hn.
  pose proof (Z.log2_spec m Hm) as [Hlo Hhi].
  pose proof (Z.log2_nonneg m) as Hl0.
  destruct (Zdigits2 m - 53) as [|k|k] eqn:Ek; cbn [shr fst snd].
  - rewrite shr_m_of_loc. lia.
  - rewrite iter_shr_1_m, shr_m_of_loc by (rewrite shr_m_of_loc; lia).
    assert (Hk : Zpos k = Z.log2 m - 52) by lia.
    assert (Hp : 0 < 2 ^ Zpos k) by (apply Z.pow_pos_nonneg; lia).
    assert (Hq1 : 2 ^ 52 <= m / 2 ^ Zpos k).
    { apply Z.div_le_lower_bound; [assumption|].
      rewrite <- Z.pow_add_r by lia. replace (Zpos k + 52) with (Z.log2 m) by lia.
      assumption. }
    assert (Hq2 : m / 2 ^ Zpos k < 2 ^ 53).
    { apply Z.div_lt_upper_bound; [assumption|].
      rewrite <- Z.pow_add_r by lia.
      replace (Zpos k + 53) with (Z.succ (Z.log2 m)) by lia. assumption. }
    assert (Hq0 : 0 < m / 2 ^ Zpos k) by lia.
    rewrite (Zdigits2_log2 _ Hq0).
    rewrite (Z.log2_unique (m / 2 ^ Zpos k) 52) by (change (Z.succ 52) with 53; lia).
    lia.
  - rewrite shr_m_of_loc. lia.
Qed.

Lemma round_nearest_even_bounds (m : Z) (l : location) :
  m <= round_nearest_even m l <= m + 1.
Proof. destruct l as [|[]]; cbn [round_nearest_even]; try destruct (Z.even m); lia. Qed.

(** A number of at least [2^1024] rounds to infinity. *)
Lemma binary_round_aux_overflow (s : bool) (m e : Z) (l : location) :
  0 < m -> 1024 < Zdigits2 m + e ->
  binary_round_aux prec emax s m e l = S754_infinity s.
Proof.
  intros Hm Hd. unfold binary_round_aux.
  destruct (shr_fexp_high m e l Hm Hd) as (H1 & H2 & H3).
  destruct (shr_fexp prec emax m e l) as [mrs' e']. cbn [fst snd] in *.
  pose proof (round_nearest_even_bounds (shr_m mrs') (loc_of_shr_record mrs')) as Hr.
  set (m2 := round_nearest_even (shr_m mrs') (loc_of_shr_record mrs')) in *.
  assert (Hm2 : 0 < m2) by lia.
  assert (Hd2 : 1024 < Zdigits2 m2 + e').
  { rewrite (Zdigits2_log2 _ Hm2). rewrite (Zdigits2_log2 _ H1) in H2.
    pose proof (Z.log2_le_mono (shr_m mrs') m2). lia. }
  destruct (shr_fexp_high m2 e' loc_Exact Hm2 Hd2) as (H4 & _ & H6).
  destruct (shr_fexp prec emax m2 e' loc_Exact) as [mrs'' e'']. cbn [fst snd] in *.
  destruct (shr_m mrs'') as [|p|p]; try lia.
  destruct (Z.leb_spec e'' (emax - prec)) as [Hle|]; [|reflexivity].
  unfold emax, prec in Hle. lia.
Qed.

(** *** What rounding returns *)

Lemma Zdigits2_upper (m : Z) : 0 <= m -> m < 2 ^ Zdigits2 m.
Proof.
  intros Hm. destruct m as [|p|p]; [reflexivity| |lia].
  rewrite Zdigits2_log2 by lia. apply Z.log2_spec. lia.
Qed.

Lemma Zdigits2_nonneg (m : Z) : 0 <= Zdigits2 m.
Proof. destruct m; simpl; lia. Qed.

Lemma shr_fexp_nonneg (m e : Z) (l : location) :
  0 <= m -> 0 <= shr_m (shr_fexp prec emax m e l).1.
Proof.
  intros Hm. unfold shr_fexp.
  destruct (fexp prec emax (Zdigits2 m + e) - e) as [|k|k]; cbn [shr fst];
    rewrite ?iter_shr_1_m, ?shr_m_of_loc by (rewrite shr_m_of_loc; lia);
    try lia.
  apply Z.div_pos; [lia|]. apply Z.pow_pos_nonneg; lia.
Qed.

(** After the alignment the mantissa has at most 53 bits. *)
Lemma shr_fexp_canonical (m e : Z) (l : location) :
  0 <= m -> shr_m (shr_fexp prec emax m e l).1 < 2 ^ 53.
Proof.
  intros Hm. unfold shr_fexp.
  pose proof (Zdigits2_upper m Hm) as Hup.
  pose proof (Zdigits2_nonneg m) as Hd.
  assert (Hf : Zdigits2 m - 53 <= fexp prec emax (Zdigits2 m + e) - e)
    by (unfold fexp, emin, prec, emax; lia).
  destruct (fexp prec emax (Zdigits2 m + e) - e) as [|k|k] eqn:Ek; cbn [shr fst].
  - rewrite shr_m_of_loc.
    assert (2 ^ Zdigits2 m <= 2 ^ 53) by (apply Z.pow_le_mono_r; lia). lia.
  - rewrite iter_shr_1_m, shr_m_of_loc by (rewrite shr_m_of_loc; lia).
    apply Z.div_lt_upper_bound; [apply Z.pow_pos_nonneg; lia|].
    rewrite <- Z.pow_add_r by lia.
    assert (2 ^ Zdigits2 m <= 2 ^ (Zpos k + 53)) by (apply Z.pow_le_mono_r; lia).
    lia.
  - rewrite shr_m_of_loc.
    assert (2 ^ Zdigits2 m <= 2 ^ 53) by (apply Z.pow_le_mono_r; lia). lia.
Qed.

(** A double that rounding returns has a mantissa below [2^53] and an
    exponent of 971 at most. *)
Lemma binary_round_aux_bounded (s : bool) (m e : Z) (l : location) s' m' e' :
  0 <= m ->
  binary_round_aux prec emax s m e l = S754_finite s' m' e' ->
  Zpos m' < 2 ^ 53 /\ e' <= 971.
Proof.
  intros Hm. unfold binary_round_aux.
  pose proof (shr_fexp_nonneg m e l Hm) as H1.
  destruct (shr_fexp prec emax m e l) as [mrs1 e1]. cbn [fst] in H1.
  pose proof (round_nearest_even_bounds (shr_m mrs1) (loc_of_shr_record mrs1)) as Hr.
  set (m2 := round_nearest_even (shr_m mrs1) (loc_of_shr_record mrs1)) in *.
  assert (Hm2 : 0 <= m2) by lia.
  pose proof (shr_fexp_canonical m2 e1 loc_Exact Hm2) as H2.
  destruct (shr_fexp prec emax m2 e1 loc_Exact) as [mrs2 e2]. cbn [fst] in H2.
  destruct (shr_m mrs2) as [|p|p]; try discriminate.
  destruct (Z.leb_spec e2 (emax - prec)) as [He|He]; [|discriminate].
  intros [= <- <- <-]. unfold emax, prec in He. split; [exact H2|lia].
Qed.

Lemma mul_bounded (x y : float) s m e :
  mul x y = S754_finite s m e -> Zpos m < 2 ^ 53 /\ e <= 971.
Proof.
  unfold mul, SFmul. destruct x as [| | |sx mx ex], y as [| | |sy my ey];
    try discriminate.
  apply binary_round_aux_bounded. lia.
Qed.

Lemma trunc_scaled_small (m : positive) (e : Z) (s : bool) :
  Zpos m < 2 ^ 53 -> e <= 971 ->
  Z.abs (trunc_scaled (cond_Zopp s (Zpos m)) e) < 2 ^ 1024.
Proof.
  intros Hm He. unfold trunc_scaled.
  assert (Habs : Z.abs (cond_Zopp s (Zpos m)) = Zpos m) by (destruct s; reflexivity).
  destruct (Z.leb_spec 0 e).
  - rewrite Z.abs_mul, Habs, (Z.abs_eq (2 ^ e)) by (apply Z.pow_nonneg; lia).
    assert (2 ^ e <= 2 ^ 971) by (apply Z.pow_le_mono_r; lia).
    change (2 ^ 1024) with (2 ^ 53 * 2 ^ 971).
    assert (0 < 2 ^ e) by (apply Z.pow_pos_nonneg; lia). nia.
  - assert (Hp : 0 < 2 ^ (- e)) by (apply Z.pow_pos_nonneg; lia).
    rewrite <- Z.quot_abs by lia. rewrite Habs, (Z.abs_eq (2 ^ (- e))) by lia.
    assert (Zpos m ÷ 2 ^ (- e) <= Zpos m) by (apply Z.quot_le_upper_bound; nia).
    assert (0 <= Zpos m ÷ 2 ^ (- e)) by (apply Z.quot_pos; lia).
    assert (2 ^ 53 < 2 ^ 1024) by (apply Z.pow_lt_mono_r; lia). lia.
Qed.

(** The integer of a product of doubles is below [2^1024] in magnitude. *)
Lemma to_int_mul_small (x y : float) (z : Z) :
  to_int (mul x y) = Ok z -> Z.abs z < 2 ^ 1024.
Proof.
  destruct (mul x y) as [s| | |s m e] eqn:Hmul; cbn [to_int]; try discriminate.
  - intros [= <-]. apply Z.pow_pos_nonneg; lia.
  - intros [= <-]. destruct (mul_bounded _ _ _ _ _ Hmul).
    apply trunc_scaled_small; assumption.
Qed.

(** Whatever the quantizer returns is below [2^1024] in magnitude. *)
Lemma quantizer_result_small (b : Z) (v : float) (negatives_allowed : bool) z :
  snn2mcu_value_cuantization b v negatives_allowed = Ok z -> Z.abs z < 2 ^ 1024.
Proof.
  unfold snn2mcu_value_cuantization.
  destruct (if negb negatives_allowed
            then (b, if ltb v zero then zero else v) else (b - 1, v)) as [bits x].
  intros Hq. apply bind_Ok in Hq as (n & _ & Hq).
  apply bind_Ok in Hq as (p & Hp & Hz).
  destruct n as [k|y]; cbn [num_mul_float] in Hp.
  - apply bind_Ok in Hp as (y & _ & [= <-]). exact (to_int_mul_small _ _ _ Hz).
  - injection Hp as <-. exact (to_int_mul_small _ _ _ Hz).
Qed.

(** *** Integers that have a double *)

Lemma shr_fexp_exponent (m e : Z) (l : location) :
  (shr_fexp prec emax m e l).2 = Z.max e (fexp prec emax (Zdigits2 m + e)).
Proof.
  unfold shr_fexp.
  destruct (fexp prec emax (Zdigits2 m + e) - e) as [|k|k] eqn:Ek;
    cbn [shr snd]; lia.
Qed.

Lemma Zdigits2_le (m : Z) (k : Z) : 0 <= k -> 0 <= m < 2 ^ k -> Zdigits2 m <= k.
Proof.
  intros Hk [Hm Hlt]. destruct m as [|p|p]; [simpl; lia| |lia].
  rewrite Zdigits2_log2 by lia.
  assert (Z.log2 (Zpos p) < k) by (apply Z.log2_lt_pow2; lia). lia.
Qed.

(** An aligned number below [2^1023] does not round to infinity. *)
Lemma binary_round_aux_finite (s : bool) (m e : Z) (l : location) :
  0 <= m ->
  e <= fexp prec emax (Zdigits2 m + e) ->
  Zdigits2 m + e <= 1023 ->
  forall s', binary_round_aux prec emax s m e l <> S754_infinity s'.
Proof.
  intros Hm Halign Hsmall s'. unfold binary_round_aux.
  pose proof (shr_fexp_nonneg m e l Hm) as H1.
  pose proof (shr_fexp_canonical m e l Hm) as H1'.
  pose proof (shr_fexp_exponent m e l) as He1.
  destruct (shr_fexp prec emax m e l) as [mrs1 e1]. cbn [fst snd] in *.
  pose proof (round_nearest_even_bounds (shr_m mrs1) (loc_of_shr_record mrs1)) as Hr.
  set (m2 := round_nearest_even (shr_m mrs1) (loc_of_shr_record mrs1)) in *.
  assert (Hm2 : 0 <= m2) by lia.
  assert (Hd2 : Zdigits2 m2 <= 54).
  { apply Zdigits2_le; [lia|]. change (2 ^ 54) with (2 * 2 ^ 53). lia. }
  pose proof (shr_fexp_exponent m2 e1 loc_Exact) as He2.
  destruct (shr_fexp prec emax m2 e1 loc_Exact) as [mrs2 e2]. cbn [snd] in He2.
  destruct (shr_m mrs2) as [|p|p]; try discriminate.
  destruct (Z.leb_spec e2 (emax - prec)) as [|Hbig]; [discriminate|].
  exfalso. unfold fexp, emin, emax, prec in *. lia.
Qed.

Lemma iter_xO (m d : positive) : Zpos (Pos.iter xO m d) = Zpos m * 2 ^ Zpos d.
Proof.
  change (Pos.iter xO m d) with (shift_pos d m).
  rewrite shift_pos_correct, Zpower_pos_nat, Zpower_nat_Z, positive_nat_Z. lia.
Qed.

Lemma binary_round_finite (s : bool) (m : positive) :
  Zdigits2 (Zpos m) <= 1023 ->
  forall s', binary_round prec emax s m 0 <> S754_infinity s'.
Proof.
  intros Hsmall s'. unfold binary_round, shl_align.
  change (Zpos (digits2_pos m)) with (Zdigits2 (Zpos m)).
  pose proof (Zdigits2_nonneg (Zpos m)) as Hd.
  destruct (fexp prec emax (Zdigits2 (Zpos m) + 0) - 0) as [|k|k] eqn:Ek.
  - apply binary_round_aux_finite; lia.
  - apply binary_round_aux_finite; lia.
  - rewrite iter_xO.
    assert (Hdig : Zdigits2 (Zpos m * 2 ^ Zpos k) = Zdigits2 (Zpos m) + Zpos k)
      by (apply Zdigits2_mul_pow2; lia).
    apply binary_round_aux_finite.
    + apply Z.mul_nonneg_nonneg; [lia|apply Z.pow_nonneg; lia].
    + rewrite Hdig.
      replace (Zdigits2 (Zpos m) + Zpos k + fexp prec emax (Zdigits2 (Zpos m) + 0))
        with (Zdigits2 (Zpos m) + 0) by lia. lia.
    + rewrite Hdig. unfold fexp, emin, emax, prec in *. lia.
Qed.

(** [float(z)] exists for an integer below [2^1023] in magnitude. *)
Lemma of_int_finite (z : Z) : Z.abs z < 2 ^ 1023 -> exists f, of_int z = Ok f.
Proof.
  intros Hz. unfold of_int, binary_normalize.
  destruct z as [|m|m]; [eauto| |].
  - pose proof (binary_round_finite false m) as H.
    destruct (binary_round prec emax false m 0) eqn:E; eauto.
    exfalso. eapply H; [|reflexivity]. apply Zdigits2_le; lia.
  - pose proof (binary_round_finite true m) as H.
    destruct (binary_round prec emax true m 0) eqn:E; eauto.
    exfalso. eapply H; [|reflexivity]. apply Zdigits2_le; lia.
Qed.

(** [float(z)] raises for an integer of at least [2^1024] in magnitude. *)
Lemma of_int_overflow (z : Z) : 2 ^ 1024 <= Z.abs z -> of_int z = Raise OverflowError.
Proof.
  intros Hz. unfold of_int, binary_normalize.
  assert (Hp : 0 < 2 ^ 1024) by (apply Z.pow_pos_nonneg; lia).
  assert (Hbig : forall s (m : positive), 2 ^ 1024 <= Zpos m ->
            binary_round prec emax s m 0 = S754_infinity s).
  { intros s m Hm. unfold binary_round, shl_align.
    change (Zpos (digits2_pos m)) with (Zdigits2 (Zpos m)).
    assert (Hd : 1024 < Zdigits2 (Zpos m)).
    { rewrite Zdigits2_log2 by lia.
      pose proof (Z.log2_le_mono _ _ Hm) as Hl.
      rewrite Z.log2_pow2 in Hl by lia. lia. }
    destruct (fexp prec emax (Zdigits2 (Zpos m) + 0) - 0) as [|k|k] eqn:Ek;
      try (apply binary_round_aux_overflow; lia).
    exfalso. unfold fexp, emin, emax, prec in Ek. lia. }
  destruct z as [|m|m]; [cbn in Hz; lia| |]; rewrite Hbig by (cbn in Hz; lia);
    reflexivity.
Qed.

(** *** Numbers that [str] prints *)

Lemma str_small (z : Z) : Z.abs z < str_limit -> str z = Ok (pretty z).
Proof.
  intros Hz. unfold str.
  destruct (Z.leb_spec (str_limit) (Z.abs z)); [lia|reflexivity].
Qed.

Lemma str_limit_spec : str_limit = 10 ^ max_str_digits.
Proof. vm_compute. reflexivity. Qed.

Lemma doubles_have_few_digits : 2 ^ 1024 < str_limit.
Proof. vm_compute. reflexivity. Qed.

(** A quantized weight is always printed. *)
Lemma quantize_then_str (b : Z) (v : float) (negatives_allowed : bool) :
  (q ← snn2mcu_value_cuantization b v negatives_allowed; str q)
  = (q ← snn2mcu_value_cuantization b v negatives_allowed; Ok (pretty q)).
Proof.
  destruct (snn2mcu_value_cuantization b v negatives_allowed) as [q|e] eqn:Hq;
    [|reflexivity].
  cbn [mbind result_bind]. apply str_small.
  pose proof (quantizer_result_small _ _ _ _ Hq).
  pose proof doubles_have_few_digits. lia.
Qed.

(** The quantized value of the specification is what the quantizer
    returns in the range of the doubles. *)
Lemma quantize_value (bits : Z) (v : float) (negatives_allowed : bool) :
  in_double_range bits negatives_allowed v ->
  snn2mcu_value_cuantization bits v negatives_allowed
  = Ok (quantize bits v negatives_allowed).
Proof.
  intros (Hv & Hfin & Hrange). unfold quantize, snn2mcu_value_cuantization.
  destruct negatives_allowed; cbn [negb]; destruct Hrange as [Hb Hrange].
  - destruct v as [s| | |s m e]; try discriminate Hfin.
    + rewrite scale_zero_to_int by lia. reflexivity.
    + rewrite Qabs_to_Q in Hrange.
      rewrite scale_to_int;
        [| exact Hv | lia | apply no_overflow_exponent; [lia | exact Hrange]].
      cbn [to_Q]. rewrite Qtrunc_scaled by lia. reflexivity.
  - destruct v as [s| | |[] m e]; try discriminate Hfin.
    + change (ltb (S754_zero s) zero) with false. cbv iota.
      rewrite scale_zero_to_int by lia. reflexivity.
    + change (ltb (S754_finite true m e) zero) with true. cbv iota.
      unfold zero. rewrite scale_zero_to_int by lia.
      rewrite Qmax_0_neg; [reflexivity|].
      pose proof (pow2Q_num_pos e).
      cbn [to_Q Qnum Qmult inject_Z cond_Zopp Z.opp]. nia.
    + change (ltb (S754_finite false m e) zero) with false. cbv iota.
      assert (Hmax : Qmax (to_Q (S754_finite false m e)) 0
                     = to_Q (S754_finite false m e)).
      { apply Qmax_0_pos. pose proof (pow2Q_num_pos e).
        cbn [to_Q Qnum Qmult inject_Z cond_Zopp]. nia. }
      rewrite Hmax in *. cbn [to_Q cond_Zopp] in *.
      rewrite scale_to_int;
        [| exact Hv | lia | apply no_overflow_exponent; [lia | exact Hrange]].
      rewrite Qfloor_Qtrunc.
      * rewrite Qtrunc_scaled by lia. reflexivity.
      * pose proof (pow2Q_num_pos e). pose proof (pow2Q_num_pos bits).
        cbn [Qnum Qmult inject_Z]. nia.
Qed.

End Rounding.

(** ** Weight keys are injective *)

Section Keys.

Lemma pretty_N_char_not_underscore (x : N) : not_underscore (pretty_N_char x) = true.
Proof. unfold pretty_N_char. repeat case_match; reflexivity. Qed.

Lemma pretty_N_go_not_underscore (x : N) : forall s,
  all_chars not_underscore s = true ->
  all_chars not_underscore (pretty_N_go x s) = true.
Proof.
  induction (N.lt_wf_0 x) as [x _ IH]. intros s Hs.
  destruct (decide (0 < x)%N) as [Hx|Hx].
  - rewrite pretty_N_go_step by assumption. apply IH.
    + apply N.div_lt; [assumption | reflexivity].
    + cbn [all_chars]. rewrite pretty_N_char_not_underscore. exact Hs.
  - replace x with 0%N by lia. exact Hs.
Qed.

Lemma pretty_N_not_underscore (x : N) : all_chars not_underscore (pretty x) = true.
Proof.
  unfold pretty, pretty_N. case_decide; [reflexivity|].
  apply pretty_N_go_not_underscore. reflexivity.
Qed.

Lemma pretty_Z_not_underscore (x : Z) : all_chars not_underscore (pretty x) = true.
Proof.
  destruct x as [|p|p]; unfold pretty, pretty_Z, pretty_positive.
  - reflexivity.
  - apply pretty_N_not_underscore.
  - change (all_chars not_underscore (String "-" (pretty (N.pos p))) = true).
    cbn [all_chars]. rewrite pretty_N_not_underscore. reflexivity.
Qed.

(** Two strings without underscore, each followed by an underscore and a
    rest, are equal when the wholes are. *)
Lemma split_at_underscore (s1 s2 t1 t2 : string) :
  all_chars not_underscore s1 = true ->
  all_chars not_underscore s2 = true ->
  s1 +:+ String "_" t1 = s2 +:+ String "_" t2 ->
  s1 = s2 /\ t1 = t2.
Proof.
  revert s2. induction s1 as [|c s1 IH]; intros [|c' s2] H1 H2 Heq;
    cbn [all_chars] in *.
  - inversion Heq. auto.
  - inversion Heq; subst. 
    apply andb_prop in H2 as [H2 _]. discriminate H2.
  - inversion Heq; subst.
    apply andb_prop in H1 as [H1 _]. discriminate H1.
  - apply andb_prop in H1 as [_ H1]. apply andb_prop in H2 as [_ H2].
    inversion Heq; subst.
    destruct (IH s2 H1 H2) as [-> ->]; auto.
Qed.

Lemma weight_key_unfold (l n : Z) :
  weight_key l n = String "l" (pretty l +:+ String "_" (String "n" (pretty n +:+ String "_" "w"))).
Proof. reflexivity. Qed.

Lemma weight_key_inj (l n l' n' : Z) :
  weight_key l n = weight_key l' n' -> l = l' /\ n = n'.
Proof.
  rewrite !weight_key_unfold. intros Heq. inversion Heq as [Heq'].
  apply split_at_underscore in Heq' as [Hl Hrest];
    try apply pretty_Z_not_underscore.
  inversion Hrest as [Hn].
  apply split_at_underscore in Hn as [Hn _];
    try apply pretty_Z_not_underscore.
  split; eapply (inj pretty); eassumption.
Qed.

End Keys.

(** ** The extractor reads, then stores *)

Section Reading.

Implicit Types (d : param_dict) (row : list float) (rows : tensor).

Lemma weight_loop_reads key (ws : list torch_tensor) : forall d,
  for_each (weight_step key) ws d
  = xs ← mapM item ws; Ok (foldl (append_or_init key) d xs).
Proof.
  induction ws as [|w ws IH]; intros d; [reflexivity|].
  rewrite for_each_cons.
  change (weight_step key d w) with (x ← item w; Ok (append_or_init key d x)).
  cbn [mapM].
  destruct (item w) as [x|e]; cbn [mbind result_bind]; [|reflexivity].
  rewrite IH. destruct (mapM item ws); reflexivity.
Qed.

(** A turn of the loop over the neurons reads the weights of the neuron
    and stores them; the first read that fails gives the exception. *)
Lemma neuron_step_reads layer d i (neuron : torch_tensor) :
  neuron_step layer (d, i) neuron
  = row ← floats_of neuron; Ok (pure_neuron_step layer (d, i) row).
Proof.
  unfold neuron_step, floats_of, pure_neuron_step.
  destruct neuron as [x|ws]; cbn [unbind mbind result_bind].
  - destruct ((1 =? layer) && (0 =? i)); reflexivity.
  - destruct ((1 =? layer) && (0 =? i)); cbn [mbind result_bind];
      rewrite weight_loop_reads;
      destruct (mapM item ws) as [row|e] eqn:Hrow; cbn [mbind result_bind];
      try reflexivity.
    apply mapM_Ok_length in Hrow. unfold len. rewrite Hrow. reflexivity.
Qed.

Lemma neuron_loop_reads layer (neurons : list torch_tensor) : forall d i,
  for_each (neuron_step layer) neurons (d, i)
  = rows ← mapM floats_of neurons; Ok (pure_neuron_loop layer d i rows).
Proof.
  induction neurons as [|neuron neurons IH]; intros d i; [reflexivity|].
  rewrite for_each_cons, neuron_step_reads. cbn [mapM].
  destruct (floats_of neuron) as [row|e]; cbn [mbind result_bind]; [|reflexivity].
  change (pure_neuron_step layer (d, i) row)
    with (fst (pure_neuron_step layer (d, i) row), i + 1).
  rewrite IH. destruct (mapM floats_of neurons); reflexivity.
Qed.

(** On a parameter that can be read, a turn of the walk is the turn on
    its rows. *)
Lemma param_step_reads d name (param : torch_tensor) rows :
  rows_of param = Ok rows ->
  param_step d (name, param) = pure_param_step d (name, rows).
Proof.
  intros Hrows. unfold param_step, pure_param_step.
  destruct (layer_of_name name) as [layer|]; [|reflexivity].
  cbn [mbind result_bind]. destruct (contains "weight" name); [|reflexivity].
  unfold rows_of in Hrows. destruct param as [x|neurons]; [discriminate|].
  cbn [unbind mbind result_bind] in *. rewrite neuron_loop_reads, Hrows.
  cbn [mbind result_bind fst]. apply mapM_Ok_length in Hrows.
  unfold len. rewrite Hrows. reflexivity.
Qed.

(** A parameter that is no weight is not read. *)
Lemma param_step_skips d name (param : torch_tensor) rows :
  contains "weight" name = false ->
  param_step d (name, param) = pure_param_step d (name, rows).
Proof. unfold param_step, pure_param_step. intros ->. reflexivity. Qed.

(** A weight parameter that cannot be read ends the walk with the
    exception of the first read that fails. *)
Lemma param_step_unreadable d name (param : torch_tensor) layer e :
  layer_of_name name = Ok layer -> contains "weight" name = true ->
  rows_of param = Raise e ->
  param_step d (name, param) = Raise e.
Proof.
  intros Hlayer Hw Hrows. unfold param_step. rewrite Hlayer, Hw.
  cbn [mbind result_bind]. unfold rows_of in Hrows.
  destruct param as [x|neurons]; cbn [unbind mbind result_bind] in *;
    [congruence|].
  rewrite neuron_loop_reads, Hrows. reflexivity.
Qed.

Lemma param_step_Ok_readable d name (param : torch_tensor) d' :
  param_step d (name, param) = Ok d' -> contains "weight" name = true ->
  exists rows, rows_of param = Ok rows.
Proof.
  intros Hstep Hw. destruct (rows_of param) as [rows|e] eqn:Hrows; [eauto|].
  unfold param_step in Hstep.
  destruct (layer_of_name name) as [layer|] eqn:Hlayer; [|discriminate].
  rewrite <- Hlayer in Hstep. fold (param_step d (name, param)) in Hstep.
  rewrite (param_step_unreadable _ _ _ _ _ Hlayer Hw Hrows) in Hstep.
  discriminate.
Qed.

Lemma floats_of_row row : floats_of (Stack (Scalar <$> row)) = Ok row.
Proof.
  unfold floats_of. cbn [unbind mbind result_bind].
  induction row as [|x row IH]; [reflexivity|].
  cbn [fmap list_fmap mapM item mbind result_bind].
  change (mapM item (Scalar <$> row) ≫= (fun k => mret (x :: k)) = Ok (x :: row)).
  rewrite IH. reflexivity.
Qed.

Lemma rows_of_matrix rows : rows_of (matrix rows) = Ok rows.
Proof.
  unfold rows_of, matrix. cbn [unbind mbind result_bind].
  induction rows as [|row rows IH]; [reflexivity|].
  cbn [fmap list_fmap mapM]. rewrite floats_of_row. cbn [mbind result_bind].
  change (mapM floats_of ((fun row => Stack (Scalar <$> row)) <$> rows)
          ≫= (fun k => mret (row :: k)) = Ok (row :: rows)).
  rewrite IH. reflexivity.
Qed.

Lemma walk_on_matrices (params : list (string * tensor)) : forall d,
  for_each param_step (matrices params) d = for_each pure_param_step params d.
Proof.
  induction params as [|[name rows] params IH]; intros d; [reflexivity|].
  cbn [matrices fmap list_fmap fst snd]. rewrite !for_each_cons.
  rewrite (param_step_reads d name (matrix rows) rows (rows_of_matrix rows)).
  destruct (pure_param_step d (name, rows)); [apply IH|reflexivity].
Qed.

Lemma tensor_walk_on_matrices (params : list (string * tensor)) :
  tensor_walk (matrices params) = pure_walk params.
Proof. apply walk_on_matrices. Qed.

(** On matrices the extractor is the extractor on their rows. *)
Lemma extractor_on_matrices (params : list (string * tensor)) :
  snn2mcu_param_dict_extractor (matrices params) = pure_extractor params.
Proof.
  unfold snn2mcu_param_dict_extractor, pure_extractor, tensor_walk, pure_walk.
  rewrite walk_on_matrices. reflexivity.
Qed.

Lemma read_matrices (params : list (string * tensor)) :
  read_params (matrices params) = params.
Proof.
  unfold read_params, matrices. rewrite <- list_fmap_compose.
  induction params as [|[name rows] params IH]; [reflexivity|].
  cbn [fmap list_fmap compose fst snd]. rewrite rows_of_matrix. f_equal. exact IH.
Qed.

(** A walk over parameters whose weights can be read is the walk over
    what is read. *)
Lemma walk_reads (params : list (string * torch_tensor)) : forall d,
  weights_readable params ->
  for_each param_step params d
  = for_each pure_param_step (read_params params) d.
Proof.
  induction params as [|[name param] params IH]; intros d Hread; [reflexivity|].
  inversion Hread as [|? ? Hparam Hrest]; subst.
  cbn [read_params fmap list_fmap fst snd]. rewrite !for_each_cons.
  replace (param_step d (name, param))
    with (pure_param_step d
            (name, match rows_of param with Ok rows => rows | Raise _ => [] end)).
  - destruct (pure_param_step d _); [apply IH; assumption|reflexivity].
  - symmetry. destruct (contains "weight" name) eqn:Hw.
    + destruct (Hparam Hw) as [rows Hrows]. cbn [snd] in Hrows.
      rewrite Hrows. apply param_step_reads, Hrows.
    + apply param_step_skips, Hw.
Qed.

(** A walk that ends well could read every weight. *)
Lemma walk_Ok_readable (params : list (string * torch_tensor)) : forall d d',
  for_each param_step params d = Ok d' -> weights_readable params.
Proof.
  induction params as [|[name param] params IH]; intros d d' Hrun; [constructor|].
  walk_step Hrun d1 Hstep. constructor; [|exact (IH _ _ Hrun)].
  intros Hw. exact (param_step_Ok_readable _ _ _ _ Hstep Hw).
Qed.

Lemma extractor_reads (params : list (string * torch_tensor)) :
  weights_readable params ->
  snn2mcu_param_dict_extractor params = pure_extractor (read_params params).
Proof.
  intros Hread.
  unfold snn2mcu_param_dict_extractor, pure_extractor, tensor_walk, pure_walk.
  rewrite walk_reads by assumption. reflexivity.
Qed.

Lemma extractor_Ok_readable (params : list (string * torch_tensor)) t :
  snn2mcu_param_dict_extractor params = Ok t -> weights_readable params.
Proof.
  intros Ht. apply bind_Ok in Ht as (d & Hwalk & _).
  exact (walk_Ok_readable _ _ _ Hwalk).
Qed.

End Reading.

(** ** The extractor: loops, failures and success *)

Section Extractor.

Implicit Types (d : param_dict) (row : list float) (rows : tensor).

(** *** The loop over the weights of one neuron *)

Lemma append_or_init_weights key d x :
  weights (append_or_init key d x)
  = <[key := default [] (weights d !! key) ++ [x]]> (weights d).
Proof. unfold append_or_init. destruct (weights d !! key); reflexivity. Qed.

Lemma append_or_init_architecture key d x :
  model_architecture (append_or_init key d x) = model_architecture d.
Proof. unfold append_or_init. destruct (weights d !! key); reflexivity. Qed.

Lemma append_or_init_number_of_layers key d x :
  number_of_layers (append_or_init key d x) = number_of_layers d.
Proof. unfold append_or_init. destruct (weights d !! key); reflexivity. Qed.

Lemma append_loop_architecture key row : forall d,
  model_architecture (foldl (append_or_init key) d row) = model_architecture d.
Proof.
  induction row as [|x row IH]; intros d; cbn [foldl]; [reflexivity|].
  rewrite IH. apply append_or_init_architecture.
Qed.

Lemma append_loop_number_of_layers key row : forall d,
  number_of_layers (foldl (append_or_init key) d row) = number_of_layers d.
Proof.
  induction row as [|x row IH]; intros d; cbn [foldl]; [reflexivity|].
  rewrite IH. apply append_or_init_number_of_layers.
Qed.

(** A neuron without weights leaves the dict alone; otherwise its weights
    go behind those already under the key. *)
Lemma append_loop_weights key row : forall d,
  weights (foldl (append_or_init key) d row)
  = match row with
    | [] => weights d
    | _ => <[key := default [] (weights d !! key) ++ row]> (weights d)
    end.
Proof.
  induction row as [|x row IH]; intros d; cbn [foldl]; [reflexivity|].
  rewrite IH, append_or_init_weights. destruct row as [|y row].
  - reflexivity.
  - rewrite lookup_insert_eq, insert_insert_eq. cbn [default from_option id].
    rewrite <- app_assoc. reflexivity.
Qed.

(** *** The loop over the neurons of one tensor *)

Lemma neuron_loop_cons layer d i row rows :
  pure_neuron_loop layer d i (row :: rows)
  = pure_neuron_loop layer (fst (pure_neuron_step layer (d, i) row)) (i + 1) rows.
Proof. reflexivity. Qed.

Lemma neuron_step_weights layer d i row :
  weights (fst (pure_neuron_step layer (d, i) row))
  = match row with
    | [] => weights d
    | _ => <[weight_key layer i :=
              default [] (weights d !! weight_key layer i) ++ row]> (weights d)
    end.
Proof.
  cbn [pure_neuron_step fst]. rewrite append_loop_weights.
  destruct ((1 =? layer) && (0 =? i)); reflexivity.
Qed.

Lemma neuron_step_architecture layer d i row :
  model_architecture (fst (pure_neuron_step layer (d, i) row))
  = if (1 =? layer) && (0 =? i) then Some [len row] else model_architecture d.
Proof.
  cbn [pure_neuron_step fst]. rewrite append_loop_architecture.
  destruct ((1 =? layer) && (0 =? i)); reflexivity.
Qed.

Lemma neuron_step_number_of_layers layer d i row :
  number_of_layers (fst (pure_neuron_step layer (d, i) row)) = number_of_layers d.
Proof.
  cbn [pure_neuron_step fst]. rewrite append_loop_number_of_layers.
  destruct ((1 =? layer) && (0 =? i)); reflexivity.
Qed.

Lemma neuron_loop_number_of_layers layer rows : forall d i,
  number_of_layers (fst (pure_neuron_loop layer d i rows)) = number_of_layers d.
Proof.
  induction rows as [|row rows IH]; intros d i; [reflexivity|].
  rewrite neuron_loop_cons, IH. apply neuron_step_number_of_layers.
Qed.

Lemma neuron_loop_architecture_later layer rows : forall d i,
  0 < i ->
  model_architecture (fst (pure_neuron_loop layer d i rows)) = model_architecture d.
Proof.
  induction rows as [|row rows IH]; intros d i Hi; [reflexivity|].
  rewrite neuron_loop_cons, IH by lia. rewrite neuron_step_architecture.
  replace (0 =? i) with false by (symmetry; apply Z.eqb_neq; lia).
  rewrite andb_false_r. reflexivity.
Qed.

(** Only the first neuron of layer 1 writes ['model_architecture']. *)
Lemma neuron_loop_architecture layer d rows :
  model_architecture (fst (pure_neuron_loop layer d 0 rows))
  = match rows with
    | row :: _ => if 1 =? layer then Some [len row] else model_architecture d
    | [] => model_architecture d
    end.
Proof.
  destruct rows as [|row rows]; [reflexivity|].
  rewrite neuron_loop_cons, neuron_loop_architecture_later by lia.
  rewrite neuron_step_architecture, andb_true_r. reflexivity.
Qed.

(** A key that no neuron of the tensor writes keeps its value. *)
Lemma neuron_loop_lookup_other layer rows key : forall d i,
  (forall j row, rows !! j = Some row -> row <> [] ->
     key <> weight_key layer (i + Z.of_nat j)) ->
  weights (fst (pure_neuron_loop layer d i rows)) !! key = weights d !! key.
Proof.
  induction rows as [|row rows IH]; intros d i Hkey; [reflexivity|].
  rewrite neuron_loop_cons, IH.
  - rewrite neuron_step_weights. destruct row as [|x row]; [reflexivity|].
    apply lookup_insert_ne. intros Heq.
    apply (Hkey 0%nat (x :: row)); [reflexivity|discriminate|].
    rewrite Z.add_0_r. symmetry. exact Heq.
  - intros j r Hj Hr. replace (i + 1 + Z.of_nat j) with (i + Z.of_nat (S j)) by lia.
    apply (Hkey (S j) r); assumption.
Qed.

(** The key of a neuron with weights receives them, behind what it held. *)
Lemma neuron_loop_lookup layer rows : forall d i j row,
  rows !! j = Some row -> row <> [] ->
  weights (fst (pure_neuron_loop layer d i rows)) !! weight_key layer (i + Z.of_nat j)
  = Some (default [] (weights d !! weight_key layer (i + Z.of_nat j)) ++ row).
Proof.
  induction rows as [|r rows IH]; intros d i j row Hj Hrow; [discriminate|].
  rewrite neuron_loop_cons. destruct j as [|j].
  - injection Hj as ->. rewrite neuron_loop_lookup_other.
    + rewrite neuron_step_weights, Z.add_0_r.
      destruct row; [congruence|]. apply lookup_insert_eq.
    + intros j' r' _ _ Heq. apply weight_key_inj in Heq. lia.
  - replace (i + Z.of_nat (S j)) with (i + 1 + Z.of_nat j) by lia.
    rewrite (IH _ _ _ _ Hj Hrow). rewrite neuron_step_weights.
    destruct r; [reflexivity|]. rewrite lookup_insert_ne; [reflexivity|].
    intros Heq. apply weight_key_inj in Heq. lia.
Qed.

(** Keys of another layer are not touched. *)
Lemma neuron_loop_lookup_layer layer layer' d i rows n :
  layer' <> layer ->
  weights (fst (pure_neuron_loop layer d i rows)) !! weight_key layer' n
  = weights d !! weight_key layer' n.
Proof.
  intros Hne. apply neuron_loop_lookup_other.
  intros j row _ _ Heq. apply weight_key_inj in Heq. lia.
Qed.

(** Nor are the keys of neurons that the tensor does not have. *)
Lemma neuron_loop_lookup_beyond layer d rows n :
  ~ (0 <= n < len rows) ->
  weights (fst (pure_neuron_loop layer d 0 rows)) !! weight_key layer n
  = weights d !! weight_key layer n.
Proof.
  intros Hn. apply neuron_loop_lookup_other.
  intros j row Hj _ Heq. apply weight_key_inj in Heq.
  apply lookup_lt_Some in Hj. unfold len in Hn. lia.
Qed.


(** *** One parameter *)

Lemma param_step_weight d name rows layer :
  layer_of_name name = Ok layer ->
  is_weight (name, rows) = true ->
  pure_param_step d (name, rows)
  = match model_architecture (fst (pure_neuron_loop layer d 0 rows)) with
    | Some a =>
        Ok (set_architecture (a ++ [len rows]) (fst (pure_neuron_loop layer d 0 rows)))
    | None => Raise KeyError
    end.
Proof.
  unfold is_weight, pure_param_step. cbn [fst]. intros -> ->. reflexivity.
Qed.

Lemma param_step_other d name rows d' :
  is_weight (name, rows) = false ->
  pure_param_step d (name, rows) = Ok d' -> d' = d.
Proof.
  unfold is_weight, pure_param_step. cbn [fst]. intros ->.
  destruct (layer_of_name name); cbn; congruence.
Qed.

Lemma param_step_layer d name rows d' :
  pure_param_step d (name, rows) = Ok d' -> exists layer, layer_of_name name = Ok layer.
Proof.
  unfold pure_param_step. destruct (layer_of_name name) as [layer|]; [eauto|discriminate].
Qed.

Lemma param_step_no_digits d name rows :
  first_digit_run name = None -> pure_param_step d (name, rows) = Raise IndexError.
Proof. unfold pure_param_step, layer_of_name. intros ->. reflexivity. Qed.

(** A loop with an item on which the body always raises never ends well. *)
Lemma for_each_raises {A S} (body : S -> A -> result S) x items :
  In x items -> (forall s, exists e, body s x = Raise e) ->
  forall s, exists e, for_each body items s = Raise e.
Proof.
  induction items as [|y items IH]; intros Hin Hx s; [destruct Hin|].
  rewrite for_each_cons. destruct Hin as [->|Hin].
  - destruct (Hx s) as [e ->]. eauto.
  - destruct (body s y) as [s'|e]; [apply IH; assumption | eauto].
Qed.


Lemma for_each_app {A S} (body : S -> A -> result S) xs ys : forall s,
  for_each body (xs ++ ys) s = for_each body xs s ≫= for_each body ys.
Proof.
  induction xs as [|x xs IH]; intros s; [reflexivity|].
  cbn [app]. rewrite !for_each_cons. destruct (body s x) as [s'|e]; [apply IH|reflexivity].
Qed.

(** *** The walk: when ['model_architecture'] exists *)

(** While the key is missing, the walk only survives entries that are not
    weights; the first weight must belong to layer 1. *)
Lemma walk_seeds params : forall d d',
  model_architecture d = None ->
  for_each pure_param_step params d = Ok d' ->
  (d' = d /\ Forall (fun entry => is_weight entry = false) params)
  \/ first_weight_has_layer_1 params.
Proof.
  induction params as [|[name rows] params IH]; intros d d' Hd Hrun.
  - injection Hrun as <-. left. split; [reflexivity|constructor].
  - walk_step Hrun d1 Hstep.
    destruct (is_weight (name, rows)) eqn:Hw.
    + right. destruct (param_step_layer _ _ _ _ Hstep) as [layer Hlayer].
      rewrite (param_step_weight _ _ _ _ Hlayer Hw) in Hstep.
      rewrite neuron_loop_architecture in Hstep.
      destruct rows as [|row rows]; [rewrite Hd in Hstep; discriminate|].
      destruct (Z.eqb_spec 1 layer) as [Heq|_]; [subst layer|rewrite Hd in Hstep; discriminate].
      exists [], name, (row :: rows), params. repeat split; auto.
    + apply param_step_other in Hstep; [subst d1|assumption].
      destruct (IH _ _ Hd Hrun) as [[-> Hall]|(pre & n & r & post & -> & Hpre & Hn & Hl)].
      * left. split; [reflexivity|]. constructor; assumption.
      * right. exists ((name, rows) :: pre), n, r, post.
        repeat split; auto.
Qed.

(** Once written, ['model_architecture'] holds at least two numbers. *)
Lemma param_step_architecture_length d entry d' :
  (forall a, model_architecture d = Some a -> 2 <= len a) ->
  pure_param_step d entry = Ok d' ->
  forall a, model_architecture d' = Some a -> 2 <= len a.
Proof.
  destruct entry as [name rows]. intros Hd Hstep.
  destruct (is_weight (name, rows)) eqn:Hw.
  - destruct (param_step_layer _ _ _ _ Hstep) as [layer Hlayer].
    rewrite (param_step_weight _ _ _ _ Hlayer Hw) in Hstep.
    rewrite neuron_loop_architecture in Hstep.
    assert (Hlen : forall (a0 : list Z) x, 1 <= len a0 -> 2 <= len (a0 ++ [x])).
    { intros a0 x. unfold len. rewrite length_app. cbn. lia. }
    destruct rows as [|row rows]; [|destruct (1 =? layer)].
    + destruct (model_architecture d) as [a0|] eqn:Ha; [|discriminate].
      injection Hstep as <-. intros a [= <-]. apply Hlen. specialize (Hd _ eq_refl). lia.
    + injection Hstep as <-. intros a [= <-]. apply (Hlen [len row]). unfold len. cbn. lia.
    + destruct (model_architecture d) as [a0|] eqn:Ha; [|discriminate].
      injection Hstep as <-. intros a [= <-]. apply Hlen. specialize (Hd _ eq_refl). lia.
  - apply param_step_other in Hstep; [subst d'|]; assumption.
Qed.

Lemma walk_architecture_length params : forall d d',
  (forall a, model_architecture d = Some a -> 2 <= len a) ->
  for_each pure_param_step params d = Ok d' ->
  forall a, model_architecture d' = Some a -> 2 <= len a.
Proof.
  induction params as [|entry params IH]; intros d d' Hd Hrun.
  - injection Hrun as <-. assumption.
  - walk_step Hrun d1 Hstep.
    eapply IH; [|exact Hrun]. eapply param_step_architecture_length; eassumption.
Qed.

(** *** The input layer *)

(** The last loop is the neuron loop of a layer 0 whose neurons all have
    the one weight 0.9. *)
Lemma input_loop_as_neuron_loop (ns : list Z) : forall d i,
  foldl (input_step 0) (d, i) ns
  = pure_neuron_loop 0 d i ((fun _ => [zero_point_nine]) <$> ns).
Proof.
  unfold pure_neuron_loop.
  induction ns as [|n ns IH]; intros d i; [reflexivity|].
  cbn [foldl fmap list_fmap].
  change (pure_neuron_step 0 (d, i) [zero_point_nine]) with (input_step 0 (d, i) n).
  cbn [input_step]. apply IH.
Qed.

Lemma add_input_layer_Ok d t :
  add_input_layer d = Ok t ->
  exists a a0,
    model_architecture d = Some a /\ a !! 0%nat = Some a0 /\
    t = fst (pure_neuron_loop 0 (set_number_of_layers (len a) d) 0 (input_rows a0)).
Proof.
  unfold add_input_layer. destruct (model_architecture d) as [a|]; [|discriminate].
  destruct (a !! 0%nat) as [a0|] eqn:Ha0; [|discriminate].
  intros [= <-]. exists a, a0. rewrite input_loop_as_neuron_loop. auto.
Qed.

Lemma add_input_layer_architecture d t a :
  add_input_layer d = Ok t -> model_architecture d = Some a ->
  model_architecture t = Some a /\ number_of_layers t = Some (len a).
Proof.
  intros Ht Ha. apply add_input_layer_Ok in Ht as (a' & a0 & Ha' & _ & ->).
  rewrite Ha in Ha'. injection Ha' as <-.
  rewrite neuron_loop_architecture, neuron_loop_number_of_layers.
  split; [|reflexivity]. destruct (input_rows a0); assumption.
Qed.

Lemma add_input_layer_lookup d t layer n :
  add_input_layer d = Ok t -> layer <> 0 ->
  weights t !! weight_key layer n = weights d !! weight_key layer n.
Proof.
  intros Ht Hl. apply add_input_layer_Ok in Ht as (a & a0 & _ & _ & ->).
  rewrite neuron_loop_lookup_layer by assumption. reflexivity.
Qed.

Lemma extractor_of_walk params d :
  pure_walk params = Ok d ->
  pure_extractor params = add_input_layer d.
Proof. unfold pure_extractor. intros ->. reflexivity. Qed.

Lemma extractor_Ok params t :
  pure_extractor params = Ok t ->
  exists d, pure_walk params = Ok d /\ add_input_layer d = Ok t.
Proof. apply bind_Ok. Qed.

(** A walk that leaves ['model_architecture'] behind has met a weight
    tensor, and the first one it met belongs to layer 1. *)
Lemma seeded_walk_first_weight params d a :
  pure_walk params = Ok d -> model_architecture d = Some a ->
  first_weight_has_layer_1 params.
Proof.
  intros Hwalk Ha.
  destruct (walk_seeds params empty_dict d eq_refl Hwalk) as [[-> _]|H];
    [discriminate Ha|exact H].
Qed.

(** C10 (confirmed). The extractor returns a table only if the input has a
    weight-named parameter and the first such parameter has layer index 1;
    every other input makes it raise, since [result] has no third case.
    The returned table has its ['model_architecture'], seeded and extended
    to at least two entries, and ['number_of_layers'] is its length. *)
Theorem extractor_needs_layer_1 (params : list (string * tensor)) (t : param_dict) :
  snn2mcu_param_dict_extractor (matrices params) = Ok t ->
  first_weight_has_layer_1 params /\
  exists a, model_architecture t = Some a /\ 2 <= len a /\
            number_of_layers t = Some (len a).
Proof.
  intros Ht. rewrite extractor_on_matrices in Ht.
  apply extractor_Ok in Ht as (d & Hwalk & Ht).
  pose proof (add_input_layer_Ok _ _ Ht) as (a & a0 & Ha & _ & _).
  destruct (add_input_layer_architecture _ _ _ Ht Ha) as [Hta Htn].
  split; [exact (seeded_walk_first_weight _ _ _ Hwalk Ha)|].
  exists a. split; [assumption|]. split; [|assumption].
  eapply (walk_architecture_length params empty_dict d); try eassumption.
  discriminate.
Qed.

Lemma param_step_malformed d name (param : torch_tensor) :
  first_digit_run name = None -> param_step d (name, param) = Raise IndexError.
Proof. unfold param_step, layer_of_name. intros ->. reflexivity. Qed.

(** C8 (confirmed). An input with an entry, weight or not, whose name has
    no decimal digit makes the extractor raise, and no table is returned.
    The exception is [IndexError], the malformed name, when the entries
    before it are walked without exception; otherwise it is the exception
    of an earlier entry. *)
Theorem malformed_name_raises
    (pre post : list (string * torch_tensor)) name (param : torch_tensor) :
  first_digit_run name = None ->
  exists e,
    snn2mcu_param_dict_extractor (pre ++ (name, param) :: post) = Raise e /\
    ((exists d, tensor_walk pre = Ok d) -> e = IndexError).
Proof.
  intros Hname. unfold snn2mcu_param_dict_extractor, tensor_walk.
  rewrite for_each_app.
  destruct (for_each param_step pre empty_dict) as [d|e] eqn:Hpre;
    cbn [mbind result_bind].
  - rewrite for_each_cons, (param_step_malformed d name param Hname).
    exists IndexError. split; reflexivity.
  - exists e. split; [reflexivity|]. intros [d Hd]. discriminate Hd.
Qed.

(** *** The walk never looks at the lengths of the rows *)

Lemma param_step_total d name rows :
  (exists layer, layer_of_name name = Ok layer) ->
  is_Some (model_architecture d) ->
  exists d', pure_param_step d (name, rows) = Ok d' /\ is_Some (model_architecture d').
Proof.
  intros [layer Hname] Hd. unfold pure_param_step. rewrite Hname.
  cbn [mbind result_bind].
  destruct (contains "weight" name); [|eauto].
  rewrite neuron_loop_architecture.
  destruct rows as [|row rows]; [|destruct (1 =? layer)];
    try (destruct Hd as [a ->]); eauto.
Qed.

Lemma walk_total params : forall d,
  names_parse params ->
  is_Some (model_architecture d) ->
  exists d', for_each pure_param_step params d = Ok d' /\ is_Some (model_architecture d').
Proof.
  induction params as [|[name rows] params IH]; intros d Hall Hd; [eauto|].
  inversion Hall as [|? ? Hname Hrest]; subst.
  destruct (param_step_total d name rows Hname Hd) as (d1 & Hstep & Hd1).
  rewrite for_each_cons, Hstep. apply IH; assumption.
Qed.

Lemma walk_skips params : forall d,
  names_parse params ->
  Forall (fun entry => is_weight entry = false) params ->
  for_each pure_param_step params d = Ok d.
Proof.
  induction params as [|[name rows] params IH]; intros d Hall Hskip; [reflexivity|].
  inversion Hall as [|? ? [layer Hname] Hrest]; subst.
  inversion Hskip as [|? ? Hw Hskip']; subst.
  rewrite for_each_cons. unfold pure_param_step.
  unfold is_weight in Hw. cbn [fst] in Hw, Hname. rewrite Hw, Hname.
  cbn [mbind result_bind]. apply IH; assumption.
Qed.

(** On rows that have been read, the walk and the last loop go through
    once every name gives a layer index and the first weight tensor
    belongs to layer 1 and has a row. *)
Lemma pure_extraction_succeeds (pre post : list (string * tensor)) name rows :
  names_parse (pre ++ (name, rows) :: post) ->
  Forall (fun entry => is_weight entry = false) pre ->
  is_weight (name, rows) = true ->
  layer_of_name name = Ok 1 ->
  rows <> [] ->
  exists t, pure_extractor (pre ++ (name, rows) :: post) = Ok t.
Proof.
  intros Hall Hpre Hw Hlayer Hrows.
  apply Forall_app in Hall as [Hall_pre Hall_post].
  inversion Hall_post as [|? ? _ Hall_post']; subst.
  destruct rows as [|row rows]; [congruence|].
  set (d1 := set_architecture ([len row] ++ [len (row :: rows)])
               (fst (pure_neuron_loop 1 empty_dict 0 (row :: rows)))).
  destruct (walk_total post d1 Hall_post') as (d & Hd & [a Ha]).
  { subst d1. cbn. eauto. }
  assert (Hwalk : pure_walk (pre ++ (name, row :: rows) :: post) = Ok d).
  { unfold pure_walk. rewrite for_each_app, walk_skips by assumption.
    cbn [mbind result_bind]. rewrite for_each_cons.
    rewrite (param_step_weight _ _ _ _ Hlayer Hw), neuron_loop_architecture.
    exact Hd. }
  assert (Hlen : 2 <= len a).
  { apply (walk_architecture_length (pre ++ (name, row :: rows) :: post) empty_dict d);
      [discriminate|exact Hwalk|exact Ha]. }
  assert (Hadd : exists t, add_input_layer d = Ok t).
  { unfold add_input_layer. rewrite Ha.
    destruct a as [|a0 a]; [unfold len in Hlen; cbn in Hlen; lia|]. cbn. eauto. }
  destruct Hadd as [t Ht]. exists t.
  etransitivity; [exact (extractor_of_walk _ _ Hwalk)|exact Ht].
Qed.

Lemma read_params_app (xs ys : list (string * torch_tensor)) :
  read_params (xs ++ ys) = read_params xs ++ read_params ys.
Proof. apply fmap_app. Qed.

Lemma names_parse_read (params : list (string * torch_tensor)) :
  names_parse params <-> names_parse (read_params params).
Proof.
  unfold names_parse, read_params. rewrite Forall_fmap. reflexivity.
Qed.

Lemma skipped_read (params : list (string * torch_tensor)) :
  Forall (fun entry => is_weight entry = false) params <->
  Forall (fun entry => is_weight entry = false) (read_params params).
Proof. unfold read_params. rewrite Forall_fmap. reflexivity. Qed.

Lemma rows_of_nonempty (param neuron : torch_tensor) neurons rows :
  unbind param = Ok (neuron :: neurons) -> rows_of param = Ok rows -> rows <> [].
Proof.
  unfold rows_of. intros ->. cbn [mbind result_bind]. intros Hrows ->.
  apply mapM_Ok_length in Hrows. discriminate Hrows.
Qed.

(** C9 (corrected). The extractor does not compare the lengths of weight
    vectors: whenever every name gives a layer index, every weight
    parameter can be read as rows of numbers, and the first weight
    parameter belongs to layer 1 and has a row, it returns a table,
    whatever the lengths of the rows. *)
Theorem extractor_trusts_tensors
    (pre post : list (string * torch_tensor)) name (param neuron : torch_tensor)
    (neurons : list torch_tensor) :
  names_parse (pre ++ (name, param) :: post) ->
  weights_readable (pre ++ (name, param) :: post) ->
  Forall (fun entry => is_weight entry = false) pre ->
  is_weight (name, param) = true ->
  layer_of_name name = Ok 1 ->
  unbind param = Ok (neuron :: neurons) ->
  exists t, snn2mcu_param_dict_extractor (pre ++ (name, param) :: post) = Ok t.
Proof.
  intros Hnames Hread Hpre Hw Hlayer Hparam.
  rewrite extractor_reads by assumption.
  assert (Hrows : exists rows, rows_of param = Ok rows).
  { apply Forall_app in Hread as [_ Hread].
    inversion Hread as [|? ? Hp _]; subst. exact (Hp Hw). }
  destruct Hrows as [rows Hrows].
  apply names_parse_read in Hnames. rewrite read_params_app in *.
  cbn [read_params fmap list_fmap fst snd] in *. rewrite Hrows in *.
  apply pure_extraction_succeeds; try assumption.
  - apply skipped_read, Hpre.
  - exact (rows_of_nonempty _ _ _ _ Hparam Hrows).
Qed.

End Extractor.

(** ** The extractor: layers that the walk leaves alone *)

Section InputLayer.

Implicit Types (d : param_dict) (row : list float) (rows : tensor).

Lemma weight_layers_cons entry params :
  weight_layers (entry :: params) = weight_layers [entry] ++ weight_layers params.
Proof. unfold weight_layers. cbn [flat_map]. rewrite app_nil_r. reflexivity. Qed.

Lemma weight_layers_app xs ys :
  weight_layers (xs ++ ys) = weight_layers xs ++ weight_layers ys.
Proof. apply flat_map_app. Qed.

Lemma weight_layers_weight name rows layer :
  is_weight (name, rows) = true -> layer_of_name name = Ok layer ->
  weight_layers [(name, rows)] = [layer].
Proof. unfold weight_layers. cbn [flat_map fst]. intros -> ->. reflexivity. Qed.

Lemma weight_layers_skipped params :
  Forall (fun entry => is_weight entry = false) params -> weight_layers params = [].
Proof.
  induction 1 as [|entry params Hw _ IH]; [reflexivity|].
  rewrite weight_layers_cons, IH, app_nil_r.
  unfold weight_layers. cbn [flat_map]. rewrite Hw. reflexivity.
Qed.

Lemma walk_skipped params : forall d d',
  Forall (fun entry => is_weight entry = false) params ->
  for_each pure_param_step params d = Ok d' -> d' = d.
Proof.
  induction params as [|[name rows] params IH]; intros d d' Hall Hrun.
  - injection Hrun as <-. reflexivity.
  - inversion Hall as [|? ? Hw Hall']; subst.
    walk_step Hrun d1 Hstep.
    apply param_step_other in Hstep; [subst d1|assumption]. eapply IH; eassumption.
Qed.

(** What one weight tensor does to the dict. *)
Lemma param_step_weight_Ok d name rows layer d' :
  is_weight (name, rows) = true -> layer_of_name name = Ok layer ->
  pure_param_step d (name, rows) = Ok d' ->
  exists a,
    model_architecture (fst (pure_neuron_loop layer d 0 rows)) = Some a /\
    model_architecture d' = Some (a ++ [len rows]) /\
    number_of_layers d' = number_of_layers d /\
    weights d' = weights (fst (pure_neuron_loop layer d 0 rows)).
Proof.
  intros Hw Hlayer Hstep. rewrite (param_step_weight _ _ _ _ Hlayer Hw) in Hstep.
  destruct (model_architecture _) as [a|] eqn:Ha; [|discriminate].
  injection Hstep as <-. exists a. cbn. rewrite neuron_loop_number_of_layers. auto.
Qed.

(** The walk never writes a key of a layer that no weight tensor names. *)
Lemma walk_lookup_absent_layer layer n params : forall d d',
  ~ In layer (weight_layers params) ->
  for_each pure_param_step params d = Ok d' ->
  weights d' !! weight_key layer n = weights d !! weight_key layer n.
Proof.
  induction params as [|[name rows] params IH]; intros d d' Hnot Hrun.
  - injection Hrun as <-. reflexivity.
  - walk_step Hrun d1 Hstep.
    rewrite weight_layers_cons in Hnot.
    rewrite (IH d1 d') by (try assumption; intros Hin; apply Hnot, in_or_app; auto).
    destruct (is_weight (name, rows)) eqn:Hw.
    + destruct (param_step_layer _ _ _ _ Hstep) as [l Hl].
      destruct (param_step_weight_Ok _ _ _ _ _ Hw Hl Hstep) as (a & _ & _ & _ & ->).
      apply neuron_loop_lookup_layer. intros ->. apply Hnot, in_or_app. left.
      rewrite (weight_layers_weight _ _ _ Hw Hl). left. reflexivity.
    + apply param_step_other in Hstep; [subst d1; reflexivity|assumption].
Qed.

(** Without a further layer-1 tensor, ['model_architecture'] only grows at
    its end. *)
Lemma walk_architecture_grows params : forall d d' a,
  ~ In 1 (weight_layers params) ->
  model_architecture d = Some a ->
  for_each pure_param_step params d = Ok d' ->
  exists a', model_architecture d' = Some (a ++ a').
Proof.
  induction params as [|[name rows] params IH]; intros d d' a Hnot Ha Hrun.
  - injection Hrun as <-. exists []. rewrite app_nil_r. assumption.
  - walk_step Hrun d1 Hstep.
    rewrite weight_layers_cons in Hnot.
    assert (Hnot' : ~ In 1 (weight_layers params))
      by (intros Hin; apply Hnot, in_or_app; auto).
    destruct (is_weight (name, rows)) eqn:Hw.
    + destruct (param_step_layer _ _ _ _ Hstep) as [l Hl].
      destruct (param_step_weight_Ok _ _ _ _ _ Hw Hl Hstep) as (a1 & Ha1 & Hd1 & _ & _).
      assert (Hl1 : (1 =? l) = false).
      { apply Z.eqb_neq. intros <-. apply Hnot, in_or_app. left.
        rewrite (weight_layers_weight _ _ _ Hw Hl). left. reflexivity. }
      rewrite neuron_loop_architecture, Hl1 in Ha1.
      assert (a1 = a) by (destruct rows; congruence). subst a1.
      destruct (IH d1 d' _ Hnot' Hd1 Hrun) as [a' Ha'].
      exists ([len rows] ++ a'). rewrite Ha', <- app_assoc. reflexivity.
    + apply param_step_other in Hstep; [subst d1|assumption]. eapply IH; eassumption.
Qed.

Lemma input_rows_length a0 : len (input_rows a0) = Z.max a0 0.
Proof. unfold len, input_rows, range. rewrite length_fmap, length_seqZ. lia. Qed.

Lemma input_rows_lookup a0 n :
  0 <= n < a0 -> input_rows a0 !! Z.to_nat n = Some [zero_point_nine].
Proof.
  intros Hn. unfold input_rows, range. rewrite list_lookup_fmap.
  rewrite (lookup_seqZ_lt 0 a0 (Z.to_nat n)) by lia. reflexivity.
Qed.

(** The keys of layer 0 after the last loop. *)
Lemma add_input_layer_lookup_0 d t a a0 n :
  add_input_layer d = Ok t ->
  model_architecture d = Some a -> a !! 0%nat = Some a0 ->
  weights t !! weight_key 0 n
  = if (0 <=? n) && (n <? a0)
    then Some (default [] (weights d !! weight_key 0 n) ++ [zero_point_nine])
    else weights d !! weight_key 0 n.
Proof.
  intros Ht Ha Ha0. apply add_input_layer_Ok in Ht as (a' & a0' & Ha' & Ha0' & ->).
  rewrite Ha in Ha'. injection Ha' as <-. rewrite Ha0 in Ha0'. injection Ha0' as <-.
  destruct (Z.leb_spec 0 n); [destruct (Z.ltb_spec n a0)|]; cbn [andb].
  - rewrite <- (Z2Nat.id n) at 1 2 by assumption.
    rewrite <- (Z.add_0_l (Z.of_nat (Z.to_nat n))).
    rewrite (neuron_loop_lookup 0 (input_rows a0) _ 0 (Z.to_nat n) [zero_point_nine]).
    + rewrite Z.add_0_l, Z2Nat.id by assumption. reflexivity.
    + apply input_rows_lookup. lia.
    + discriminate.
  - rewrite neuron_loop_lookup_beyond; [reflexivity|].
    rewrite input_rows_length. lia.
  - rewrite neuron_loop_lookup_beyond; [reflexivity|].
    rewrite input_rows_length. lia.
Qed.

End InputLayer.

(** ** The extractor: the input layer *)

Section InputLayerTheorem.

Implicit Types (d : param_dict) (row : list float) (rows : tensor).

(** The state right after the first weight tensor, which belongs to layer 1
    and is met with an empty dict. *)
Lemma first_tensor_step name rows d1 :
  is_weight (name, rows) = true -> layer_of_name name = Ok 1 ->
  pure_param_step empty_dict (name, rows) = Ok d1 ->
  exists row rest,
    rows = row :: rest /\
    model_architecture d1 = Some [len row; len rows] /\
    number_of_layers d1 = None /\
    weights d1 = weights (fst (pure_neuron_loop 1 empty_dict 0 rows)).
Proof.
  intros Hw Hl Hstep.
  destruct (param_step_weight_Ok _ _ _ _ _ Hw Hl Hstep) as (a & Ha & Hd1 & Hn & Hws).
  rewrite neuron_loop_architecture in Ha.
  destruct rows as [|row rest]; [discriminate|].
  cbn in Ha. injection Ha as <-. exists row, rest. auto.
Qed.

Lemma first_neuron_fan_in row rest :
  len (default [] (weights (fst (pure_neuron_loop 1 empty_dict 0 (row :: rest)))
                     !! weight_key 1 0)) = len row.
Proof.
  destruct row as [|x row].
  - rewrite neuron_loop_lookup_other; [reflexivity|].
    intros [|j] r Hj Hr Heq; [cbn in Hj; congruence|].
    apply weight_key_inj in Heq. lia.
  - replace (weight_key 1 0) with (weight_key 1 (0 + Z.of_nat 0)) by reflexivity.
    rewrite (neuron_loop_lookup 1 _ _ 0 0%nat (x :: row)); [|reflexivity|discriminate].
    reflexivity.
Qed.

(** C5 (corrected). When extraction succeeds on an input with no weight
    tensor of layer 0 and exactly one of layer 1, the walk leaves no key of
    layer 0, the step after the walk gives layer 0 exactly
    [model_architecture[0]] neurons, each with the one weight 0.9, and
    [model_architecture[0]] is the number of weights of neuron 0 of
    layer 1. *)
Theorem input_layer_synthesized (params : list (string * tensor)) (t : param_dict) :
  snn2mcu_param_dict_extractor (matrices params) = Ok t ->
  ~ In 0 (weight_layers params) ->
  count_occ Z.eq_dec (weight_layers params) 1 = 1%nat ->
  exists d a a0,
    tensor_walk (matrices params) = Ok d /\
    (forall n, weights d !! weight_key 0 n = None) /\
    add_input_layer d = Ok t /\
    model_architecture t = Some a /\ a !! 0%nat = Some a0 /\
    (forall n, weights t !! weight_key 0 n
               = if (0 <=? n) && (n <? a0) then Some [zero_point_nine] else None) /\
    a0 = len (default [] (weights t !! weight_key 1 0)).
Proof.
  intros Hext Hno0 Hone.
  rewrite extractor_on_matrices in Hext.
  apply extractor_Ok in Hext as (d & Hwalk & Ht).
  pose proof (add_input_layer_Ok _ _ Ht) as (a_d & _ & Ha_d & _ & _).
  destruct (seeded_walk_first_weight _ _ _ Hwalk Ha_d)
    as (pre & name & rows & post & -> & Hpre & Hw & Hl).
  clear a_d Ha_d.
  assert (Hd0 : forall n, weights d !! weight_key 0 n = None).
  { intros n. rewrite (walk_lookup_absent_layer 0 n _ empty_dict d Hno0 Hwalk).
    reflexivity. }
  (* the walk, split at the first weight tensor *)
  pose proof Hwalk as Hsplit. unfold pure_walk in Hsplit.
  rewrite for_each_app in Hsplit. apply bind_Ok in Hsplit as (d0 & Hd0' & Hsplit).
  apply walk_skipped in Hd0'; [subst d0|assumption].
  rewrite for_each_cons in Hsplit. apply bind_Ok in Hsplit as (d1 & Hstep & Hpost).
  destruct (first_tensor_step _ _ _ Hw Hl Hstep) as (row & rest & -> & Ha1 & _ & Hw1).
  (* no second tensor of layer 1 *)
  rewrite weight_layers_app, weight_layers_cons in Hone.
  rewrite (weight_layers_skipped _ Hpre), (weight_layers_weight _ _ _ Hw Hl) in Hone.
  cbn in Hone. injection Hone as Hone. apply count_occ_not_In in Hone.
  destruct (walk_architecture_grows _ _ _ _ Hone Ha1 Hpost) as [a' Ha].
  destruct (add_input_layer_architecture _ _ _ Ht Ha) as [Hta _].
  exists d, ([len row; len (row :: rest)] ++ a'), (len row).
  rewrite tensor_walk_on_matrices.
  repeat split; try assumption; try reflexivity.
  - intros n. rewrite (add_input_layer_lookup_0 _ _ _ _ n Ht Ha eq_refl), Hd0.
    reflexivity.
  - rewrite (add_input_layer_lookup _ _ 1 0 Ht) by lia.
    rewrite (walk_lookup_absent_layer 1 0 _ _ _ Hone Hpost), Hw1.
    symmetry. apply first_neuron_fan_in.
Qed.

End InputLayerTheorem.

(** ** The extractor: the structural invariant *)

Section Structure.

Implicit Types (d : param_dict) (row : list float) (rows : tensor).

Lemma weight_tensors_cons entry params :
  weight_tensors (entry :: params)
  = (if is_weight entry then [entry.2] else []) ++ weight_tensors params.
Proof. reflexivity. Qed.

Lemma layer_shape_grows a x w l :
  0 <= l -> layer_shape a w l -> layer_shape (a ++ [x]) w l.
Proof.
  intros Hl (al & al' & Hal & Hal' & Hkeys & Hlens).
  exists al, al'.
  split; [apply lookup_app_l_Some; assumption|].
  split; [apply lookup_app_l_Some; assumption|].
  split; assumption.
Qed.

Lemma layer_shape_ext a w w' l :
  (forall n, w' !! weight_key l n = w !! weight_key l n) ->
  layer_shape a w l -> layer_shape a w' l.
Proof.
  intros Hsame (al & al' & Hal & Hal' & Hkeys & Hlens).
  exists al, al'. split; [assumption|]. split; [assumption|]. split.
  - intros n. rewrite Hsame. apply Hkeys.
  - intros n v. rewrite Hsame. apply Hlens.
Qed.

(** A fresh layer filled by one tensor whose rows all have [fan_in]
    weights, and at least one. *)
Lemma fresh_layer_shape layer d rows fan_in a :
  0 <= layer -> no_empty_row rows -> columns fan_in rows ->
  (forall n, weights d !! weight_key layer n = None) ->
  a !! Z.to_nat layer = Some (len rows) ->
  a !! Z.to_nat (layer - 1) = Some fan_in ->
  layer_shape a (weights (fst (pure_neuron_loop layer d 0 rows))) layer.
Proof.
  intros Hlayer Hfan Hcols Hfresh Hal Hal'.
  assert (Hrow : forall n row, rows !! Z.to_nat n = Some row -> 0 <= n ->
            weights (fst (pure_neuron_loop layer d 0 rows)) !! weight_key layer n
            = Some row).
  { intros n row Hn Hn0.
    assert (Hlen : len row = fan_in).
    { unfold columns in Hcols. rewrite Forall_lookup in Hcols. eapply Hcols, Hn. }
    assert (Hne : row <> []).
    { unfold no_empty_row in Hfan. rewrite Forall_lookup in Hfan. eapply Hfan, Hn. }
    pose proof (neuron_loop_lookup layer rows d 0 (Z.to_nat n) row Hn Hne) as Hlook.
    rewrite Z.add_0_l, Z2Nat.id, Hfresh in Hlook by assumption. exact Hlook. }
  exists (len rows), fan_in. split; [assumption|]. split; [assumption|].
  split; [intros n; split|].
  - destruct (decide (0 <= n < len rows)) as [Hn|Hn]; [intros _; lia|].
    rewrite neuron_loop_lookup_beyond, Hfresh by assumption.
    intros [v Hv]; discriminate.
  - intros Hn. destruct (lookup_lt_is_Some_2 rows (Z.to_nat n)) as [row Hr].
    { unfold len in Hn. lia. }
    rewrite (Hrow n row Hr) by lia. eauto.
  - intros n v Hv.
    destruct (decide (0 <= n < len rows)) as [Hn|Hn].
    + destruct (lookup_lt_is_Some_2 rows (Z.to_nat n)) as [row Hr].
      { unfold len in Hn. lia. }
      rewrite (Hrow n row Hr) in Hv by lia. injection Hv as <-.
      unfold columns in Hcols. rewrite Forall_lookup in Hcols. eapply Hcols, Hr.
    + rewrite neuron_loop_lookup_beyond, Hfresh in Hv by assumption. discriminate.
Qed.


Lemma in_order_cons (l k : Z) (ls : list Z) :
  l :: ls = seqZ (k + 1) (len (l :: ls)) ->
  l = k + 1 /\ ls = seqZ (k + 1 + 1) (len ls).
Proof.
  intros Heq. rewrite seqZ_cons in Heq by (unfold len; cbn [length]; lia).
  injection Heq as Hl Hls. split; [assumption|].
  rewrite Hls at 1. f_equal. unfold len. cbn [length]. lia.
Qed.

(** One more weight tensor, of the next layer. *)
Lemma tensor_step_state k d last name rows d1 :
  1 <= k -> walk_state k d last ->
  is_weight (name, rows) = true -> layer_of_name name = Ok (k + 1) ->
  columns last rows -> no_empty_row rows ->
  pure_param_step d (name, rows) = Ok d1 ->
  walk_state (k + 1) d1 (len rows).
Proof.
  intros Hk (a & Ha & Hlen & Hlast & Hshape & Hfresh) Hw Hl Hcols Hne Hstep.
  destruct (param_step_weight_Ok _ _ _ _ _ Hw Hl Hstep) as (a1 & Ha1 & Hd1 & _ & Hw1).
  rewrite neuron_loop_architecture in Ha1.
  replace (1 =? k + 1) with false in Ha1 by (symmetry; apply Z.eqb_neq; lia).
  assert (a1 = a) by (destruct rows; congruence). subst a1.
  assert (Hlast1 : (a ++ [len rows]) !! Z.to_nat (k + 1) = Some (len rows)).
  { rewrite lookup_app_r by (unfold len in Hlen; lia).
    replace (Z.to_nat (k + 1) - length a)%nat with 0%nat
      by (unfold len in Hlen; lia). reflexivity. }
  exists (a ++ [len rows]). split; [assumption|]. split; [|split; [assumption|split]].
  - unfold len in *. rewrite length_app. cbn [length]. lia.
  - intros l Hlk. rewrite Hw1. destruct (decide (l = k + 1)) as [->|Hne'].
    + apply (fresh_layer_shape (k + 1) d rows last); try assumption; try lia.
      * intros n. apply Hfresh. lia.
      * replace (k + 1 - 1) with k by lia. apply lookup_app_l_Some, Hlast.
    + apply layer_shape_grows; [lia|].
      apply (layer_shape_ext a (weights d)); [|apply Hshape; lia].
      intros n. apply neuron_loop_lookup_layer. assumption.
  - intros l n Hlk. rewrite Hw1, neuron_loop_lookup_layer by lia.
    apply Hfresh. lia.
Qed.

Lemma walk_layers params : forall d d' k last,
  1 <= k -> walk_state k d last ->
  weight_layers params = seqZ (k + 1) (len (weight_layers params)) ->
  chained last (weight_tensors params) ->
  Forall no_empty_row (weight_tensors params) ->
  for_each pure_param_step params d = Ok d' ->
  exists k' last', 1 <= k' /\ walk_state k' d' last'.
Proof.
  induction params as [|[name rows] params IH];
    intros d d' k last Hk Hstate Horder Hchain Hne Hrun.
  - injection Hrun as <-. eauto.
  - walk_step Hrun d1 Hstep.
    rewrite weight_layers_cons in Horder. rewrite weight_tensors_cons in Hchain, Hne.
    destruct (is_weight (name, rows)) eqn:Hw.
    + destruct (param_step_layer _ _ _ _ Hstep) as [l Hl].
      rewrite (weight_layers_weight _ _ _ Hw Hl) in Horder.
      apply in_order_cons in Horder as [-> Horder].
      destruct Hchain as [Hcols Hchain]. inversion Hne as [|? ? Hrows Hne']; subst.
      eapply (IH d1 d' (k + 1)); try eassumption; [lia|].
      eapply tensor_step_state; eassumption.
    + apply param_step_other in Hstep; [subst d1|assumption].
      rewrite (weight_layers_skipped [(name, rows)]) in Horder
        by (constructor; [assumption|constructor]).
      eapply IH; eassumption.
Qed.

(** The first weight tensor, met with the empty dict. *)
Lemma first_tensor_state name rows fan_in d1 :
  is_weight (name, rows) = true -> layer_of_name name = Ok 1 ->
  columns fan_in rows -> no_empty_row rows ->
  pure_param_step empty_dict (name, rows) = Ok d1 ->
  walk_state 1 d1 (len rows).
Proof.
  intros Hw Hl Hcols Hne Hstep.
  destruct (first_tensor_step _ _ _ Hw Hl Hstep) as (row & rest & -> & Ha1 & _ & Hw1).
  assert (Hrow : len row = fan_in) by (inversion Hcols; assumption).
  exists [len row; len (row :: rest)].
  split; [assumption|]. split; [reflexivity|]. split; [reflexivity|]. split.
  - intros l Hl1. assert (l = 1) as -> by lia. rewrite Hw1.
    apply (fresh_layer_shape 1 empty_dict (row :: rest) fan_in);
      try assumption; try lia; try reflexivity.
    cbn. rewrite Hrow. reflexivity.
  - intros l n Hl1. rewrite Hw1, neuron_loop_lookup_layer by lia. reflexivity.
Qed.

Lemma walk_from_empty params : forall d' fan_in,
  layers_in_order params ->
  chained fan_in (weight_tensors params) ->
  Forall no_empty_row (weight_tensors params) ->
  for_each pure_param_step params empty_dict = Ok d' ->
  d' = empty_dict \/ exists k last, 1 <= k /\ walk_state k d' last.
Proof.
  unfold layers_in_order.
  induction params as [|[name rows] params IH]; intros d' fan_in Horder Hchain Hne Hrun.
  - injection Hrun as <-. left. reflexivity.
  - walk_step Hrun d1 Hstep.
    rewrite weight_layers_cons in Horder. rewrite weight_tensors_cons in Hchain, Hne.
    destruct (is_weight (name, rows)) eqn:Hw.
    + right. destruct (param_step_layer _ _ _ _ Hstep) as [l Hl].
      rewrite (weight_layers_weight _ _ _ Hw Hl) in Horder.
      apply (in_order_cons l 0) in Horder as [-> Horder].
      destruct Hchain as [Hcols Hchain]. inversion Hne as [|? ? Hrows Hne']; subst.
      eapply (walk_layers params d1 d' 1); try eassumption; [lia|].
      eapply first_tensor_state; eassumption.
    + apply param_step_other in Hstep; [subst d1|assumption].
      rewrite (weight_layers_skipped [(name, rows)]) in Horder
        by (constructor; [assumption|constructor]).
      eapply IH; eassumption.
Qed.

(** C3 (corrected). When the weight tensors come in the layer order
    1, 2, ..., L, each a matrix with at least one column and with as many
    columns as the matrix before it has rows, a table that the extractor
    returns satisfies the structural invariant: ['number_of_layers'] is the
    length of ['model_architecture'], and every layer [l >= 1] has weight
    vectors for exactly the neurons [0 .. model_architecture[l] - 1], each
    of length [model_architecture[l-1]]. *)
Theorem extracted_table_structure
    (params : list (string * tensor)) (fan_in : Z) (t : param_dict) :
  layers_in_order params ->
  chained fan_in (weight_tensors params) ->
  Forall no_empty_row (weight_tensors params) ->
  snn2mcu_param_dict_extractor (matrices params) = Ok t ->
  structural_invariant t.
Proof.
  intros Horder Hchain Hne Hext. rewrite extractor_on_matrices in Hext.
  apply extractor_Ok in Hext as (d & Hwalk & Ht).
  pose proof (add_input_layer_Ok _ _ Ht) as (a & a0 & Ha & _ & _).
  destruct (walk_from_empty params d fan_in Horder Hchain Hne Hwalk)
    as [->|(k & last & Hk & a' & Ha' & Hlen & _ & Hshape & _)]; [discriminate Ha|].
  rewrite Ha in Ha'. injection Ha' as <-.
  destruct (add_input_layer_architecture _ _ _ Ht Ha) as [Hta Htn].
  exists a. split; [assumption|]. split; [assumption|].
  intros l Hl. apply (layer_shape_ext a (weights d)).
  - intros n. apply (add_input_layer_lookup _ _ l n Ht). lia.
  - apply Hshape. lia.
Qed.

End Structure.

(** ** The encoders *)

Section Encoders.

(** *** Strings *)

Lemma string_app_assoc (s1 s2 s3 : string) : (s1 +:+ s2) +:+ s3 = s1 +:+ (s2 +:+ s3).
Proof.
  induction s1 as [|c s1 IH]; [reflexivity|].
  change (String c ((s1 +:+ s2) +:+ s3) = String c (s1 +:+ (s2 +:+ s3))).
  rewrite IH. reflexivity.
Qed.

Lemma string_app_nil_r (s : string) : s +:+ "" = s.
Proof.
  induction s as [|c s IH]; [reflexivity|].
  change (String c (s +:+ "") = String c s). rewrite IH. reflexivity.
Qed.

Lemma drop_last_snoc (s : string) (c : ascii) : drop_last (s +:+ String c "") = s.
Proof.
  induction s as [|c' s IH]; [reflexivity|].
  change (drop_last (String c' (s +:+ String c "")) = String c' s).
  cbn [drop_last]. rewrite IH.
  destruct s; reflexivity.
Qed.

Lemma drop_last_trailed (sep : ascii) (xs : list string) : forall p,
  xs <> [] ->
  drop_last (p +:+ trailed sep xs) = p +:+ String.concat (String sep "") xs.
Proof.
  induction xs as [|x xs IH]; intros p Hne; [congruence|].
  destruct xs as [|y xs].
  - cbn [trailed String.concat]. 
    rewrite <- string_app_assoc. apply drop_last_snoc.
  - change (trailed sep (x :: y :: xs)) with (x +:+ String sep (trailed sep (y :: xs))).
    change (String.concat (String sep "") (x :: y :: xs))
      with (x +:+ (String sep "" +:+ String.concat (String sep "") (y :: xs))).
    change (String sep (trailed sep (y :: xs)))
      with (String sep "" +:+ trailed sep (y :: xs)).
    rewrite <- !string_app_assoc. apply IH. discriminate.
Qed.

Lemma drop_last_trailed_all (sep : ascii) (xs : list string) :
  drop_last (trailed sep xs) = String.concat (String sep "") xs.
Proof.
  destruct xs as [|x xs]; [reflexivity|].
  apply (drop_last_trailed sep (x :: xs) ""). discriminate.
Qed.


(** *** Loops *)

Lemma for_each_flat_map {X Y S} (body : S -> Y -> result S)
    (emit : S -> X -> result S) (items : X -> list Y) (xs : list X) :
  (forall x s, In x xs -> emit s x = for_each body (items x) s) ->
  forall s, for_each emit xs s = for_each body (flat_map items xs) s.
Proof.
  induction xs as [|x xs IH]; intros Hemit s; [reflexivity|].
  cbn [flat_map]. rewrite for_each_cons, for_each_app, Hemit by (left; reflexivity).
  destruct (for_each body (items x) s) as [s'|e]; [|reflexivity].
  apply IH. intros x' s'' Hin. apply Hemit. right. assumption.
Qed.

Lemma flat_map_nested {X Y W} (f : Y -> list W) (g : X -> list Y) (xs : list X) :
  flat_map f (flat_map g xs) = flat_map (fun x => flat_map f (g x)) xs.
Proof.
  induction xs as [|x xs IH]; [reflexivity|].
  cbn [flat_map]. rewrite flat_map_app, IH. reflexivity.
Qed.

Lemma flat_map_of_fmap {X Y W} (f : Y -> list W) (g : X -> Y) (xs : list X) :
  flat_map f (g <$> xs) = flat_map (fun x => f (g x)) xs.
Proof.
  induction xs as [|x xs IH]; [reflexivity|].
  cbn [fmap list_fmap flat_map]. f_equal. exact IH.
Qed.

Lemma in_range (n k : Z) : In k (range n) <-> 0 <= k < n.
Proof. unfold range. rewrite <- list_elem_of_In, elem_of_seqZ. lia. Qed.

Lemma in_neuron_ids (a : list Z) (l n : Z) :
  In (l, n) (neuron_ids a) <-> 0 <= l < len a /\ 0 <= n < layer_size a l.
Proof.
  unfold neuron_ids. rewrite in_flat_map. split.
  - intros (l' & Hl' & Hin). apply in_range in Hl'.
    rewrite <- list_elem_of_In, list_elem_of_fmap in Hin.
    destruct Hin as (n' & [= -> ->] & Hn'). 
    rewrite list_elem_of_In, in_range in Hn'. auto.
  - intros [Hl Hn]. exists l. split; [apply in_range; assumption|].
    rewrite <- list_elem_of_In, list_elem_of_fmap. exists n.
    split; [reflexivity|]. rewrite list_elem_of_In, in_range. assumption.
Qed.

Lemma get_layer_size_Ok (d : param_dict) (a : list Z) (l : Z) :
  model_architecture d = Some a -> 0 <= l < len a ->
  get_layer_size d l = Ok (layer_size a l).
Proof.
  intros Ha Hl. unfold get_layer_size, layer_size. rewrite Ha.
  destruct (lookup_lt_is_Some_2 a (Z.to_nat l)) as [size ->];
    [unfold len in Hl; lia|reflexivity].
Qed.

(** The two nested loops run the body once per neuron, in the order of
    [neuron_ids]. *)
Lemma for_each_neuron_flat {Y} (d : param_dict) (a : list Z)
    (emit : string -> Z -> Z -> result string)
    (body : string -> Y -> result string) (items : Z * Z -> list Y)
    (start : string) :
  has_architecture d a ->
  (forall l n s, In (l, n) (neuron_ids a) ->
     emit s l n = for_each body (items (l, n)) s) ->
  for_each_neuron d emit start
  = for_each body (flat_map items (neuron_ids a)) start.
Proof.
  intros [Ha Hn] Hemit. unfold for_each_neuron, get_number_of_layers.
  rewrite Hn. cbn [mbind result_bind].
  unfold neuron_ids. rewrite flat_map_nested.
  apply for_each_flat_map. intros l s Hl. apply in_range in Hl.
  rewrite (get_layer_size_Ok d a l Ha Hl). cbn [mbind result_bind].
  rewrite flat_map_of_fmap. apply for_each_flat_map.
  intros n s' Hin. apply Hemit, in_neuron_ids. apply in_range in Hin. auto.
Qed.

(** A loop that appends one text and a separator per item. *)
Lemma for_each_emit {X} (f : X -> result string) (sep : ascii) (xs : list X) :
  forall s,
    for_each (fun s x => text ← f x; Ok (s +:+ text +:+ String sep "")) xs s
    = texts ← mapM f xs; Ok (s +:+ trailed sep texts).
Proof.
  induction xs as [|x xs IH]; intros s.
  - cbn. rewrite string_app_nil_r. reflexivity.
  - rewrite for_each_cons. cbn [mapM]. destruct (f x) as [q|e]; [|reflexivity].
    cbn [mbind result_bind]. rewrite IH.
    destruct (mapM f xs) as [qs|e]; [|reflexivity].
    cbn [mbind result_bind mret result_ret trailed].
    rewrite !string_app_assoc. reflexivity.
Qed.

Lemma mapM_Ok_fmap {X Y} (f : X -> result Y) (g : X -> Y) (xs : list X) :
  Forall (fun x => f x = Ok (g x)) xs -> mapM f xs = Ok (g <$> xs).
Proof.
  induction 1 as [|x xs Hx _ IH]; [reflexivity|].
  cbn [mapM fmap list_fmap]. rewrite Hx. cbn [mbind result_bind].
  change (mapM f xs ≫= (fun k => mret (g x :: k)) = Ok (g x :: (g <$> xs))).
  rewrite IH. reflexivity.
Qed.


Lemma mapM_constant {X Y} (y : Y) (xs : list X) :
  mapM (fun _ => Ok y) xs = Ok (replicate (length xs) y).
Proof.
  induction xs as [|x xs IH]; [reflexivity|].
  cbn [mapM length replicate]. cbn [mbind result_bind].
  change (mapM (λ _ : X, Ok y) xs ≫= (λ k, mret (y :: k))
          = Ok (y :: replicate (length xs) y)).
  rewrite IH. reflexivity.
Qed.

(** *** Counting neurons *)

Lemma sum_list_with_ext_in {X} (f g : X -> nat) (xs : list X) :
  (forall x, In x xs -> f x = g x) -> sum_list_with f xs = sum_list_with g xs.
Proof.
  induction xs as [|x xs IH]; intros Hfg; [reflexivity|].
  cbn [sum_list_with]. rewrite (Hfg x), IH; auto using in_eq, in_cons.
Qed.

Lemma length_flat_map_sum {X Y} (f : X -> list Y) (xs : list X) :
  length (flat_map f xs) = sum_list_with (fun x => length (f x)) xs.
Proof.
  induction xs as [|x xs IH]; [reflexivity|].
  cbn [flat_map sum_list_with]. rewrite length_app, IH. reflexivity.
Qed.

Lemma sum_over_range (h : option Z -> nat) (a : list Z) :
  sum_list_with (fun l => h (a !! Z.to_nat l)) (range (len a))
  = sum_list_with (fun x => h (Some x)) a.
Proof.
  unfold range, len. induction a as [|x a IH] using rev_ind; [reflexivity|].
  rewrite length_app. cbn [length]. rewrite Nat.add_1_r, seqZ_S.
  rewrite !sum_list_with_app. cbn [sum_list_with]. f_equal.
  - rewrite <- IH. apply sum_list_with_ext_in.
    intros l Hl. apply list_elem_of_In, elem_of_seqZ in Hl.
    rewrite lookup_app_l by lia. reflexivity.
  - rewrite Z.add_0_l, Nat2Z.id, lookup_app_r, Nat.sub_diag by lia. reflexivity.
Qed.

Lemma neuron_ids_length (a : list Z) : length (neuron_ids a) = neuron_count a.
Proof.
  unfold neuron_ids, neuron_count. rewrite length_flat_map_sum.
  etransitivity; [|exact (sum_over_range (fun o => Z.to_nat (default 0 o)) a)].
  apply sum_list_with_ext_in. intros l _.
  unfold layer_size, range. rewrite length_fmap, length_seqZ. reflexivity.
Qed.

(** *** The weights artifact *)

(** The text of the weights encoder, on a table that has a weight vector
    for every neuron: the quantized weights in the order of
    [table_weights], each with its comma, between the brace that the slice
    leaves and the closing one; or the first exception of the quantizer. *)
Lemma weights_text (d : param_dict) (a : list Z) (bits : Z)
    (negatives_allowed : bool) :
  has_architecture d a ->
  has_all_weights d a ->
  snn2mcu_weights d bits negatives_allowed
  = texts ← mapM (fun w =>
               q ← snn2mcu_value_cuantization bits w negatives_allowed;
               Ok (pretty q)) (table_weights d a);
    Ok (drop_last ("{" +:+ trailed "," texts) +:+ "}").
Proof.
  intros Harch Hall. unfold snn2mcu_weights.
  rewrite (for_each_neuron_flat d a _
             (fun s w => q ← snn2mcu_value_cuantization bits w negatives_allowed;
                         text ← str q;
                         Ok (s +:+ text +:+ ","))
             (fun id => default [] (weights d !! weight_key id.1 id.2)) "{" Harch).
  - fold (table_weights d a).
    rewrite (for_each_ext _
               (fun s w =>
                  text ← (q ← snn2mcu_value_cuantization bits w negatives_allowed;
                          Ok (pretty q));
                  Ok (s +:+ text +:+ String "," ""))).
    + rewrite (for_each_emit _ ","%char).
      destruct (mapM _ (table_weights d a)); reflexivity.
    + intros s w _.
      destruct (snn2mcu_value_cuantization bits w negatives_allowed) as [q|e] eqn:Hq;
        [|reflexivity].
      cbn [mbind result_bind]. rewrite str_small; [reflexivity|].
      pose proof (quantizer_result_small _ _ _ _ Hq).
      pose proof doubles_have_few_digits. lia.
  - intros l n s Hin. unfold has_all_weights in Hall.
    rewrite Forall_forall in Hall.
    destruct (Hall (l, n)) as [ws Hws]; [apply list_elem_of_In, Hin|].
    cbn [fst snd] in Hws. unfold get_weights. cbn [fst snd].
    rewrite Hws. reflexivity.
Qed.

(** C4 (corrected). On a parameter table with at least one weight, for a
    bit width and weights in the range of the doubles, the weights encoder
    yields what the specification describes: the weights in the order
    layers, neurons, stored order, each quantized and printed in decimal,
    joined by single commas and wrapped in braces, with no trailing comma
    and no header. *)
Theorem weights_artifact (d : param_dict) (a : list Z) (bits : Z)
    (negatives_allowed : bool) :
  has_architecture d a ->
  has_all_weights d a ->
  table_weights d a <> [] ->
  Forall (in_double_range bits negatives_allowed) (table_weights d a) ->
  snn2mcu_weights d bits negatives_allowed
  = Ok (encode_weights d a bits negatives_allowed).
Proof.
  intros Harch Hall Hne Hrange. rewrite (weights_text d a) by assumption.
  rewrite (mapM_Ok_fmap _ (fun w => pretty (quantize bits w negatives_allowed))).
  - cbn [mbind result_bind]. unfold encode_weights. f_equal.
    rewrite drop_last_trailed, string_app_assoc; [reflexivity|].
    intros Hnil. apply Hne. apply fmap_nil_inv in Hnil. exact Hnil.
  - apply (Forall_impl _ _ _ Hrange). intros w Hw.
    rewrite (quantize_value _ _ _ Hw). reflexivity.
Qed.

(** *** The thresholds and leakages artifacts *)

Lemma constant_body_Ok (d : param_dict) (a : list Z) (value : result Z) v :
  has_architecture d a -> value = Ok v -> Z.abs v < str_limit ->
  constant_body d value
  = Ok (String.concat " " (replicate (neuron_count a) (pretty v)) +:+ ";").
Proof.
  intros Harch -> Hv. unfold constant_body.
  rewrite (for_each_neuron_flat d a _
             (fun s (_ : unit) => q ← Ok v; text ← str q; Ok (s +:+ text +:+ " "))
             (fun _ => [()]) "" Harch)
    by (intros; cbn [for_each mbind result_bind]; destruct (str v); reflexivity).
  rewrite (for_each_ext _
             (fun s (_ : unit) => text ← Ok (pretty v);
                                  Ok (s +:+ text +:+ String " " "")))
    by (intros s x _; cbn [mbind result_bind]; rewrite str_small by assumption;
        reflexivity).
  rewrite (for_each_emit (fun _ : unit => Ok (pretty v)) " "%char), mapM_constant.
  cbn [mbind result_bind]. f_equal. f_equal.
  rewrite length_flat_map_sum.
  replace (sum_list_with (fun _ : Z * Z => length [()]) (neuron_ids a))
    with (neuron_count a).
  - change ("" +:+ ?x) with x. rewrite drop_last_trailed_all. reflexivity.
  - rewrite <- neuron_ids_length. induction (neuron_ids a) as [|x xs IH];
      [reflexivity|]. cbn [length sum_list_with]. rewrite IH. reflexivity.
Qed.

Lemma constant_per_neuron_Ok (d : param_dict) (a : list Z) (value : result Z) v :
  has_architecture d a -> value = Ok v -> Z.abs v < str_limit ->
  constant_per_neuron d value = Ok (encode_constant a v).
Proof.
  intros Harch Hvalue Hv. unfold constant_per_neuron.
  rewrite (constant_body_Ok d a value v) by assumption. reflexivity.
Qed.

Lemma threshold_value_nonneg (b : Z) : 0 <= b -> threshold_value b = Ok (2 ^ b - 1).
Proof.
  intros Hb. unfold threshold_value, pow2.
  destruct (Z.leb_spec 0 b); [reflexivity|lia].
Qed.

(** [2^14284] is the last power of two with 4300 digits. *)
Lemma threshold_has_few_digits (b : Z) :
  0 <= b <= 14284 -> Z.abs (2 ^ b - 1) < str_limit.
Proof.
  intros Hb.
  assert (H2 : 2 ^ b <= 2 ^ 14284) by (apply Z.pow_le_mono_r; lia).
  assert (H3 : 0 < 2 ^ b) by (apply Z.pow_pos_nonneg; lia).
  remember (2 ^ 14284) as c eqn:Ec.
  assert (H1 : c < str_limit) by (subst c; vm_compute; reflexivity).
  lia.
Qed.

(** C6 (corrected). On a parameter table, for a bit width
    [0 <= b <= 14284], the thresholds encoder yields the two header lines,
    then [2^b - 1] in decimal once per neuron, separated by spaces, then a
    semicolon; for the architecture [3, 2, 1] and [b = 4] these are six
    times 15. *)
Theorem thresholds_artifact (d : param_dict) (a : list Z) (b : Z) :
  has_architecture d a -> 0 <= b <= 14284 ->
  snn2mcu_thresholds d b = Ok (encode_constant a (2 ^ b - 1)) /\
  (a = [3; 2; 1] -> b = 4 ->
   snn2mcu_thresholds d b
   = Ok ("memory_initialization_radix=10;" +:+
         String "010"%char
           "memory_initialization_vector=15 15 15 15 15 15;")).
Proof.
  intros Harch Hb.
  assert (Hgen : snn2mcu_thresholds d b = Ok (encode_constant a (2 ^ b - 1))).
  { apply constant_per_neuron_Ok; [assumption| |].
    - apply threshold_value_nonneg. lia.
    - apply threshold_has_few_digits, Hb. }
  split; [exact Hgen|]. intros -> ->. rewrite Hgen. reflexivity.
Qed.

Lemma leakage_value_small (b : Z) :
  0 <= b <= 58 -> leakage_value b = Ok (2 ^ b / 100).
Proof.
  intros Hb.
  assert (Hall : forallb (fun b =>
      match leakage_value b with
      | Ok v => v =? 2 ^ b / 100
      | Raise _ => false
      end) (seqZ 0 59) = true) by (vm_compute; reflexivity).
  rewrite forallb_forall in Hall.
  assert (Hin : In b (seqZ 0 59)) by (apply list_elem_of_In, elem_of_seqZ; lia).
  apply Hall in Hin. destruct (leakage_value b) as [v|]; [|discriminate].
  apply Z.eqb_eq in Hin. congruence.
Qed.

Lemma leakage_has_few_digits (b : Z) :
  0 <= b <= 1030 -> Z.abs (2 ^ b / 100) < str_limit.
Proof.
  intros Hb.
  assert (H2 : 2 ^ b <= 2 ^ 1030) by (apply Z.pow_le_mono_r; lia).
  assert (H3 : 0 < 2 ^ b) by (apply Z.pow_pos_nonneg; lia).
  assert (H4 : 0 <= 2 ^ b / 100) by (apply Z.div_pos; lia).
  assert (H5 : 2 ^ b / 100 <= 2 ^ b) by (apply Z.div_le_upper_bound; lia).
  remember (2 ^ 1030) as c eqn:Ec.
  assert (H1 : c < str_limit) by (subst c; vm_compute; reflexivity).
  lia.
Qed.

(** C7 (corrected). On a parameter table, for a bit width
    [1 <= b <= 58], the leakages encoder yields the header and grammar of
    the thresholds artifact with the constant [floor(2^b / 100)] once per
    neuron. *)
Theorem leakages_artifact (d : param_dict) (a : list Z) (b : Z) :
  has_architecture d a -> 1 <= b <= 58 ->
  snn2mcu_leakages d b = Ok (encode_constant a (2 ^ b / 100)).
Proof.
  intros Harch Hb. apply constant_per_neuron_Ok; [assumption| |].
  - apply leakage_value_small. lia.
  - apply leakage_has_few_digits. lia.
Qed.

End Encoders.

(** * Edges, failures and the driver *)

(** ** The quantizer: signs, infinities and bit widths *)

Section QuantizerEdges.

(** Rounding keeps the sign it is given. *)
Lemma binary_round_aux_sign (s : bool) (m e : Z) (l : location) :
  match binary_round_aux prec emax s m e l with
  | S754_finite s' _ _ => s' = s
  | _ => True
  end.
Proof.
  unfold binary_round_aux.
  destruct (shr_fexp prec emax m e l) as [mrs' e'].
  destruct (shr_fexp prec emax _ e' loc_Exact) as [mrs'' e''].
  destruct (shr_m mrs''); [exact I| |exact I].
  destruct (e'' <=? emax - prec); [reflexivity|exact I].
Qed.

Lemma binary_round_not_negative (m : positive) (e : Z) :
  not_negative (binary_round prec emax false m e) = true.
Proof.
  unfold binary_round. destruct (shl_align _ _ _) as [mz ez].
  pose proof (binary_round_aux_sign false (Zpos mz) ez loc_Exact) as H.
  destruct (binary_round_aux _ _ _ _ _ _); try reflexivity. cbn. rewrite H. reflexivity.
Qed.

Lemma of_int_not_negative (z : Z) (f : float) :
  0 <= z -> of_int z = Ok f -> not_negative f = true.
Proof.
  intros Hz. unfold of_int, binary_normalize. destruct z as [|p|p]; try lia.
  - intros [= <-]. reflexivity.
  - pose proof (binary_round_not_negative p 0) as H.
    destruct (binary_round prec emax false p 0); intros [= <-]; exact H.
Qed.

Lemma mul_not_negative (x y : float) :
  not_negative x = true -> not_negative y = true -> not_negative (mul x y) = true.
Proof.
  destruct x as [| | |sx mx ex], y as [| | |sy my ey]; try reflexivity.
  cbn [not_negative]. intros Hx Hy.
  apply negb_true_iff in Hx, Hy. subst. unfold mul, SFmul. cbn [xorb].
  pose proof (binary_round_aux_sign false (Zpos (mx * my)) (ex + ey) loc_Exact) as H.
  destruct (binary_round_aux _ _ _ _ _ _); try reflexivity. cbn. rewrite H. reflexivity.
Qed.

Lemma pow2_mul_not_negative (bits : Z) (n : pynum) (v p : float) :
  not_negative v = true ->
  pow2 bits = Ok n ->
  num_mul_float n v = Ok p -> not_negative p = true.
Proof.
  intros Hv. unfold pow2, num_mul_float. destruct (Z.leb_spec 0 bits).
  - intros [= <-]. destruct (of_int (2 ^ bits)) as [x|] eqn:Hx; [|discriminate].
    cbn. intros [= <-]. apply mul_not_negative; [|exact Hv].
    apply (of_int_not_negative (2 ^ bits)); [apply Z.pow_nonneg; lia|exact Hx].
  - destruct (of_int bits); [|discriminate]. cbn [mbind result_bind].
    intros [= <-] [= <-]. apply mul_not_negative; [|exact Hv].
    apply binary_round_not_negative.
Qed.

Lemma trunc_scaled_nonneg (m e : Z) : 0 <= m -> 0 <= trunc_scaled m e.
Proof.
  intros Hm. unfold trunc_scaled. destruct (Z.leb_spec 0 e).
  - apply Z.mul_nonneg_nonneg; [exact Hm|apply Z.pow_nonneg; lia].
  - apply Z.quot_pos; [exact Hm|]. apply Z.pow_pos_nonneg; lia.
Qed.

Lemma to_int_not_negative (f : float) (z : Z) :
  not_negative f = true -> to_int f = Ok z -> 0 <= z.
Proof.
  destruct f as [s| | |s m e]; cbn; try discriminate.
  - intros _ [= <-]. lia.
  - intros Hs [= <-]. apply negb_true_iff in Hs. subst s.
    apply trunc_scaled_nonneg. cbn. lia.
Qed.

Lemma clamp_not_negative (v : float) :
  not_negative (if ltb v zero then zero else v) = true.
Proof. destruct v as [[]|[]| |[] m e]; reflexivity. Qed.

(** X1. Without negatives the quantizer never returns a negative integer,
    whatever the bit width and the float. *)
Theorem quantize_unsigned_never_negative (b : Z) (v : float) (z : Z) :
  snn2mcu_value_cuantization b v false = Ok z -> 0 <= z.
Proof.
  unfold snn2mcu_value_cuantization. cbn [negb].
  intros Hq. apply bind_Ok in Hq as (n & Hn & Hq).
  apply bind_Ok in Hq as (p & Hp & Hz).
  apply (to_int_not_negative p); [|exact Hz].
  apply (pow2_mul_not_negative b n _ p (clamp_not_negative v) Hn Hp).
Qed.

(** *** Non-finite weights *)

Lemma mul_not_finite (x v : float) :
  is_finite v = false -> is_finite (mul x v) = false.
Proof. destruct x as [| | |sx mx ex], v as [| | |sv mv ev]; try discriminate; reflexivity. Qed.

Lemma to_int_not_finite (f : float) :
  is_finite f = false -> exists e, to_int f = Raise e.
Proof. destruct f; try discriminate; cbn; eauto. Qed.

Lemma scale_not_finite (bits : Z) (v : float) :
  is_finite v = false ->
  exists e, (n ← pow2 bits; p ← num_mul_float n v; to_int p) = Raise e.
Proof.
  intros Hv. unfold num_mul_float.
  destruct (pow2 bits) as [[z|x]|e]; cbn [mbind result_bind]; [| |eauto].
  - destruct (of_int z) as [x|e]; [|cbn; eauto].
    cbn [mbind result_bind]. apply to_int_not_finite, mul_not_finite, Hv.
  - apply to_int_not_finite, mul_not_finite, Hv.
Qed.

(** X2. A NaN or an infinite weight is never quantized: the quantizer
    raises, except that without negatives minus infinity is clamped like any
    negative number. *)
Theorem quantize_not_finite_raises (b : Z) (v : float) (negatives_allowed : bool) :
  is_finite v = false ->
  negatives_allowed = true \/ v <> S754_infinity true ->
  exists e, snn2mcu_value_cuantization b v negatives_allowed = Raise e.
Proof.
  intros Hv Hcase. unfold snn2mcu_value_cuantization.
  destruct negatives_allowed; cbn [negb].
  - apply scale_not_finite, Hv.
  - destruct Hcase as [Hcase|Hcase]; [discriminate|].
    replace (if ltb v zero then zero else v) with v.
    + apply scale_not_finite, Hv.
    + destruct v as [|[]| |]; try discriminate; try reflexivity. congruence.
Qed.

(** *** Bit widths past the range of doubles *)

Lemma of_int_pow2_large (k : Z) :
  52 <= k ->
  of_int (2 ^ k)
  = if k <=? 1023 then Ok (S754_finite false 4503599627370496 (k - 52))
    else Raise OverflowError.
Proof.
  intros Hk. unfold of_int, binary_normalize.
  assert (Hpos : 0 < 2 ^ k) by (apply Z.pow_pos_nonneg; lia).
  destruct (2 ^ k) as [|p|p] eqn:Ep; try lia.
  assert (Hdig : Zpos (digits2_pos p) = k + 1).
  { rewrite digits2_pos_log2, <- Ep, Z.log2_pow2 by lia. reflexivity. }
  unfold binary_round, shl_align. rewrite Hdig.
  replace (fexp prec emax (k + 1 + 0) - 0) with (k - 52)
    by (unfold fexp, emin, prec, emax; lia).
  destruct (k - 52) as [|d|d] eqn:Ed; try lia.
  - assert (k = 52) as -> by lia. injection Ep as <-. reflexivity.
  - assert (Hsplit : Zpos p = Zpos 4503599627370496 * 2 ^ (k - 52)).
    { rewrite <- Ep. change (Zpos 4503599627370496) with (2 ^ 52).
      rewrite <- Z.pow_add_r by lia. f_equal. lia. }
    rewrite Hsplit, binary_round_aux_exact.
    + replace (0 + (k - 52) <=? emax - prec) with (k <=? 1023).
      * destruct (k <=? 1023); [|reflexivity]. rewrite Z.add_0_l, ?Ed. reflexivity.
      * unfold emax, prec. destruct (Z.leb_spec k 1023), (Z.leb_spec (0 + (k - 52)) (1024 - 53)); lia.
    + lia.
    + rewrite Zdigits2_mul_pow2 by lia. unfold fexp, emin, prec, emax. cbn [Zdigits2 digits2_pos]. lia.
Qed.

(** X3. From 1024 bits on (1025 with negatives) the quantizer raises
    [OverflowError] on every float, zero included. *)
Theorem quantize_too_many_bits (b : Z) (v : float) (negatives_allowed : bool) :
  (if negatives_allowed then 1025 else 1024) <= b ->
  snn2mcu_value_cuantization b v negatives_allowed = Raise OverflowError.
Proof.
  intros Hb. unfold snn2mcu_value_cuantization.
  destruct negatives_allowed; cbn [negb]; unfold pow2.
  - destruct (Z.leb_spec 0 (b - 1)); [|lia].
    cbn [mbind result_bind num_mul_float].
    rewrite of_int_pow2_large by lia.
    destruct (Z.leb_spec (b - 1) 1023); [lia|reflexivity].
  - destruct (Z.leb_spec 0 b); [|lia].
    cbn [mbind result_bind num_mul_float].
    rewrite of_int_pow2_large by lia.
    destruct (Z.leb_spec b 1023); [lia|reflexivity].
Qed.

End QuantizerEdges.

(** ** The quantizer: the two modes side by side *)

Section QuantizerRange.

Lemma trunc_scaled_half (m e : Z) :
  0 <= m -> trunc_scaled m (e - 1) = trunc_scaled m e / 2.
Proof.
  intros Hm. unfold trunc_scaled.
  destruct (Z.leb_spec 0 (e - 1)), (Z.leb_spec 0 e); try lia.
  - replace e with (e - 1 + 1) at 2 by lia.
    rewrite Z.pow_add_r, Z.pow_1_r, Z.mul_assoc by lia.
    rewrite Z.div_mul by lia. reflexivity.
  - assert (e = 0) as -> by lia. cbn [Z.opp Z.sub Z.add Z.pow Z.pow_pos Pos.iter Z.mul Pos.mul].
    rewrite Z.mul_1_r. apply Z.quot_div_nonneg; lia.
  - assert (Hp : 0 < 2 ^ (- e)) by (apply Z.pow_pos_nonneg; lia).
    replace (- (e - 1)) with (- e + 1) by lia.
    rewrite Z.pow_add_r, Z.pow_1_r by lia.
    rewrite !Z.quot_div_nonneg by lia.
    rewrite Z.div_div by lia. reflexivity.
Qed.

Lemma trunc_scaled_opp (m e : Z) : trunc_scaled (- m) e = - trunc_scaled m e.
Proof.
  unfold trunc_scaled. destruct (Z.leb_spec 0 e); [apply Z.mul_opp_l|].
  apply Z.quot_opp_l. apply Z.pow_nonzero; lia.
Qed.

(** A value below one, scaled by [2^k] and truncated, is below [2^k]. *)
Lemma trunc_scaled_below (m e k : Z) :
  0 <= m -> e < 0 -> m < 2 ^ (- e) -> 0 <= k ->
  0 <= trunc_scaled m (e + k) < 2 ^ k.
Proof.
  intros Hm He Hlt Hk. split; [apply trunc_scaled_nonneg, Hm|].
  unfold trunc_scaled. destruct (Z.leb_spec 0 (e + k)).
  - replace (2 ^ k) with (2 ^ (- e) * 2 ^ (e + k))
      by (rewrite <- Z.pow_add_r by lia; f_equal; lia).
    apply Z.mul_lt_mono_pos_r; [apply Z.pow_pos_nonneg; lia|exact Hlt].
  - assert (Hp : 0 < 2 ^ (- (e + k))) by (apply Z.pow_pos_nonneg; lia).
    rewrite Z.quot_div_nonneg by lia.
    apply Z.div_lt_upper_bound; [exact Hp|].
    replace (2 ^ (- (e + k)) * 2 ^ k) with (2 ^ (- e))
      by (rewrite <- Z.pow_add_r by lia; f_equal; lia).
    exact Hlt.
Qed.

(** What [|v| < 1] says about the mantissa and the exponent. *)
Lemma below_one (s : bool) (m : positive) (e : Z) :
  (Qabs (to_Q (S754_finite s m e)) < 1)%Q ->
  e < 0 /\ Zpos m < 2 ^ (- e) /\ Zdigits2 (Zpos m) + e <= 0.
Proof.
  rewrite Qabs_to_Q. unfold pow2Q, Qlt.
  destruct (Z.leb_spec 0 e); cbn [Qnum Qden Qmult inject_Z].
  - rewrite !Z.mul_1_r. intros Hlt.
    assert (0 < 2 ^ e) by (apply Z.pow_pos_nonneg; lia). nia.
  - rewrite !Z.mul_1_r, Pos.mul_1_l, Z.mul_1_l, pow2_to_pos by lia.
    intros Hlt. split; [assumption|]. split; [assumption|].
    pose proof (digits_lower_bound m) as Hlow.
    destruct (Z.le_gt_cases (Zdigits2 (Zpos m) + e) 0) as [|Hgt]; [assumption|exfalso].
    assert (2 ^ (- e) <= 2 ^ (Zdigits2 (Zpos m) - 1)) by (apply Z.pow_le_mono_r; lia).
    lia.
Qed.

(** The quantizer on a finite, non-zero double, in range. *)
Lemma quantizer_on_positive (b : Z) (m : positive) (e : Z) :
  bounded prec emax m e = true -> 0 <= b <= 1023 ->
  Zdigits2 (Zpos m) + e + b <= 1024 ->
  snn2mcu_value_cuantization b (S754_finite false m e) false
  = Ok (trunc_scaled (Zpos m) (e + b)).
Proof.
  intros Hv Hb Hd. unfold snn2mcu_value_cuantization. cbn [negb].
  change (ltb (S754_finite false m e) zero) with false. cbv iota.
  change (mbind to_int ?x) with (x ≫= to_int).
  rewrite scale_to_int by assumption. reflexivity.
Qed.

Lemma quantizer_on_clamped (b : Z) (m : positive) (e : Z) :
  0 <= b <= 1023 ->
  snn2mcu_value_cuantization b (S754_finite true m e) false = Ok 0.
Proof.
  intros Hb. unfold snn2mcu_value_cuantization. cbn [negb].
  change (ltb (S754_finite true m e) zero) with true. cbv iota.
  change (mbind to_int ?x) with (x ≫= to_int).
  unfold zero. rewrite scale_zero_to_int by assumption. reflexivity.
Qed.

Lemma quantizer_on_signed (b : Z) (s : bool) (m : positive) (e : Z) :
  bounded prec emax m e = true -> 1 <= b <= 1024 ->
  Zdigits2 (Zpos m) + e + (b - 1) <= 1024 ->
  snn2mcu_value_cuantization b (S754_finite s m e) true
  = Ok (trunc_scaled (cond_Zopp s (Zpos m)) (e + (b - 1))).
Proof.
  intros Hv Hb Hd. unfold snn2mcu_value_cuantization. cbn [negb].
  change (mbind to_int ?x) with (x ≫= to_int).
  rewrite scale_to_int by (try assumption; lia). reflexivity.
Qed.

Lemma quantizer_on_zero (b : Z) (s neg : bool) :
  1 <= b <= 1023 ->
  snn2mcu_value_cuantization b (S754_zero s) neg = Ok 0.
Proof.
  intros Hb. unfold snn2mcu_value_cuantization. destruct neg; cbn [negb].
  - change (mbind to_int ?x) with (x ≫= to_int).
    rewrite scale_zero_to_int by lia. reflexivity.
  - change (ltb (S754_zero s) zero) with false. cbv iota.
    change (mbind to_int ?x) with (x ≫= to_int).
    rewrite scale_zero_to_int by lia. reflexivity.
Qed.

(** X4. For a float that is not negative the signed quantization is the
    unsigned one halved: the negatives artifact has one bit less. *)
Theorem signed_is_unsigned_halved (b : Z) (v : float) :
  1 <= b <= 1023 ->
  valid v = true ->
  is_finite v = true ->
  ltb v zero = false ->
  (to_Q v * pow2Q b < pow2Q 1024)%Q ->
  exists q, snn2mcu_value_cuantization b v false = Ok q /\
            snn2mcu_value_cuantization b v true = Ok (q / 2).
Proof.
  intros Hb Hv Hfin Hsign Hrange.
  destruct v as [s| | |[] m e]; try discriminate.
  - exists 0. rewrite !quantizer_on_zero by lia. auto.
  - cbn [to_Q cond_Zopp] in Hrange.
    pose proof (no_overflow_exponent m e b ltac:(lia) Hrange) as Hd.
    exists (trunc_scaled (Zpos m) (e + b)).
    rewrite quantizer_on_positive, quantizer_on_signed by (try exact Hv; lia).
    cbn [cond_Zopp]. split; [reflexivity|]. f_equal.
    replace (e + (b - 1)) with (e + b - 1) by lia.
    apply trunc_scaled_half. lia.
Qed.

(** X5. A weight of magnitude below one fits the bit width: [b] bits
    unsigned without negatives, [b] bits with sign with negatives. *)
Theorem fractions_fit_the_bit_width (b : Z) (v : float) :
  1 <= b <= 1023 ->
  valid v = true ->
  is_finite v = true ->
  (Qabs (to_Q v) < 1)%Q ->
  exists u s,
    snn2mcu_value_cuantization b v false = Ok u /\ 0 <= u < 2 ^ b /\
    snn2mcu_value_cuantization b v true = Ok s /\
    - 2 ^ (b - 1) < s < 2 ^ (b - 1).
Proof.
  intros Hb Hv Hfin Hone.
  assert (Hpb : 0 < 2 ^ b) by (apply Z.pow_pos_nonneg; lia).
  assert (Hpb1 : 0 < 2 ^ (b - 1)) by (apply Z.pow_pos_nonneg; lia).
  destruct v as [s| | |s m e]; try discriminate.
  - exists 0, 0. rewrite !quantizer_on_zero by lia. repeat split; lia.
  - destruct (below_one s m e Hone) as (He & Hm & Hd).
    pose proof (trunc_scaled_below (Zpos m) e b ltac:(lia) He Hm ltac:(lia)) as Hu.
    pose proof (trunc_scaled_below (Zpos m) e (b - 1) ltac:(lia) He Hm ltac:(lia)) as Hs.
    rewrite (quantizer_on_signed b s m e) by (try exact Hv; lia).
    destruct s; cbn [cond_Zopp].
    + exists 0, (- trunc_scaled (Zpos m) (e + (b - 1))).
      rewrite quantizer_on_clamped by lia.
      change (- Zpos m) with (- (Zpos m)). rewrite trunc_scaled_opp.
      repeat split; try reflexivity; lia.
    + exists (trunc_scaled (Zpos m) (e + b)), (trunc_scaled (Zpos m) (e + (b - 1))).
      rewrite quantizer_on_positive by (try exact Hv; lia).
      repeat split; try reflexivity; lia.
Qed.

End QuantizerRange.

(** ** The quantizer: when the product is no double *)

Section QuantizerOverflow.

Lemma digits_upper_bound (m : positive) : Zpos m < 2 ^ Zdigits2 (Zpos m).
Proof.
  simpl Zdigits2. rewrite digits2_pos_log2.
  apply Z.log2_spec. lia.
Qed.

(** A product that fits a double is below [2^1024]. *)
Lemma exponent_no_overflow (m : positive) (e k : Z) :
  0 <= k ->
  Zdigits2 (Zpos m) + e + k <= 1024 ->
  (inject_Z (Zpos m) * pow2Q e * pow2Q k < pow2Q 1024)%Q.
Proof.
  intros Hk Hd. unfold pow2Q at 2. destruct (Z.leb_spec 0 k); [|lia].
  change (pow2Q 1024) with (inject_Z (2 ^ 1024)).
  pose proof (digits_upper_bound m) as Hup.
  set (d := Zdigits2 (Zpos m)) in *.
  assert (Hd1 : 1 <= d) by (subst d; simpl; lia).
  unfold pow2Q, Qlt. destruct (Z.leb_spec 0 e); cbn [Qnum Qden Qmult inject_Z].
  - rewrite !Z.mul_1_r.
    assert (2 ^ d * 2 ^ e * 2 ^ k <= 2 ^ 1024).
    { rewrite <- !Z.pow_add_r by lia. apply Z.pow_le_mono_r; lia. }
    assert (Zpos m * 2 ^ e * 2 ^ k < 2 ^ d * 2 ^ e * 2 ^ k).
    { apply Z.mul_lt_mono_pos_r; [apply Z.pow_pos_nonneg; lia|].
      apply Z.mul_lt_mono_pos_r; [apply Z.pow_pos_nonneg; lia|]. assumption. }
    lia.
  - rewrite !Z.mul_1_r, !Pos.mul_1_l, !Pos.mul_1_r, pow2_to_pos by lia.
    assert (2 ^ d * 2 ^ k <= 2 ^ 1024 * 2 ^ (- e)).
    { rewrite <- !Z.pow_add_r by lia. apply Z.pow_le_mono_r; lia. }
    assert (Zpos m * 2 ^ k < 2 ^ d * 2 ^ k).
    { apply Z.mul_lt_mono_pos_r; [apply Z.pow_pos_nonneg; lia|]. assumption. }
    lia.
Qed.

Lemma quantizer_on_positive_overflow (b : Z) (m : positive) (e : Z) :
  bounded prec emax m e = true -> 0 <= b <= 1023 ->
  1024 < Zdigits2 (Zpos m) + e + b ->
  snn2mcu_value_cuantization b (S754_finite false m e) false = Raise OverflowError.
Proof.
  intros Hv Hb Hd. unfold snn2mcu_value_cuantization. cbn [negb].
  change (ltb (S754_finite false m e) zero) with false. cbv iota.
  change (mbind to_int ?x) with (x ≫= to_int).
  apply scale_overflow; assumption.
Qed.

(** X6. Without negatives, on a finite double and a bit width the doubles
    can hold, the quantizer returns a number exactly when the clamped value
    times [2^b] is below [2^1024]; otherwise the product is infinite and it
    raises [OverflowError]. *)
Theorem quantize_unsigned_range (b : Z) (v : float) :
  1 <= b <= 1023 ->
  valid v = true ->
  is_finite v = true ->
  ((exists z, snn2mcu_value_cuantization b v false = Ok z) <->
   (Qmax (to_Q v) 0 * pow2Q b < pow2Q 1024)%Q) /\
  ((exists z, snn2mcu_value_cuantization b v false = Ok z) \/
   snn2mcu_value_cuantization b v false = Raise OverflowError).
Proof.
  intros Hb Hv Hfin.
  assert (Hzero : (0 * pow2Q b < pow2Q 1024)%Q).
  { unfold pow2Q. destruct (Z.leb_spec 0 b); [|lia]. reflexivity. }
  destruct v as [s| | |[] m e]; try discriminate.
  - rewrite quantizer_on_zero by lia. split; [|eauto].
    split; [intros _; exact Hzero|eauto].
  - rewrite quantizer_on_clamped by lia. split; [|eauto].
    rewrite Qmax_0_neg; [split; [intros _; exact Hzero|eauto]|].
    pose proof (pow2Q_num_pos e). cbn [to_Q Qnum Qmult inject_Z cond_Zopp Z.opp]. nia.
  - rewrite Qmax_0_pos
      by (pose proof (pow2Q_num_pos e); cbn [to_Q Qnum Qmult inject_Z cond_Zopp]; nia).
    cbn [to_Q cond_Zopp].
    destruct (Z.le_gt_cases (Zdigits2 (Zpos m) + e + b) 1024) as [Hd|Hd].
    + rewrite quantizer_on_positive by (try exact Hv; lia). split; [|eauto].
      split; [intros _; apply exponent_no_overflow; lia|eauto].
    + rewrite quantizer_on_positive_overflow by (try exact Hv; lia). split; [|auto].
      split; [intros [z Hz]; discriminate|].
      intros Hlt. apply no_overflow_exponent in Hlt; lia.
Qed.

End QuantizerOverflow.

(** ** Parameter names: the layer index *)

Section Names.

Lemma pretty_N_char_is_digit (x : N) : is_digit (pretty_N_char x) = true.
Proof. unfold pretty_N_char. repeat case_match; reflexivity. Qed.

Lemma pretty_N_char_value (x : N) :
  (x < 10)%N -> digit_value (pretty_N_char x) = Z.of_N x.
Proof.
  intros Hx.
  assert (x = 0 \/ x = 1 \/ x = 2 \/ x = 3 \/ x = 4 \/ x = 5 \/ x = 6
          \/ x = 7 \/ x = 8 \/ x = 9)%N as Hcases by lia.
  repeat (destruct Hcases as [->|Hcases]; [reflexivity|]). subst. reflexivity.
Qed.

Lemma pretty_N_go_digits (x : N) : forall s,
  all_chars is_digit s = true -> all_chars is_digit (pretty_N_go x s) = true.
Proof.
  induction (N.lt_wf_0 x) as [x _ IH]. intros s Hs.
  destruct (decide (0 < x)%N) as [Hx|Hx].
  - rewrite pretty_N_go_step by assumption. apply IH.
    + apply N.div_lt; [assumption | reflexivity].
    + cbn [all_chars]. rewrite pretty_N_char_is_digit. exact Hs.
  - replace x with 0%N by lia. exact Hs.
Qed.

Lemma pretty_N_go_nonempty (x : N) : forall s,
  s <> "" -> pretty_N_go x s <> "".
Proof.
  induction (N.lt_wf_0 x) as [x _ IH]. intros s Hs.
  destruct (decide (0 < x)%N) as [Hx|Hx].
  - rewrite pretty_N_go_step by assumption. apply IH.
    + apply N.div_lt; [assumption | reflexivity].
    + discriminate.
  - replace x with 0%N by lia. exact Hs.
Qed.

(** Reading back the digits that [str] wrote. *)
Lemma int_of_digits_from_pretty_N_go (x : N) :
  exists p, forall acc s,
    int_of_digits_from acc (pretty_N_go x s)
    = int_of_digits_from (acc * p + Z.of_N x) s.
Proof.
  induction (N.lt_wf_0 x) as [x _ IH].
  destruct (decide (0 < x)%N) as [Hx|Hx].
  - destruct (IH (x `div` 10)%N) as [p Hp].
    { apply N.div_lt; [assumption | reflexivity]. }
    exists (10 * p). intros acc s.
    rewrite pretty_N_go_step, Hp by assumption. cbn [int_of_digits_from].
    rewrite pretty_N_char_value by (apply N.mod_lt; lia). f_equal.
    rewrite (N.div_mod x 10) at 3 by lia.
    rewrite N2Z.inj_add, N2Z.inj_mul. change (Z.of_N 10) with 10. lia.
  - replace x with 0%N by lia. exists 1. intros acc s.
    rewrite pretty_N_go_0. f_equal. change (Z.of_N 0) with 0. lia.
Qed.

Lemma int_of_digits_pretty_N (x : N) : int_of_digits (pretty x) = Z.of_N x.
Proof.
  unfold pretty, pretty_N. case_decide as Hx; [subst; reflexivity|].
  destruct (int_of_digits_from_pretty_N_go x) as [p Hp].
  unfold int_of_digits. rewrite Hp. cbn [int_of_digits_from]. lia.
Qed.

Lemma pretty_N_digits (x : N) :
  all_chars is_digit (pretty x) = true /\ pretty x <> "".
Proof.
  unfold pretty, pretty_N. case_decide; [split; [reflexivity|discriminate]|].
  split.
  - apply pretty_N_go_digits. reflexivity.
  - destruct x as [|q]; [congruence|].
    rewrite pretty_N_go_step by lia. apply pretty_N_go_nonempty. discriminate.
Qed.

Lemma pretty_Z_as_N (n : Z) : 0 <= n -> pretty n = pretty (Z.to_N n).
Proof. intros Hn. destruct n as [|q|q]; try lia; reflexivity. Qed.

Lemma take_digits_app (ds rest : string) :
  all_chars is_digit ds = true -> no_leading_digit rest = true ->
  take_digits (ds +:+ rest) = ds.
Proof.
  intros Hds Hrest. induction ds as [|c ds IH].
  - destruct rest as [|c rest]; [reflexivity|].
    cbn in Hrest. unfold not_digit in Hrest. apply negb_true_iff in Hrest.
    change ("" +:+ String c rest) with (String c rest).
    cbn [take_digits]. rewrite Hrest. reflexivity.
  - cbn [all_chars] in Hds. apply andb_prop in Hds as [Hc Hds].
    change (String c ds +:+ rest) with (String c (ds +:+ rest)).
    cbn [take_digits]. rewrite Hc, IH by assumption. reflexivity.
Qed.

Lemma first_digit_run_app (prefix ds rest : string) :
  all_chars not_digit prefix = true ->
  all_chars is_digit ds = true -> ds <> "" ->
  no_leading_digit rest = true ->
  first_digit_run (prefix +:+ ds +:+ rest) = Some ds.
Proof.
  intros Hprefix Hds Hne Hrest. induction prefix as [|c prefix IH].
  - change ("" +:+ ds +:+ rest) with (ds +:+ rest).
    destruct ds as [|c ds]; [congruence|].
    cbn [all_chars] in Hds. apply andb_prop in Hds as [Hc Hds].
    change (String c ds +:+ rest) with (String c (ds +:+ rest)).
    cbn [first_digit_run]. rewrite Hc, take_digits_app by assumption. reflexivity.
  - cbn [all_chars] in Hprefix. apply andb_prop in Hprefix as [Hc Hprefix].
    unfold not_digit in Hc. apply negb_true_iff in Hc.
    change (String c prefix +:+ ds +:+ rest) with (String c (prefix +:+ ds +:+ rest)).
    cbn [first_digit_run]. rewrite Hc. apply IH, Hprefix.
Qed.

Lemma pretty_N_go_length (x : N) : forall (k : nat) (s : string),
  (x < 10 ^ N.of_nat k)%N ->
  (String.length (pretty_N_go x s) <= String.length s + k)%nat.
Proof.
  induction (N.lt_wf_0 x) as [x _ IH]. intros k s Hx.
  destruct (decide (0 < x)%N) as [Hpos|Hzero].
  - rewrite pretty_N_go_step by assumption.
    destruct k as [|k]; [cbn in Hx; lia|].
    etransitivity; [apply (IH (x `div` 10)%N) with (k := k)|cbn [String.length]; lia].
    + apply N.div_lt; [assumption|reflexivity].
    + apply N.Div0.div_lt_upper_bound.
      rewrite Nat2N.inj_succ, N.pow_succ_r' in Hx. exact Hx.
  - replace x with 0%N by lia. rewrite pretty_N_go_0. lia.
Qed.

Lemma str_limit_N : Z.to_N str_limit = (10 ^ N.of_nat 4300)%N.
Proof. vm_compute. reflexivity. Qed.

(** A number below [10^4300] has at most 4300 digits. *)
Lemma pretty_N_length (x : N) :
  (x < Z.to_N str_limit)%N -> (String.length (pretty x) <= 4300)%nat.
Proof.
  intros Hx. unfold pretty, pretty_N. case_decide; [cbn; lia|].
  apply (pretty_N_go_length x 4300 ""). rewrite <- str_limit_N. exact Hx.
Qed.

(** X7. The layer index travels through the name: a name made of a prefix
    without digits, the text that [str] gives for [n] and a rest that does
    not begin with a digit gives the layer [n]. *)
Theorem layer_of_indexed_name (prefix rest text : string) (n : Z) :
  0 <= n ->
  str n = Ok text ->
  all_chars not_digit prefix = true ->
  no_leading_digit rest = true ->
  layer_of_name (prefix +:+ text +:+ rest) = Ok n.
Proof.
  intros Hn Hstr Hprefix Hrest. unfold str in Hstr.
  destruct (Z.leb_spec (str_limit) (Z.abs n)) as [|Hsmall];
    [discriminate|].
  injection Hstr as <-. unfold layer_of_name.
  rewrite pretty_Z_as_N by assumption.
  destruct (pretty_N_digits (Z.to_N n)) as [Hds Hne].
  rewrite first_digit_run_app by assumption.
  assert (Hlen : (String.length (pretty (Z.to_N n)) <= 4300)%nat).
  { apply pretty_N_length. lia. }
  destruct (Z.ltb_spec max_str_digits (Z.of_nat (String.length (pretty (Z.to_N n)))))
    as [Hlong|_]; [unfold max_str_digits in Hlong; lia|].
  rewrite int_of_digits_pretty_N, Z2N.id by assumption. reflexivity.
Qed.

End Names.

(** ** The extractor: failures, filtering and content *)

Section ExtractorEdges.

Implicit Types (d : param_dict) (row : list float) (rows : tensor).

(** *** Entries that are not weights *)

Lemma walk_filter params : forall d d',
  for_each pure_param_step params d = Ok d' ->
  for_each pure_param_step (List.filter is_weight params) d = Ok d'.
Proof.
  induction params as [|[name rows] params IH]; intros d d' Hrun; [exact Hrun|].
  walk_step Hrun d1 Hstep. cbn [List.filter].
  destruct (is_weight (name, rows)) eqn:Hw.
  - rewrite for_each_cons, Hstep. apply IH, Hrun.
  - apply param_step_other in Hstep; [subst d1|assumption]. apply IH, Hrun.
Qed.

(** X9. Biases and other entries leave no trace: when extraction succeeds,
    the weight entries alone give the same table. *)
Theorem extractor_ignores_other_entries (params : list (string * tensor)) (t : param_dict) :
  snn2mcu_param_dict_extractor (matrices params) = Ok t ->
  snn2mcu_param_dict_extractor (matrices (List.filter is_weight params)) = Ok t.
Proof.
  rewrite !extractor_on_matrices.
  intros Hext. apply extractor_Ok in Hext as (d & Hwalk & Ht).
  rewrite (extractor_of_walk (List.filter is_weight params) d); [exact Ht|].
  apply walk_filter, Hwalk.
Qed.

(** *** When extraction succeeds *)

Lemma walk_names params : forall d d',
  for_each pure_param_step params d = Ok d' -> names_parse params.
Proof.
  induction params as [|[name rows] params IH]; intros d d' Hrun; [constructor|].
  walk_step Hrun d1 Hstep. constructor; [|eapply IH, Hrun].
  exact (param_step_layer _ _ _ _ Hstep).
Qed.

Lemma walk_first_weight params : forall d d' a,
  model_architecture d = None ->
  for_each pure_param_step params d = Ok d' ->
  model_architecture d' = Some a ->
  first_weight_seeds params.
Proof.
  induction params as [|[name rows] params IH]; intros d d' a Hd Hrun Ha.
  - injection Hrun as <-. congruence.
  - walk_step Hrun d1 Hstep. destruct (is_weight (name, rows)) eqn:Hw.
    + destruct (param_step_layer _ _ _ _ Hstep) as [layer Hlayer].
      rewrite (param_step_weight _ _ _ _ Hlayer Hw) in Hstep.
      rewrite neuron_loop_architecture in Hstep.
      destruct rows as [|row rows]; [rewrite Hd in Hstep; discriminate|].
      destruct (Z.eqb_spec 1 layer) as [Heq|_];
        [subst layer|rewrite Hd in Hstep; discriminate].
      exists [], name, (row :: rows), params.
      split; [reflexivity|]. split; [constructor|]. split; [assumption|].
      split; [assumption|discriminate].
    + apply param_step_other in Hstep; [subst d1|assumption].
      destruct (IH _ _ _ Hd Hrun Ha)
        as (pre & n & r & post & -> & Hpre & Hn & Hl & Hr).
      exists ((name, rows) :: pre), n, r, post.
      split; [reflexivity|]. split; [constructor; assumption|]. auto.
Qed.

(** X10. Extraction succeeds exactly when every name gives a layer index,
    every weight parameter can be read as rows of numbers, and the first
    weight parameter belongs to layer 1 and has a row. *)
Theorem extraction_succeeds_iff (params : list (string * torch_tensor)) :
  (exists t, snn2mcu_param_dict_extractor params = Ok t) <->
  names_parse params /\ weights_readable params /\
  first_weight_seeds (read_params params).
Proof.
  split.
  - intros [t Hext]. pose proof (extractor_Ok_readable _ _ Hext) as Hread.
    rewrite extractor_reads in Hext by assumption.
    apply extractor_Ok in Hext as (d & Hwalk & Ht).
    pose proof (add_input_layer_Ok _ _ Ht) as (a & _ & Ha & _ & _).
    split; [|split; [exact Hread|]].
    + apply names_parse_read. apply (walk_names _ empty_dict d), Hwalk.
    + apply (walk_first_weight _ empty_dict d a); [reflexivity|exact Hwalk|exact Ha].
  - intros (Hnames & Hread & pre & name & rows & post & Heq & Hpre & Hw & Hlayer & Hrows).
    rewrite extractor_reads by assumption.
    apply names_parse_read in Hnames. rewrite Heq in *.
    apply pure_extraction_succeeds; assumption.
Qed.

(** *** What the table holds *)

Lemma weight_tensors_app xs ys :
  weight_tensors (xs ++ ys) = weight_tensors xs ++ weight_tensors ys.
Proof. apply flat_map_app. Qed.

Lemma weight_tensors_skipped params :
  Forall (fun entry => is_weight entry = false) params -> weight_tensors params = [].
Proof.
  induction 1 as [|entry params Hw _ IH]; [reflexivity|].
  rewrite weight_tensors_cons, Hw, IH. reflexivity.
Qed.

(** X11. The rows of a tensor whose layer no other weight tensor names are
    stored as they are, one vector per neuron. *)
Theorem unique_layer_rows_stored
    (pre post : list (string * tensor)) name rows (layer : Z) (n : nat) row
    (t : param_dict) :
  snn2mcu_param_dict_extractor (matrices (pre ++ (name, rows) :: post)) = Ok t ->
  is_weight (name, rows) = true ->
  layer_of_name name = Ok layer ->
  layer <> 0 ->
  ~ In layer (weight_layers pre) ->
  ~ In layer (weight_layers post) ->
  rows !! n = Some row ->
  row <> [] ->
  weights t !! weight_key layer (Z.of_nat n) = Some row.
Proof.
  rewrite extractor_on_matrices.
  intros Hext Hw Hlayer Hnot0 Hpre Hpost Hrow Hne.
  apply extractor_Ok in Hext as (d & Hwalk & Ht).
  unfold pure_walk in Hwalk. rewrite for_each_app in Hwalk.
  apply bind_Ok in Hwalk as (d0 & Hd0 & Hwalk).
  walk_step Hwalk d1 Hstep.
  rewrite (add_input_layer_lookup _ _ layer _ Ht Hnot0).
  rewrite (walk_lookup_absent_layer layer _ post d1 d Hpost Hwalk).
  destruct (param_step_weight_Ok _ _ _ _ _ Hw Hlayer Hstep) as (a & _ & _ & _ & ->).
  pose proof (neuron_loop_lookup layer rows d0 0 n row Hrow Hne) as Hlook.
  rewrite Z.add_0_l in Hlook. rewrite Hlook.
  rewrite (walk_lookup_absent_layer layer _ pre empty_dict d0 Hpre Hd0).
  reflexivity.
Qed.

Lemma walk_architecture_exact params : forall d d' a,
  ~ In 1 (weight_layers params) ->
  model_architecture d = Some a ->
  for_each pure_param_step params d = Ok d' ->
  model_architecture d' = Some (a ++ (len <$> weight_tensors params)).
Proof.
  induction params as [|[name rows] params IH]; intros d d' a Hnot Ha Hrun.
  - injection Hrun as <-. cbn. rewrite app_nil_r. assumption.
  - walk_step Hrun d1 Hstep. rewrite weight_layers_cons in Hnot.
    assert (Hnot' : ~ In 1 (weight_layers params))
      by (intros Hin; apply Hnot, in_or_app; auto).
    rewrite weight_tensors_cons. destruct (is_weight (name, rows)) eqn:Hw.
    + destruct (param_step_layer _ _ _ _ Hstep) as [l Hl].
      destruct (param_step_weight_Ok _ _ _ _ _ Hw Hl Hstep) as (a1 & Ha1 & Hd1 & _ & _).
      assert (Hl1 : (1 =? l) = false).
      { apply Z.eqb_neq. intros <-. apply Hnot, in_or_app. left.
        rewrite (weight_layers_weight _ _ _ Hw Hl). left. reflexivity. }
      rewrite neuron_loop_architecture, Hl1 in Ha1.
      assert (a1 = a) by (destruct rows; congruence). subst a1.
      rewrite (IH d1 d' _ Hnot' Hd1 Hrun). cbn [fst snd app fmap list_fmap].
      rewrite <- app_assoc. reflexivity.
    + apply param_step_other in Hstep; [subst d1|assumption].
      cbn [app]. eapply IH; eassumption.
Qed.

(** X12. With a single tensor of layer 1, ['model_architecture'] is the
    number of columns of that tensor followed by the number of rows of every
    weight tensor, and ['number_of_layers'] is one more than the number of
    weight tensors. *)
Theorem architecture_lists_the_tensors (params : list (string * tensor)) (t : param_dict) :
  snn2mcu_param_dict_extractor (matrices params) = Ok t ->
  count_occ Z.eq_dec (weight_layers params) 1 = 1%nat ->
  exists row rows rest,
    weight_tensors params = (row :: rows) :: rest /\
    model_architecture t = Some (len row :: (len <$> weight_tensors params)) /\
    number_of_layers t = Some (1 + len (weight_tensors params)).
Proof.
  rewrite extractor_on_matrices.
  intros Hext Hone. apply extractor_Ok in Hext as (d & Hwalk & Ht).
  pose proof (add_input_layer_Ok _ _ Ht) as (a_d & _ & Ha_d & _ & _).
  destruct (seeded_walk_first_weight _ _ _ Hwalk Ha_d)
    as (pre & name & rows & post & -> & Hpre & Hw & Hl).
  clear a_d Ha_d.
  unfold pure_walk in Hwalk. rewrite for_each_app in Hwalk.
  apply bind_Ok in Hwalk as (d0 & Hd0 & Hwalk).
  apply walk_skipped in Hd0; [subst d0|assumption].
  walk_step Hwalk d1 Hstep.
  destruct (first_tensor_step _ _ _ Hw Hl Hstep) as (row & rest & -> & Ha1 & _ & _).
  rewrite weight_layers_app, weight_layers_cons in Hone.
  rewrite (weight_layers_skipped _ Hpre), (weight_layers_weight _ _ _ Hw Hl) in Hone.
  cbn in Hone. injection Hone as Hone. apply count_occ_not_In in Hone.
  pose proof (walk_architecture_exact _ _ _ _ Hone Ha1 Hwalk) as Ha.
  destruct (add_input_layer_architecture _ _ _ Ht Ha) as [Hta Htn].
  assert (Hts : weight_tensors (pre ++ (name, row :: rest) :: post)
                = (row :: rest) :: weight_tensors post).
  { rewrite weight_tensors_app, weight_tensors_cons, Hw.
    rewrite (weight_tensors_skipped _ Hpre). reflexivity. }
  exists row, rest, (weight_tensors post). rewrite Hts.
  split; [reflexivity|]. split; [exact Hta|].
  rewrite Htn. f_equal. unfold len. cbn [length app fmap list_fmap].
  rewrite length_fmap. lia.
Qed.

End ExtractorEdges.

(** ** From the extractor to the weights artifact *)

Section Pipeline.

Implicit Types (d : param_dict) (row : list float) (rows : tensor).

(** *** Keys *)

(** X13. Two neurons never share a key, and no weight key is one of the two
    fixed keys of the dict. *)
Theorem weight_keys_never_collide (l n l' n' : Z) :
  (weight_key l n = weight_key l' n' <-> l = l' /\ n = n') /\
  weight_key l n <> "model_architecture" /\
  weight_key l n <> "number_of_layers".
Proof.
  split; [split|].
  - apply weight_key_inj.
  - intros [-> ->]. reflexivity.
  - rewrite weight_key_unfold. split; discriminate.
Qed.

(** *** From the extractor to the encoders *)

Lemma flat_map_not_nil {X Y} (f : X -> list Y) (xs : list X) x :
  In x xs -> f x <> [] -> flat_map f xs <> [].
Proof.
  induction xs as [|y xs IH]; intros Hin Hx; [destruct Hin|].
  cbn [flat_map]. destruct Hin as [->|Hin].
  - destruct (f x); [congruence|discriminate].
  - intros Hnil. apply app_eq_nil in Hnil as [_ Hnil]. exact (IH Hin Hx Hnil).
Qed.

Lemma in_order_tail (l : Z) (ls : list Z) :
  l :: ls = seqZ 1 (len (l :: ls)) -> ~ In 1 ls /\ ~ In 0 (l :: ls).
Proof.
  intros Heq. pose proof Heq as Heq'.
  apply (in_order_cons l 0) in Heq' as [-> Hls]. split.
  - rewrite Hls. intros Hin. apply list_elem_of_In, elem_of_seqZ in Hin. lia.
  - rewrite Heq. intros Hin. apply list_elem_of_In, elem_of_seqZ in Hin. lia.
Qed.

(** X14. A table extracted from weight matrices in layer order, chained and
    with at least one column each, is a complete parameter table: it has its
    architecture, a weight vector for every neuron of every layer, layer 0
    included, and at least one weight. *)
Theorem extracted_table_is_complete
    (params : list (string * tensor)) (fan_in : Z) (t : param_dict) :
  layers_in_order params ->
  chained fan_in (weight_tensors params) ->
  Forall no_empty_row (weight_tensors params) ->
  snn2mcu_param_dict_extractor (matrices params) = Ok t ->
  exists a, has_architecture t a /\ has_all_weights t a /\
            table_weights t a <> [].
Proof.
  rewrite extractor_on_matrices.
  intros Horder Hchain Hne Hext.
  apply extractor_Ok in Hext as (d & Hwalk & Ht).
  pose proof (add_input_layer_Ok _ _ Ht) as (a & a0 & Ha & Ha0 & _).
  destruct (walk_from_empty params d fan_in Horder Hchain Hne Hwalk)
    as [->|(k & last & Hk & a' & Ha' & Hlen & _ & Hshape & _)]; [discriminate Ha|].
  rewrite Ha in Ha'. injection Ha' as <-.
  destruct (add_input_layer_architecture _ _ _ Ht Ha) as [Hta Htn].
  (* the input layer has a neuron *)
  assert (Hpos : 1 <= a0).
  { destruct (seeded_walk_first_weight _ _ _ Hwalk Ha)
      as (pre & name & rows & post & -> & Hpre & Hw & Hl).
    unfold layers_in_order in Horder.
    rewrite weight_layers_app, weight_layers_cons in Horder.
    rewrite (weight_layers_skipped _ Hpre), (weight_layers_weight _ _ _ Hw Hl) in Horder.
    cbn [app] in Horder. apply in_order_tail in Horder as [Hone _].
    rewrite weight_tensors_app, weight_tensors_cons, Hw in Hne.
    rewrite (weight_tensors_skipped _ Hpre) in Hne. cbn [app snd] in Hne.
    inversion Hne as [|? ? Hrows _]; subst.
    unfold pure_walk in Hwalk. rewrite for_each_app in Hwalk.
    apply bind_Ok in Hwalk as (d0 & Hd0 & Hwalk).
    apply walk_skipped in Hd0; [subst d0|assumption].
    walk_step Hwalk d1 Hstep.
    destruct (first_tensor_step _ _ _ Hw Hl Hstep) as (row & rest & -> & Ha1 & _ & _).
    destruct (walk_architecture_grows _ _ _ _ Hone Ha1 Hwalk) as [a' Ha'].
    rewrite Ha in Ha'. injection Ha' as ->. cbn in Ha0. injection Ha0 as <-.
    inversion Hrows as [|? ? Hrow _]; subst.
    destruct row; [congruence|]. unfold len. cbn [length]. lia. }
  assert (Hlayer0 : forall n, 0 <= n < a0 ->
            exists v, weights t !! weight_key 0 n = Some (v ++ [zero_point_nine])).
  { intros n Hn. rewrite (add_input_layer_lookup_0 _ _ _ _ n Ht Ha Ha0).
    destruct (Z.leb_spec 0 n); [|lia]. destruct (Z.ltb_spec n a0); [|lia].
    cbn [andb]. eauto. }
  exists a. split; [split; assumption|]. split.
  - unfold has_all_weights. rewrite Forall_forall. intros [l n] Hin.
    apply list_elem_of_In, in_neuron_ids in Hin as [Hl Hn]. cbn [fst snd].
    destruct (decide (l = 0)) as [->|Hl0].
    + unfold layer_size in Hn. change (Z.to_nat 0) with 0%nat in Hn.
      rewrite Ha0 in Hn. cbn [default from_option id] in Hn.
      destruct (Hlayer0 n Hn) as [v ->]. eauto.
    + rewrite (add_input_layer_lookup _ _ l n Ht Hl0).
      destruct (Hshape l ltac:(lia)) as (al & al' & Hal & _ & Hkeys & _).
      apply Hkeys. unfold layer_size in Hn. rewrite Hal in Hn. exact Hn.
  - unfold table_weights. apply (flat_map_not_nil _ _ (0, 0)).
    + apply in_neuron_ids. split; [lia|].
      unfold layer_size. change (Z.to_nat 0) with 0%nat. rewrite Ha0. cbn. lia.
    + cbn [fst snd]. destruct (Hlayer0 0 ltac:(lia)) as [v ->].
      cbn. destruct v; discriminate.
Qed.

(** *** Edges of the weights encoder *)

(** X15. With no weight at all the artifact is the closing brace alone: the
    slice [[:-1]] removes the opening one. *)
Theorem weights_of_empty_table (d : param_dict) (a : list Z) (bits : Z)
    (negatives_allowed : bool) :
  has_architecture d a ->
  has_all_weights d a ->
  table_weights d a = [] ->
  snn2mcu_weights d bits negatives_allowed = Ok "}".
Proof.
  intros Harch Hall Hnil. rewrite (weights_text d a) by assumption.
  rewrite Hnil. reflexivity.
Qed.

(** X16. A neuron without weight vector makes the weights encoder raise: no
    artifact is produced for an incomplete table. *)
Theorem weights_of_incomplete_table (d : param_dict) (a : list Z) (l n : Z)
    (bits : Z) (negatives_allowed : bool) :
  has_architecture d a ->
  In (l, n) (neuron_ids a) ->
  weights d !! weight_key l n = None ->
  exists e, snn2mcu_weights d bits negatives_allowed = Raise e.
Proof.
  intros [Ha Hn] Hin Hmiss. apply in_neuron_ids in Hin as [Hl Hsize].
  unfold snn2mcu_weights, for_each_neuron, get_number_of_layers.
  rewrite Hn. cbn [mbind result_bind].
  match goal with
  | |- exists e, for_each ?body ?items ?start ≫= _ = _ =>
      assert (Hr : exists e, for_each body items start = Raise e)
  end.
  { apply (for_each_raises _ l); [apply in_range, Hl|].
    intros s. rewrite (get_layer_size_Ok d a l Ha Hl). cbn [mbind result_bind].
    apply (for_each_raises _ n); [apply in_range, Hsize|].
    intros s'. unfold get_weights. rewrite Hmiss. cbn. eauto. }
  destruct Hr as [e He]. rewrite He. cbn. eauto.
Qed.

End Pipeline.

(** ** The constants: negative precisions *)

Section Constants.

(** *** Powers of two below the doubles *)

Lemma iter_shr_1_sticky (p : positive) :
  SpecFloat.iter_pos shr_1 p (Build_shr_record 0 false true)
  = Build_shr_record 0 false true.
Proof.
  induction p as [p IH|p IH|]; cbn [SpecFloat.iter_pos]; [|rewrite !IH|]; try reflexivity.
  change (shr_1 (Build_shr_record 0 false true)) with (Build_shr_record 0 false true).
  rewrite !IH. reflexivity.
Qed.

Lemma iter_shr_1_round (p : positive) :
  SpecFloat.iter_pos shr_1 p (Build_shr_record 0 true false)
  = Build_shr_record 0 false true.
Proof.
  induction p as [p IH|p IH|]; cbn [SpecFloat.iter_pos]; [| |reflexivity].
  - change (shr_1 (Build_shr_record 0 true false)) with (Build_shr_record 0 false true).
    rewrite !iter_shr_1_sticky. reflexivity.
  - rewrite IH, iter_shr_1_sticky. reflexivity.
Qed.

Lemma iter_shr_1_one (p : positive) :
  SpecFloat.iter_pos shr_1 p (Build_shr_record 1 false false)
  = if (p =? 1)%positive then Build_shr_record 0 true false
    else Build_shr_record 0 false true.
Proof.
  induction p as [p IH|p IH|]; cbn [SpecFloat.iter_pos Pos.eqb]; [| |reflexivity].
  - change (shr_1 (Build_shr_record 1 false false)) with (Build_shr_record 0 true false).
    rewrite iter_shr_1_round, iter_shr_1_sticky. reflexivity.
  - rewrite IH. destruct (p =? 1)%positive;
      [apply iter_shr_1_round | apply iter_shr_1_sticky].
Qed.

(** [2.0 ** k] is [0.0] below the smallest subnormal, [2.0 ** -1074]. *)
Lemma pow2_neg_underflow (k : Z) : k < -1074 -> pow2_neg k = zero.
Proof.
  intros Hk. unfold pow2_neg, binary_round, shl_align.
  assert (Hf : fexp prec emax (Zpos (digits2_pos 1) + k) = -1074)
    by (unfold fexp, emin, prec, emax; cbn [digits2_pos]; lia).
  rewrite Hf. destruct (-1074 - k) as [|p|p] eqn:E; try lia.
  unfold binary_round_aux, shr_fexp. cbn [Zdigits2].
  rewrite Hf, E. cbn [shr shr_record_of_loc]. rewrite iter_shr_1_one.
  replace (k + Zpos p) with (-1074) by lia.
  destruct (p =? 1)%positive; reflexivity.
Qed.

Lemma pow2_far_below (b : Z) :
  - 2 ^ 1023 < b < -1074 -> pow2 b = Ok (PFloat zero).
Proof.
  intros Hb. unfold pow2. destruct (Z.leb_spec 0 b); [lia|].
  destruct (of_int_finite b) as [f ->]; [lia|].
  cbn [mbind result_bind]. rewrite pow2_neg_underflow by lia. reflexivity.
Qed.

Lemma threshold_value_negative (b : Z) :
  - 2 ^ 1023 < b < 0 -> threshold_value b = Ok (if b <? -53 then -1 else 0).
Proof.
  intros Hb. destruct (Z.ltb_spec b (-1074)) as [Hlow|Hlow].
  - unfold threshold_value. rewrite pow2_far_below by lia.
    destruct (Z.ltb_spec b (-53)); [reflexivity|lia].
  - assert (Hall : forallb (fun b =>
        match threshold_value b with
        | Ok v => v =? (if b <? -53 then -1 else 0)
        | Raise _ => false
        end) (seqZ (-1074) 1074) = true) by (vm_compute; reflexivity).
    rewrite forallb_forall in Hall.
    assert (Hin : In b (seqZ (-1074) 1074))
      by (apply list_elem_of_In, elem_of_seqZ; lia).
    apply Hall in Hin. destruct (threshold_value b) as [v|]; [|discriminate].
    apply Z.eqb_eq in Hin. congruence.
Qed.

Lemma leakage_value_negative (b : Z) :
  - 2 ^ 1023 < b < 0 -> leakage_value b = Ok 0.
Proof.
  intros Hb. destruct (Z.ltb_spec b (-1074)) as [Hlow|Hlow].
  - unfold leakage_value. rewrite pow2_far_below by lia. reflexivity.
  - assert (Hall : forallb (fun b =>
        match leakage_value b with
        | Ok v => v =? 0
        | Raise _ => false
        end) (seqZ (-1074) 1074) = true) by (vm_compute; reflexivity).
    rewrite forallb_forall in Hall.
    assert (Hin : In b (seqZ (-1074) 1074))
      by (apply list_elem_of_In, elem_of_seqZ; lia).
    apply Hall in Hin. destruct (leakage_value b) as [v|]; [|discriminate].
    apply Z.eqb_eq in Hin. congruence.
Qed.

(** X17. With a negative precision above [-2^1023], [2**precision] is a
    float below one: every threshold is [0] down to [-53] and [-1] below,
    where [2**precision - 1] rounds to [-1.0], and every leakage is [0].
    Neither encoder raises. *)
Theorem constants_of_negative_precision (d : param_dict) (a : list Z) (b : Z) :
  has_architecture d a -> - 2 ^ 1023 < b < 0 ->
  snn2mcu_thresholds d b = Ok (encode_constant a (if b <? -53 then -1 else 0)) /\
  snn2mcu_leakages d b = Ok (encode_constant a 0).
Proof.
  intros Harch Hb.
  assert (H1 : 1 < str_limit) by (vm_compute; reflexivity).
  split.
  - apply constant_per_neuron_Ok; [assumption| |].
    + apply threshold_value_negative, Hb.
    + destruct (b <? -53); cbn [Z.abs]; lia.
  - apply constant_per_neuron_Ok; [assumption| |].
    + apply leakage_value_negative, Hb.
    + cbn [Z.abs]. lia.
Qed.

End Constants.

(** ** The constants: the range of the leakage *)

Section LeakageRange.

(** [2**b / 100] is past the largest double from [b = 1031] on. *)
Lemma int_true_div_overflow (b : Z) :
  1031 <= b -> int_true_div (2 ^ b) 100 = Raise OverflowError.
Proof.
  intros Hb.
  assert (Hpos : 0 < 2 ^ b) by (apply Z.pow_pos_nonneg; lia).
  unfold int_true_div. destruct (2 ^ b) as [|p|p] eqn:E; try lia.
  unfold SFdiv, SFdiv_core_binary.
  assert (Hd1 : Zdigits2 (Zpos p) = b + 1).
  { rewrite Zdigits2_log2 by lia. rewrite <- E, Z.log2_pow2 by lia. reflexivity. }
  rewrite Hd1. change (Zdigits2 100) with 7.
  assert (He : Z.min (fexp prec emax (b + 1 + 0 - (7 + 0))) (0 - 0) = 0)
    by (unfold fexp, emin, prec, emax; lia).
  rewrite He. change (0 - 0 - 0) with 0. cbv iota.
  pose proof (Z_div_mod (Zpos p) 100 eq_refl) as Hdm.
  destruct (Z.div_eucl (Zpos p) 100) as [q r]. destruct Hdm as [Hq Hr].
  assert (Hbig : 2 ^ 1031 <= Zpos p) by (rewrite <- E; apply Z.pow_le_mono_r; lia).
  assert (Hq1 : 2 ^ 1024 <= q).
  { change (2 ^ 1031) with (2 ^ 1024 * 128) in Hbig. lia. }
  assert (Hq0 : 0 < q) by (pose proof (Z.pow_pos_nonneg 2 1024); lia).
  rewrite binary_round_aux_overflow; [reflexivity|assumption|].
  rewrite (Zdigits2_log2 _ Hq0).
  pose proof (Z.log2_le_mono _ _ Hq1) as Hlog.
  rewrite Z.log2_pow2 in Hlog by lia. lia.
Qed.

Lemma leakage_value_overflow (b : Z) :
  1031 <= b -> leakage_value b = Raise OverflowError.
Proof.
  intros Hb. unfold leakage_value, pow2. destruct (Z.leb_spec 0 b); [|lia].
  cbn [mbind result_bind].
  rewrite int_true_div_overflow by assumption. reflexivity.
Qed.

Lemma leakage_value_rounded (b : Z) :
  0 <= b <= 1030 ->
  exists v, leakage_value b = Ok v /\
            Z.abs (100 * v - 2 ^ b) <= Z.max 99 (2 ^ b / 2 ^ 53) /\
            Z.abs v < str_limit.
Proof.
  intros Hb.
  assert (Hall : forallb (fun b =>
      match leakage_value b with
      | Ok v => (Z.abs (100 * v - 2 ^ b) <=? Z.max 99 (2 ^ b / 2 ^ 53))
                && (Z.abs v <? 2 ^ 1024)
      | Raise _ => false
      end) (seqZ 0 1031) = true) by (vm_compute; reflexivity).
  rewrite forallb_forall in Hall.
  assert (Hin : In b (seqZ 0 1031)) by (apply list_elem_of_In, elem_of_seqZ; lia).
  apply Hall in Hin. destruct (leakage_value b) as [v|]; [|discriminate].
  apply andb_prop in Hin as [H1 H2]. apply Z.ltb_lt in H2.
  exists v. split; [reflexivity|]. split; [apply Z.leb_le, H1|].
  exact (Z.lt_trans _ _ _ H2 doubles_have_few_digits).
Qed.

(** *** The constant of a table with a neuron *)

Lemma constant_per_neuron_Raise (d : param_dict) (a : list Z) (value : result Z) e :
  has_architecture d a -> neuron_count a <> 0%nat -> value = Raise e ->
  constant_per_neuron d value = Raise e.
Proof.
  intros Harch Hcount ->. unfold constant_per_neuron, constant_body.
  rewrite (for_each_neuron_flat d a _
             (fun s (_ : unit) => q ← (Raise e : result Z); text ← str q;
                                  Ok (s +:+ text +:+ " "))
             (fun _ => [()]) "" Harch) by reflexivity.
  rewrite <- neuron_ids_length in Hcount.
  destruct (neuron_ids a) as [|id ids]; [contradiction|]. reflexivity.
Qed.

(** The same when the constant exists and [str] refuses it. *)
Lemma constant_per_neuron_unprintable (d : param_dict) (a : list Z)
    (value : result Z) v :
  has_architecture d a -> neuron_count a <> 0%nat -> value = Ok v ->
  str_limit <= Z.abs v ->
  constant_per_neuron d value = Raise ValueError.
Proof.
  intros Harch Hcount -> Hv. unfold constant_per_neuron, constant_body.
  assert (Hstr : str v = Raise ValueError).
  { unfold str. destruct (Z.leb_spec (str_limit) (Z.abs v)); [reflexivity|lia]. }
  rewrite (for_each_neuron_flat d a _
             (fun s (_ : unit) => q ← Ok v; text ← str q; Ok (s +:+ text +:+ " "))
             (fun _ => [()]) "" Harch)
    by (intros; cbn [for_each mbind result_bind]; rewrite Hstr; reflexivity).
  rewrite <- neuron_ids_length in Hcount.
  destruct (neuron_ids a) as [|id ids]; [contradiction|].
  cbn [flat_map app for_each mbind result_bind]. rewrite Hstr. reflexivity.
Qed.

(** X18. For a bit width [0 <= b <= 1030] the leakages encoder returns, and
    its constant [v] is [2^b / 100] up to the truncation and the rounding of
    the quotient to a double: [100 * v] is within 99, or within the fraction
    [2^-53], of [2^b]. *)
Theorem leakages_within_rounding (d : param_dict) (a : list Z) (b : Z) :
  has_architecture d a -> 0 <= b <= 1030 ->
  exists v, snn2mcu_leakages d b = Ok (encode_constant a v) /\
            Z.abs (100 * v - 2 ^ b) <= Z.max 99 (2 ^ b / 2 ^ 53).
Proof.
  intros Harch Hb.
  destruct (leakage_value_rounded b Hb) as (v & Hv & Hbound & Hdigits).
  exists v. split; [|exact Hbound].
  apply constant_per_neuron_Ok; assumption.
Qed.

(** X19. From 1031 bits on, [2**precision / 100] is no double: on a table
    with at least one neuron the leakages encoder raises [OverflowError]. *)
Theorem leakages_overflow (d : param_dict) (a : list Z) (b : Z) :
  has_architecture d a -> neuron_count a <> 0%nat -> 1031 <= b ->
  snn2mcu_leakages d b = Raise OverflowError.
Proof.
  intros Harch Hcount Hb.
  apply (constant_per_neuron_Raise d a); [assumption|assumption|].
  apply leakage_value_overflow, Hb.
Qed.

(** *** Precisions past the text and past the doubles *)

Lemma threshold_has_many_digits (b : Z) :
  14285 <= b -> str_limit <= Z.abs (2 ^ b - 1).
Proof.
  intros Hb.
  assert (H2 : 2 ^ 14285 <= 2 ^ b) by (apply Z.pow_le_mono_r; lia).
  remember (2 ^ 14285) as c eqn:Ec.
  assert (H1 : str_limit < c) by (subst c; vm_compute; reflexivity).
  lia.
Qed.

(** X24. From 14285 bits on, [2^b - 1] has more than 4300 digits: on a
    table with at least one neuron [str] refuses the first threshold and
    the thresholds encoder raises [ValueError]. *)
Theorem thresholds_past_the_digit_limit (d : param_dict) (a : list Z) (b : Z) :
  has_architecture d a -> neuron_count a <> 0%nat -> 14285 <= b ->
  snn2mcu_thresholds d b = Raise ValueError.
Proof.
  intros Harch Hcount Hb.
  apply (constant_per_neuron_unprintable d a _ (2 ^ b - 1)); try assumption.
  - apply threshold_value_nonneg. lia.
  - apply threshold_has_many_digits, Hb.
Qed.

Lemma pow2_overflow (b : Z) : b <= - 2 ^ 1024 -> pow2 b = Raise OverflowError.
Proof.
  intros Hb. assert (Hp : 0 < 2 ^ 1024) by (apply Z.pow_pos_nonneg; lia).
  unfold pow2. destruct (Z.leb_spec 0 b); [lia|].
  rewrite of_int_overflow by lia. reflexivity.
Qed.

(** X25. A negative precision of magnitude [2^1024] or more has no float:
    [2**precision] raises [OverflowError], and so do both encoders of the
    constants on a table with at least one neuron. *)
Theorem constants_below_the_doubles (d : param_dict) (a : list Z) (b : Z) :
  has_architecture d a -> neuron_count a <> 0%nat -> b <= - 2 ^ 1024 ->
  snn2mcu_thresholds d b = Raise OverflowError /\
  snn2mcu_leakages d b = Raise OverflowError.
Proof.
  intros Harch Hcount Hb. split.
  - apply (constant_per_neuron_Raise d a); [assumption|assumption|].
    unfold threshold_value. rewrite pow2_overflow by assumption. reflexivity.
  - apply (constant_per_neuron_Raise d a); [assumption|assumption|].
    unfold leakage_value. rewrite pow2_overflow by assumption. reflexivity.
Qed.

End LeakageRange.

(** ** The driver and its files *)

Section Driver.

Variable writable : string -> bool.

Lemma out_dir_paths_differ (out_dir a b : string) :
  a <> b -> (out_dir +:+ "/") +:+ a <> (out_dir +:+ "/") +:+ b.
Proof.
  intros Hab Heq. rewrite !string_app_assoc in Heq.
  apply (inj (String.app out_dir)) in Heq.
  apply (inj (String.app "/")) in Heq. contradiction.
Qed.

Lemma weights_paths_differ (out_dir : string) :
  weights_file_path out_dir <> weights_negatives_file_path out_dir.
Proof. apply out_dir_paths_differ. discriminate. Qed.

Lemma weights_file_other (file_path path : string) d precision neg files :
  path <> file_path ->
  (snn2mcu_weights_file writable file_path d precision neg files).1 !! path
  = files !! path.
Proof.
  intros Hne. unfold snn2mcu_weights_file, open_for_writing, file_write.
  destruct (writable file_path); [|reflexivity].
  destruct (snn2mcu_weights d precision neg); cbn [fst].
  - rewrite lookup_alter_ne, lookup_insert_ne by congruence. reflexivity.
  - rewrite lookup_insert_ne by congruence. reflexivity.
Qed.

Lemma weights_file_Ok (file_path : string) d precision neg files files' :
  snn2mcu_weights_file writable file_path d precision neg files = (files', Ok ()) ->
  exists text, snn2mcu_weights d precision neg = Ok text /\
               files' !! file_path = Some text.
Proof.
  unfold snn2mcu_weights_file, open_for_writing, file_write.
  destruct (writable file_path); [|discriminate].
  destruct (snn2mcu_weights d precision neg) as [text|]; [|discriminate].
  intros [= <-]. exists text. split; [reflexivity|].
  rewrite lookup_alter_eq, lookup_insert_eq. reflexivity.
Qed.



(** X21. A run that ends well leaves both artifacts, made from one table:
    the unsigned one in [init_weigthts.coe], the signed one in
    [init_weigthts_negatives.coe]. *)
Theorem main_writes_both_artifacts
    (params : list (string * torch_tensor)) (out_dir : string) (precision : Z)
    (files files' : gmap string string) :
  main writable params out_dir precision files = (files', Ok ()) ->
  exists t unsigned signed,
    snn2mcu_param_dict_extractor params = Ok t /\
    snn2mcu_weights t precision false = Ok unsigned /\
    snn2mcu_weights t precision true = Ok signed /\
    files' !! weights_file_path out_dir = Some unsigned /\
    files' !! weights_negatives_file_path out_dir = Some signed.
Proof.
  unfold main. destruct (snn2mcu_param_dict_extractor params) as [t|]; [|discriminate].
  destruct (snn2mcu_weights_file writable (weights_file_path out_dir) t
              precision false files)
    as [files1 [[]|e]] eqn:H1; [|discriminate].
  intros H2. apply weights_file_Ok in H1 as (unsigned & Hu & Hfu).
  pose proof (weights_file_other (weights_negatives_file_path out_dir)
                (weights_file_path out_dir) t precision true files1
                (weights_paths_differ out_dir)) as Hkeep.
  rewrite H2 in Hkeep. cbn [fst] in Hkeep.
  apply weights_file_Ok in H2 as (signed & Hs & Hfs).
  exists t, unsigned, signed. rewrite Hkeep. auto.
Qed.


End Driver.

(** ** The files of the constants *)

Section ConstantFiles.

Variable writable : string -> bool.




End ConstantFiles.

(** * The theorems at sample inputs *)

Section Samples.

(** ** The quantizer *)

(** 0.9 at 8 bits is 230, the first number of the weights artifact. *)
Lemma quantize_unsigned_witness :
  1 <= 8 <= 1023 /\
  valid zero_point_nine = true /\
  is_finite zero_point_nine = true /\
  (Qmax (to_Q zero_point_nine) 0 * pow2Q 8 < pow2Q 1024)%Q /\
  snn2mcu_value_cuantization 8 zero_point_nine false = Ok 230.
Proof.
  assert (H1 : 1 <= 8 <= 1023) by lia.
  assert (H2 : valid zero_point_nine = true) by reflexivity.
  assert (H3 : is_finite zero_point_nine = true) by reflexivity.
  assert (H4 : (Qmax (to_Q zero_point_nine) 0 * pow2Q 8 < pow2Q 1024)%Q)
    by (vm_compute; reflexivity).
  split; [exact H1|]. split; [exact H2|]. split; [exact H3|]. split; [exact H4|].
  exact (quantize_unsigned_in_range 8 zero_point_nine H1 H2 H3 H4).
Defined.

(** The largest double at one bit: the product is infinite and [int]
    raises, where the claimed floor is a number. *)
Lemma quantize_unsigned_overflows :
  valid max_float = true /\
  snn2mcu_value_cuantization 1 max_float false = Raise OverflowError /\
  snn2mcu_value_cuantization 1 max_float false
  <> Ok (Qfloor (Qmax (to_Q max_float) 0 * pow2Q 1)).
Proof.
  split; [reflexivity|]. split; [vm_compute; reflexivity|].
  vm_compute. discriminate.
Qed.

(** -0.5 at 5 bits with negatives is -8. *)
Lemma quantize_signed_witness :
  2 <= 5 <= 1024 /\
  valid minus_half = true /\
  is_finite minus_half = true /\
  (Qabs (to_Q minus_half) * pow2Q (5 - 1) < pow2Q 1024)%Q /\
  snn2mcu_value_cuantization 5 minus_half true = Ok (-8).
Proof.
  assert (H1 : 2 <= 5 <= 1024) by lia.
  assert (H2 : valid minus_half = true) by reflexivity.
  assert (H3 : is_finite minus_half = true) by reflexivity.
  assert (H4 : (Qabs (to_Q minus_half) * pow2Q (5 - 1) < pow2Q 1024)%Q)
    by (vm_compute; reflexivity).
  split; [exact H1|]. split; [exact H2|]. split; [exact H3|]. split; [exact H4|].
  exact (quantize_signed_truncates 5 minus_half H1 H2 H3 H4).
Defined.

(** -0.25 at 2 bits with negatives: the product -0.5 truncates to 0, and
    its floor is -1. *)
Lemma quantize_signed_is_not_floor :
  valid minus_quarter = true /\
  snn2mcu_value_cuantization 2 minus_quarter true = Ok 0 /\
  Qfloor (to_Q minus_quarter * pow2Q (2 - 1)) = -1.
Proof. repeat split; vm_compute; reflexivity. Qed.

(** ** The extractor *)

Lemma sample_extraction :
  snn2mcu_param_dict_extractor (matrices sample_params) = Ok sample_table.
Proof. vm_compute. reflexivity. Qed.

Lemma extracted_table_structure_witness :
  layers_in_order sample_params /\
  chained 3 (weight_tensors sample_params) /\
  Forall no_empty_row (weight_tensors sample_params) /\
  snn2mcu_param_dict_extractor (matrices sample_params) = Ok sample_table /\
  structural_invariant sample_table.
Proof.
  assert (H1 : layers_in_order sample_params) by (vm_compute; reflexivity).
  assert (H2 : chained 3 (weight_tensors sample_params))
    by (vm_compute; repeat constructor).
  assert (H3 : Forall no_empty_row (weight_tensors sample_params))
    by (vm_compute; repeat (constructor; try discriminate)).
  assert (H4 : snn2mcu_param_dict_extractor (matrices sample_params) = Ok sample_table)
    by (vm_compute; reflexivity).
  split; [exact H1|]. split; [exact H2|]. split; [exact H3|]. split; [exact H4|].
  exact (extracted_table_structure sample_params 3 sample_table H1 H2 H3 H4).
Defined.

(** Two neurons without input: the table records two neurons for layer 1
    and no weight vector. *)
Lemma zero_columns_break_structure :
  layers_in_order zero_column_params /\
  chained 0 (weight_tensors zero_column_params) /\
  exists t, snn2mcu_param_dict_extractor (matrices zero_column_params) = Ok t /\
            ~ structural_invariant t.
Proof.
  split; [vm_compute; reflexivity|]. split; [vm_compute; repeat constructor|].
  eexists. split; [vm_compute; reflexivity|].
  intros (a & Ha & _ & Hshape). injection Ha as <-.
  destruct (Hshape 1) as (al & al' & Hal & _ & Hkeys & _); [vm_compute; split; congruence|].
  injection Hal as <-.
  destruct (proj2 (Hkeys 0)) as [v Hv]; [lia|]. vm_compute in Hv. discriminate.
Qed.

Lemma input_layer_synthesized_witness :
  snn2mcu_param_dict_extractor (matrices sample_params) = Ok sample_table /\
  ~ In 0 (weight_layers sample_params) /\
  count_occ Z.eq_dec (weight_layers sample_params) 1 = 1%nat /\
  exists d a a0,
    tensor_walk (matrices sample_params) = Ok d /\
    (forall n, weights d !! weight_key 0 n = None) /\
    add_input_layer d = Ok sample_table /\
    model_architecture sample_table = Some a /\ a !! 0%nat = Some a0 /\
    (forall n, weights sample_table !! weight_key 0 n
               = if (0 <=? n) && (n <? a0) then Some [zero_point_nine] else None) /\
    a0 = len (default [] (weights sample_table !! weight_key 1 0)).
Proof.
  assert (H1 : snn2mcu_param_dict_extractor (matrices sample_params) = Ok sample_table)
    by (vm_compute; reflexivity).
  assert (H2 : ~ In 0 (weight_layers sample_params))
    by (vm_compute; intros [H|[H|[]]]; discriminate H).
  assert (H3 : count_occ Z.eq_dec (weight_layers sample_params) 1 = 1%nat)
    by (vm_compute; reflexivity).
  split; [exact H1|]. split; [exact H2|]. split; [exact H3|].
  exact (input_layer_synthesized sample_params sample_table H1 H2 H3).
Defined.

(** A weight tensor named for layer 0: its weight stays in front of the
    0.9, and the vector of the input neuron has two entries. *)
Lemma layer_0_tensor_breaks_input_layer :
  exists t, snn2mcu_param_dict_extractor (matrices layer_0_params) = Ok t /\
            weights t !! weight_key 0 0 = Some [half; zero_point_nine].
Proof. eexists. split; vm_compute; reflexivity. Qed.

Lemma malformed_name_raises_witness :
  first_digit_run "bias" = None /\
  exists e,
    snn2mcu_param_dict_extractor
      ([("fc1.weight", matrix [[half]])] ++ ("bias", Stack [Scalar half]) :: [])
    = Raise e /\
    ((exists d, tensor_walk [("fc1.weight", matrix [[half]])] = Ok d) ->
     e = IndexError).
Proof.
  assert (H1 : first_digit_run "bias" = None) by reflexivity.
  split; [exact H1|].
  exact (malformed_name_raises [("fc1.weight", matrix [[half]])] []
           "bias" (Stack [Scalar half]) H1).
Defined.

(** The entry without a digit is reached, and it is reached after an entry
    that raises. *)
Example malformed_name_is_reached :
  snn2mcu_param_dict_extractor unnamed_model = Raise IndexError /\
  snn2mcu_param_dict_extractor unseeded_model = Raise KeyError.
Proof. split; vm_compute; reflexivity. Qed.

Lemma extractor_trusts_tensors_witness :
  names_parse ([] ++ ("fc1.weight", matrix [[half; half]; [half; half]])
                  :: [("fc1.bias", Stack [Scalar half; Scalar half]);
                      ("fc1.weight_v", matrix [[half; half]])]) /\
  weights_readable ([] ++ ("fc1.weight", matrix [[half; half]; [half; half]])
                       :: [("fc1.bias", Stack [Scalar half; Scalar half]);
                           ("fc1.weight_v", matrix [[half; half]])]) /\
  Forall (fun entry : string * torch_tensor => is_weight entry = false) [] /\
  is_weight ("fc1.weight", matrix [[half; half]; [half; half]]) = true /\
  layer_of_name "fc1.weight" = Ok 1 /\
  unbind (matrix [[half; half]; [half; half]])
  = Ok (Stack [Scalar half; Scalar half] :: [Stack [Scalar half; Scalar half]]) /\
  exists t, snn2mcu_param_dict_extractor
              ([] ++ ("fc1.weight", matrix [[half; half]; [half; half]])
                  :: [("fc1.bias", Stack [Scalar half; Scalar half]);
                      ("fc1.weight_v", matrix [[half; half]])]) = Ok t.
Proof.
  assert (H1 : names_parse
                 ([] ++ ("fc1.weight", matrix [[half; half]; [half; half]])
                     :: [("fc1.bias", Stack [Scalar half; Scalar half]);
                         ("fc1.weight_v", matrix [[half; half]])]))
    by (repeat (constructor; [eexists; reflexivity|]); constructor).
  assert (H2 : weights_readable
                 ([] ++ ("fc1.weight", matrix [[half; half]; [half; half]])
                     :: [("fc1.bias", Stack [Scalar half; Scalar half]);
                         ("fc1.weight_v", matrix [[half; half]])]))
    by (repeat (constructor; [intros H; try discriminate H; eexists; reflexivity|]);
        constructor).
  assert (H3 : Forall (fun entry : string * torch_tensor => is_weight entry = false) [])
    by constructor.
  assert (H4 : is_weight ("fc1.weight", matrix [[half; half]; [half; half]]) = true)
    by reflexivity.
  assert (H5 : layer_of_name "fc1.weight" = Ok 1) by reflexivity.
  assert (H6 : unbind (matrix [[half; half]; [half; half]])
               = Ok (Stack [Scalar half; Scalar half]
                       :: [Stack [Scalar half; Scalar half]]))
    by reflexivity.
  split; [exact H1|]. split; [exact H2|]. split; [exact H3|]. split; [exact H4|].
  split; [exact H5|]. split; [exact H6|].
  exact (extractor_trusts_tensors []
           [("fc1.bias", Stack [Scalar half; Scalar half]);
            ("fc1.weight_v", matrix [[half; half]])]
           "fc1.weight" (matrix [[half; half]; [half; half]])
           (Stack [Scalar half; Scalar half]) [Stack [Scalar half; Scalar half]]
           H1 H2 H3 H4 H5 H6).
Defined.

(** Two tensors of layer 1: neuron 0 ends with four weights, neuron 1 with
    two, and the table is returned. *)
Lemma ragged_fan_in_is_accepted :
  exists t, snn2mcu_param_dict_extractor (matrices ragged_params) = Ok t /\
            weights t !! weight_key 1 0 = Some [half; half; half; half] /\
            weights t !! weight_key 1 1 = Some [half; half].
Proof. eexists. repeat split; vm_compute; reflexivity. Qed.

Lemma extractor_needs_layer_1_witness :
  snn2mcu_param_dict_extractor (matrices sample_params) = Ok sample_table /\
  first_weight_has_layer_1 sample_params /\
  exists a, model_architecture sample_table = Some a /\ 2 <= len a /\
            number_of_layers sample_table = Some (len a).
Proof.
  assert (H1 : snn2mcu_param_dict_extractor (matrices sample_params) = Ok sample_table)
    by (vm_compute; reflexivity).
  split; [exact H1|].
  exact (extractor_needs_layer_1 sample_params sample_table H1).
Defined.

(** ** The encoders *)

Lemma sample_table_architecture : has_architecture sample_table [3; 2; 1].
Proof. split; reflexivity. Qed.

Lemma weights_artifact_witness :
  has_architecture sample_table [3; 2; 1] /\
  has_all_weights sample_table [3; 2; 1] /\
  table_weights sample_table [3; 2; 1] <> [] /\
  Forall (in_double_range 8 false) (table_weights sample_table [3; 2; 1]) /\
  snn2mcu_weights sample_table 8 false
  = Ok (encode_weights sample_table [3; 2; 1] 8 false).
Proof.
  assert (H1 : has_architecture sample_table [3; 2; 1]) by (split; reflexivity).
  assert (H2 : has_all_weights sample_table [3; 2; 1])
    by (vm_compute; repeat (constructor; [eexists; reflexivity|]); constructor).
  assert (H3 : table_weights sample_table [3; 2; 1] <> [])
    by (vm_compute; discriminate).
  assert (H4 : Forall (in_double_range 8 false)
                 (table_weights sample_table [3; 2; 1]))
    by (repeat (constructor;
                  [split; [reflexivity|]; split; [reflexivity|];
                   split; [lia|vm_compute; reflexivity]|]);
        constructor).
  split; [exact H1|]. split; [exact H2|]. split; [exact H3|]. split; [exact H4|].
  exact (weights_artifact sample_table [3; 2; 1] 8 false H1 H2 H3 H4).
Defined.

(** The sample table at 1024 bits: the table is complete and has weights,
    and the quantizer raises at the first of them. *)
Lemma weights_overflow_at_1024_bits :
  has_architecture sample_table [3; 2; 1] /\
  has_all_weights sample_table [3; 2; 1] /\
  table_weights sample_table [3; 2; 1] <> [] /\
  snn2mcu_weights sample_table 1024 false = Raise OverflowError.
Proof.
  split; [split; reflexivity|].
  split; [vm_compute; repeat (constructor; [eexists; reflexivity|]); constructor|].
  split; [vm_compute; discriminate|]. vm_compute. reflexivity.
Qed.

Lemma thresholds_artifact_witness :
  has_architecture sample_table [3; 2; 1] /\ 0 <= 4 <= 14284 /\
  snn2mcu_thresholds sample_table 4 = Ok (encode_constant [3; 2; 1] (2 ^ 4 - 1)) /\
  ([3; 2; 1] = [3; 2; 1] -> 4 = 4 ->
   snn2mcu_thresholds sample_table 4
   = Ok ("memory_initialization_radix=10;" +:+
         String "010"%char
           "memory_initialization_vector=15 15 15 15 15 15;")).
Proof.
  assert (H1 : has_architecture sample_table [3; 2; 1]) by (split; reflexivity).
  assert (H2 : 0 <= 4 <= 14284) by lia.
  split; [exact H1|]. split; [exact H2|].
  exact (thresholds_artifact sample_table [3; 2; 1] 4 H1 H2).
Defined.

(** At 14285 bits the threshold has 4301 digits, and [str] refuses it. *)
Lemma thresholds_raise_at_14285_bits :
  has_architecture one_neuron_table [1] /\
  neuron_count [1] = 1%nat /\
  snn2mcu_thresholds one_neuron_table 14285 = Raise ValueError.
Proof. split; [split; reflexivity|]. split; vm_compute; reflexivity. Qed.

Lemma leakages_artifact_witness :
  has_architecture sample_table [3; 2; 1] /\ 1 <= 8 <= 58 /\
  snn2mcu_leakages sample_table 8 = Ok (encode_constant [3; 2; 1] (2 ^ 8 / 100)).
Proof.
  assert (H1 : has_architecture sample_table [3; 2; 1]) by (split; reflexivity).
  assert (H2 : 1 <= 8 <= 58) by lia.
  split; [exact H1|]. split; [exact H2|].
  exact (leakages_artifact sample_table [3; 2; 1] 8 H1 H2).
Defined.

(** At 59 bits the double nearest to [2^59 / 100] is the next integer. *)
Lemma leakage_rounds_up_at_59_bits :
  has_architecture one_neuron_table [1] /\
  snn2mcu_leakages one_neuron_table 59
  = Ok (coe_header +:+ "5764607523034235;") /\
  2 ^ 59 / 100 = 5764607523034234.
Proof. split; [split; reflexivity|]. split; vm_compute; reflexivity. Qed.

End Samples.

(** * The edge theorems at sample inputs *)

Section MoreSamples.

(** 0.9 at 8 bits. *)
Lemma quantize_unsigned_never_negative_witness :
  snn2mcu_value_cuantization 8 zero_point_nine false = Ok 230 /\ 0 <= 230.
Proof.
  assert (H1 : snn2mcu_value_cuantization 8 zero_point_nine false = Ok 230)
    by (vm_compute; reflexivity).
  split; [exact H1|].
  exact (quantize_unsigned_never_negative 8 zero_point_nine 230 H1).
Defined.

(** A NaN at 8 bits. *)
Lemma quantize_not_finite_raises_witness :
  is_finite S754_nan = false /\
  (false = true \/ S754_nan <> S754_infinity true) /\
  exists e, snn2mcu_value_cuantization 8 S754_nan false = Raise e.
Proof.
  assert (H1 : is_finite S754_nan = false) by reflexivity.
  assert (H2 : false = true \/ S754_nan <> S754_infinity true)
    by (right; discriminate).
  split; [exact H1|]. split; [exact H2|].
  exact (quantize_not_finite_raises 8 S754_nan false H1 H2).
Defined.

(** Zero at 1024 bits. *)
Lemma quantize_too_many_bits_witness :
  (if false then 1025 else 1024) <= 1024 /\
  snn2mcu_value_cuantization 1024 zero false = Raise OverflowError.
Proof.
  assert (H1 : (if false then 1025 else 1024) <= 1024) by (cbn; lia).
  split; [exact H1|].
  exact (quantize_too_many_bits 1024 zero false H1).
Defined.

(** 0.9 at 8 bits is in the range. *)
Lemma quantize_unsigned_range_witness :
  1 <= 8 <= 1023 /\ valid zero_point_nine = true /\
  is_finite zero_point_nine = true /\
  ((exists z, snn2mcu_value_cuantization 8 zero_point_nine false = Ok z) <->
   (Qmax (to_Q zero_point_nine) 0 * pow2Q 8 < pow2Q 1024)%Q) /\
  ((exists z, snn2mcu_value_cuantization 8 zero_point_nine false = Ok z) \/
   snn2mcu_value_cuantization 8 zero_point_nine false = Raise OverflowError).
Proof.
  assert (H1 : 1 <= 8 <= 1023) by lia.
  assert (H2 : valid zero_point_nine = true) by reflexivity.
  assert (H3 : is_finite zero_point_nine = true) by reflexivity.
  split; [exact H1|]. split; [exact H2|]. split; [exact H3|].
  exact (quantize_unsigned_range 8 zero_point_nine H1 H2 H3).
Defined.

(** 0.9 at 8 bits: 230 without negatives, 115 with. *)
Lemma signed_is_unsigned_halved_witness :
  1 <= 8 <= 1023 /\ valid zero_point_nine = true /\
  is_finite zero_point_nine = true /\ ltb zero_point_nine zero = false /\
  (to_Q zero_point_nine * pow2Q 8 < pow2Q 1024)%Q /\
  exists q, snn2mcu_value_cuantization 8 zero_point_nine false = Ok q /\
            snn2mcu_value_cuantization 8 zero_point_nine true = Ok (q / 2).
Proof.
  assert (H1 : 1 <= 8 <= 1023) by lia.
  assert (H2 : valid zero_point_nine = true) by reflexivity.
  assert (H3 : is_finite zero_point_nine = true) by reflexivity.
  assert (H4 : ltb zero_point_nine zero = false) by reflexivity.
  assert (H5 : (to_Q zero_point_nine * pow2Q 8 < pow2Q 1024)%Q)
    by (vm_compute; reflexivity).
  split; [exact H1|]. split; [exact H2|]. split; [exact H3|]. split; [exact H4|].
  split; [exact H5|].
  exact (signed_is_unsigned_halved 8 zero_point_nine H1 H2 H3 H4 H5).
Defined.

(** -0.5 at 8 bits: 0 without negatives, -64 with. *)
Lemma fractions_fit_the_bit_width_witness :
  1 <= 8 <= 1023 /\ valid minus_half = true /\ is_finite minus_half = true /\
  (Qabs (to_Q minus_half) < 1)%Q /\
  exists u s,
    snn2mcu_value_cuantization 8 minus_half false = Ok u /\ 0 <= u < 2 ^ 8 /\
    snn2mcu_value_cuantization 8 minus_half true = Ok s /\
    - 2 ^ (8 - 1) < s < 2 ^ (8 - 1).
Proof.
  assert (H1 : 1 <= 8 <= 1023) by lia.
  assert (H2 : valid minus_half = true) by reflexivity.
  assert (H3 : is_finite minus_half = true) by reflexivity.
  assert (H4 : (Qabs (to_Q minus_half) < 1)%Q) by (vm_compute; reflexivity).
  split; [exact H1|]. split; [exact H2|]. split; [exact H3|]. split; [exact H4|].
  exact (fractions_fit_the_bit_width 8 minus_half H1 H2 H3 H4).
Defined.

(** The name [fc12.weight]. *)
Lemma layer_of_indexed_name_witness :
  0 <= 12 /\ str 12 = Ok "12" /\ all_chars not_digit "fc" = true /\
  no_leading_digit ".weight" = true /\
  layer_of_name ("fc" +:+ "12" +:+ ".weight") = Ok 12.
Proof.
  assert (H1 : 0 <= 12) by lia.
  assert (H2 : str 12 = Ok "12") by (vm_compute; reflexivity).
  assert (H3 : all_chars not_digit "fc" = true) by reflexivity.
  assert (H4 : no_leading_digit ".weight" = true) by reflexivity.
  split; [exact H1|]. split; [exact H2|]. split; [exact H3|]. split; [exact H4|].
  exact (layer_of_indexed_name "fc" ".weight" "12" 12 H1 H2 H3 H4).
Defined.

(** The sample network without its biases. *)
Lemma extractor_ignores_other_entries_witness :
  snn2mcu_param_dict_extractor (matrices sample_params) = Ok sample_table /\
  snn2mcu_param_dict_extractor (matrices (List.filter is_weight sample_params))
  = Ok sample_table.
Proof.
  assert (H1 : snn2mcu_param_dict_extractor (matrices sample_params) = Ok sample_table)
    by (vm_compute; reflexivity).
  split; [exact H1|].
  exact (extractor_ignores_other_entries sample_params sample_table H1).
Defined.

(** The output layer of the sample network. *)
Lemma unique_layer_rows_stored_witness :
  snn2mcu_param_dict_extractor
    (matrices
       ([("fc1.weight", [[half; half; half]; [half; minus_half; half]]);
         ("fc1.bias", [[half; half]])]
        ++ ("fc2.weight", [[minus_quarter; half]]) :: [("fc2.bias", [[half]])]))
  = Ok sample_table /\
  is_weight ("fc2.weight", [[minus_quarter; half]]) = true /\
  layer_of_name "fc2.weight" = Ok 2 /\
  2 <> 0 /\
  ~ In 2 (weight_layers
            [("fc1.weight", [[half; half; half]; [half; minus_half; half]]);
             ("fc1.bias", [[half; half]])]) /\
  ~ In 2 (weight_layers [("fc2.bias", [[half]])]) /\
  [[minus_quarter; half]] !! 0%nat = Some [minus_quarter; half] /\
  [minus_quarter; half] <> [] /\
  weights sample_table !! weight_key 2 (Z.of_nat 0) = Some [minus_quarter; half].
Proof.
  assert (H1 : snn2mcu_param_dict_extractor
    (matrices
       ([("fc1.weight", [[half; half; half]; [half; minus_half; half]]);
         ("fc1.bias", [[half; half]])]
        ++ ("fc2.weight", [[minus_quarter; half]]) :: [("fc2.bias", [[half]])]))
    = Ok sample_table) by (vm_compute; reflexivity).
  assert (H2 : is_weight ("fc2.weight", [[minus_quarter; half]]) = true) by reflexivity.
  assert (H3 : layer_of_name "fc2.weight" = Ok 2) by reflexivity.
  assert (H4 : 2 <> 0) by lia.
  assert (H5 : ~ In 2 (weight_layers
            [("fc1.weight", [[half; half; half]; [half; minus_half; half]]);
             ("fc1.bias", [[half; half]])]))
    by (vm_compute; intros [H|[]]; discriminate H).
  assert (H6 : ~ In 2 (weight_layers [("fc2.bias", [[half]])]))
    by (vm_compute; intros []).
  assert (H7 : [[minus_quarter; half]] !! 0%nat = Some [minus_quarter; half])
    by reflexivity.
  assert (H8 : [minus_quarter; half] <> []) by discriminate.
  split; [exact H1|]. split; [exact H2|]. split; [exact H3|]. split; [exact H4|].
  split; [exact H5|]. split; [exact H6|]. split; [exact H7|]. split; [exact H8|].
  exact (unique_layer_rows_stored _ _ "fc2.weight" [[minus_quarter; half]] 2 0
           [minus_quarter; half] sample_table H1 H2 H3 H4 H5 H6 H7 H8).
Defined.

(** The sample network: 3 columns, then 2 and 1 rows. *)
Lemma architecture_lists_the_tensors_witness :
  snn2mcu_param_dict_extractor (matrices sample_params) = Ok sample_table /\
  count_occ Z.eq_dec (weight_layers sample_params) 1 = 1%nat /\
  exists row rows rest,
    weight_tensors sample_params = (row :: rows) :: rest /\
    model_architecture sample_table
    = Some (len row :: (len <$> weight_tensors sample_params)) /\
    number_of_layers sample_table = Some (1 + len (weight_tensors sample_params)).
Proof.
  assert (H1 : snn2mcu_param_dict_extractor (matrices sample_params) = Ok sample_table)
    by (vm_compute; reflexivity).
  assert (H2 : count_occ Z.eq_dec (weight_layers sample_params) 1 = 1%nat)
    by (vm_compute; reflexivity).
  split; [exact H1|]. split; [exact H2|].
  exact (architecture_lists_the_tensors sample_params sample_table H1 H2).
Defined.

(** The sample network gives a complete table. *)
Lemma extracted_table_is_complete_witness :
  layers_in_order sample_params /\
  chained 3 (weight_tensors sample_params) /\
  Forall no_empty_row (weight_tensors sample_params) /\
  snn2mcu_param_dict_extractor (matrices sample_params) = Ok sample_table /\
  exists a, has_architecture sample_table a /\ has_all_weights sample_table a /\
            table_weights sample_table a <> [].
Proof.
  assert (H1 : layers_in_order sample_params) by (vm_compute; reflexivity).
  assert (H2 : chained 3 (weight_tensors sample_params))
    by (vm_compute; repeat constructor).
  assert (H3 : Forall no_empty_row (weight_tensors sample_params))
    by (vm_compute; repeat (constructor; try discriminate)).
  assert (H4 : snn2mcu_param_dict_extractor (matrices sample_params) = Ok sample_table)
    by (vm_compute; reflexivity).
  split; [exact H1|]. split; [exact H2|]. split; [exact H3|]. split; [exact H4|].
  exact (extracted_table_is_complete sample_params 3 sample_table H1 H2 H3 H4).
Defined.

(** The table without layers. *)
Lemma weights_of_empty_table_witness :
  has_architecture empty_table [] /\ has_all_weights empty_table [] /\
  table_weights empty_table [] = [] /\
  snn2mcu_weights empty_table 8 false = Ok "}".
Proof.
  assert (H1 : has_architecture empty_table []) by (split; reflexivity).
  assert (H2 : has_all_weights empty_table []) by constructor.
  assert (H3 : table_weights empty_table [] = []) by reflexivity.
  split; [exact H1|]. split; [exact H2|]. split; [exact H3|].
  exact (weights_of_empty_table empty_table [] 8 false H1 H2 H3).
Defined.

(** Layer 1 of the incomplete table. *)
Lemma weights_of_incomplete_table_witness :
  has_architecture incomplete_table [0; 2] /\
  In (1, 0) (neuron_ids [0; 2]) /\
  weights incomplete_table !! weight_key 1 0 = None /\
  exists e, snn2mcu_weights incomplete_table 8 false = Raise e.
Proof.
  assert (H1 : has_architecture incomplete_table [0; 2]) by (split; reflexivity).
  assert (H2 : In (1, 0) (neuron_ids [0; 2])) by (vm_compute; auto).
  assert (H3 : weights incomplete_table !! weight_key 1 0 = None) by reflexivity.
  split; [exact H1|]. split; [exact H2|]. split; [exact H3|].
  exact (weights_of_incomplete_table incomplete_table [0; 2] 1 0 8 false H1 H2 H3).
Defined.

(** The sample table at -54 bits. *)
Lemma constants_of_negative_precision_witness :
  has_architecture sample_table [3; 2; 1] /\ - 2 ^ 1023 < -54 < 0 /\
  snn2mcu_thresholds sample_table (-54)
  = Ok (encode_constant [3; 2; 1] (if -54 <? -53 then -1 else 0)) /\
  snn2mcu_leakages sample_table (-54) = Ok (encode_constant [3; 2; 1] 0).
Proof.
  assert (H1 : has_architecture sample_table [3; 2; 1]) by (split; reflexivity).
  assert (H2 : - 2 ^ 1023 < -54 < 0) by (split; vm_compute; reflexivity).
  split; [exact H1|]. split; [exact H2|].
  exact (constants_of_negative_precision sample_table [3; 2; 1] (-54) H1 H2).
Defined.

(** The sample table at 59 bits. *)
Lemma leakages_within_rounding_witness :
  has_architecture sample_table [3; 2; 1] /\ 0 <= 59 <= 1030 /\
  exists v, snn2mcu_leakages sample_table 59 = Ok (encode_constant [3; 2; 1] v) /\
            Z.abs (100 * v - 2 ^ 59) <= Z.max 99 (2 ^ 59 / 2 ^ 53).
Proof.
  assert (H1 : has_architecture sample_table [3; 2; 1]) by (split; reflexivity).
  assert (H2 : 0 <= 59 <= 1030) by lia.
  split; [exact H1|]. split; [exact H2|].
  exact (leakages_within_rounding sample_table [3; 2; 1] 59 H1 H2).
Defined.

(** The sample table at 1031 bits. *)
Lemma leakages_overflow_witness :
  has_architecture sample_table [3; 2; 1] /\ neuron_count [3; 2; 1] <> 0%nat /\
  1031 <= 1031 /\
  snn2mcu_leakages sample_table 1031 = Raise OverflowError.
Proof.
  assert (H1 : has_architecture sample_table [3; 2; 1]) by (split; reflexivity).
  assert (H2 : neuron_count [3; 2; 1] <> 0%nat) by (vm_compute; discriminate).
  assert (H3 : 1031 <= 1031) by lia.
  split; [exact H1|]. split; [exact H2|]. split; [exact H3|].
  exact (leakages_overflow sample_table [3; 2; 1] 1031 H1 H2 H3).
Defined.

(** The sample table at 14285 bits. *)
Lemma thresholds_past_the_digit_limit_witness :
  has_architecture sample_table [3; 2; 1] /\ neuron_count [3; 2; 1] <> 0%nat /\
  14285 <= 14285 /\
  snn2mcu_thresholds sample_table 14285 = Raise ValueError.
Proof.
  assert (H1 : has_architecture sample_table [3; 2; 1]) by (split; reflexivity).
  assert (H2 : neuron_count [3; 2; 1] <> 0%nat) by (vm_compute; discriminate).
  assert (H3 : 14285 <= 14285) by lia.
  split; [exact H1|]. split; [exact H2|]. split; [exact H3|].
  exact (thresholds_past_the_digit_limit sample_table [3; 2; 1] 14285 H1 H2 H3).
Defined.

(** The sample table at the precision [- 2^1024]. *)
Lemma constants_below_the_doubles_witness :
  has_architecture sample_table [3; 2; 1] /\ neuron_count [3; 2; 1] <> 0%nat /\
  - 2 ^ 1024 <= - 2 ^ 1024 /\
  snn2mcu_thresholds sample_table (- 2 ^ 1024) = Raise OverflowError /\
  snn2mcu_leakages sample_table (- 2 ^ 1024) = Raise OverflowError.
Proof.
  assert (H1 : has_architecture sample_table [3; 2; 1]) by (split; reflexivity).
  assert (H2 : neuron_count [3; 2; 1] <> 0%nat) by (vm_compute; discriminate).
  assert (H3 : - 2 ^ 1024 <= - 2 ^ 1024) by (vm_compute; discriminate).
  split; [exact H1|]. split; [exact H2|]. split; [exact H3|].
  exact (constants_below_the_doubles sample_table [3; 2; 1] (- 2 ^ 1024) H1 H2 H3).
Defined.


(** The run on the sample network at 8 bits. *)
Lemma main_writes_both_artifacts_witness :
  main (fun _ => true) (matrices sample_params) "out" 8 ∅ = (sample_files, Ok ()) /\
  exists t unsigned signed,
    snn2mcu_param_dict_extractor (matrices sample_params) = Ok t /\
    snn2mcu_weights t 8 false = Ok unsigned /\
    snn2mcu_weights t 8 true = Ok signed /\
    sample_files !! weights_file_path "out" = Some unsigned /\
    sample_files !! weights_negatives_file_path "out" = Some signed.
Proof.
  assert (H1 : main (fun _ => true) (matrices sample_params) "out" 8 ∅ = (sample_files, Ok ()))
    by (vm_compute; reflexivity).
  split; [exact H1|].
  exact (main_writes_both_artifacts (fun _ => true) (matrices sample_params) "out" 8 ∅ sample_files H1).
Defined.




(** The run on the sample network, as the files show it. *)
Example sample_run :
  sample_files !! weights_file_path "out"
  = Some "{230,230,230,128,128,128,128,0,128,0,128}" /\
  sample_files !! weights_negatives_file_path "out"
  = Some "{115,115,115,64,64,64,64,-64,64,-32,64}".
Proof. split; vm_compute; reflexivity. Qed.

End MoreSamples.
